(** * Kandid: the weekly "Hunters vs Ghosts" contest engine

    A shallow embedding of the contest engine of the Kandid server
    (the Express/SQLite file that declares [CONTEST_START_DAY_UTC],
    [getContestWindow], [syncContestAssignments],
    [handleContestLocationUpdate] and [handleContestCapture]) and the
    properties of it that the specification states.

    Conventions of the embedding:
    - instants are integer milliseconds since the epoch ([Z]), as
      [Date.now()] returns them;
    - coordinates and distances are JavaScript numbers; finite ones are
      idealised as rationals ([Q]), [Infinity] is explicit;
    - an SQL [NULL] is [None];
    - tables are lists of rows in insertion order;
    - [await] is sequential composition: the handlers run one at a time. *)

From Stdlib Require Import ZArith QArith Qround Lia Lqa.
From stdpp Require Import base list strings pretty.

Local Open Scope Z_scope.

(** ** Constants of the engine *)

Definition CONTEST_START_DAY_UTC : Z := 0.
Definition CONTEST_START_HOUR_UTC : Z := 20.
Definition CONTEST_DURATION_MS : Z := 7 * 24 * 60 * 60 * 1000.
Definition CONTEST_PROXIMITY_KM : Q := 3 # 10.
Definition CONTEST_ALERT_COOLDOWN_MS : Z := 60 * 60 * 1000.
Definition CONTEST_CAMPING_THRESHOLD_MS : Z := 6 * 60 * 60 * 1000.
Definition CONTEST_CAMPING_DISTANCE_KM : Q := 1 # 10.
Definition CONTEST_CHALLENGES : list string :=
  [ "Capture them eating";
    "Catch them laughing";
    "Spot them with a colorful outfit";
    "Find them using their phone";
    "Capture them in motion";
    "Catch them with a group of friends" ]%string.

(** ** The UTC part of JavaScript's [Date]

    A [Date] object is its time value.  The definitions follow the
    abstract operations of ECMA-262 (Day, TimeWithinDay, DayFromYear,
    YearFromTime, MonthFromTime, DateFromTime, WeekDay, MakeTime, MakeDay,
    MakeDate); division is floor division, as there.  The range limit
    of time values (8.64e15 ms either side of the epoch) is not modelled. *)

Module JsDate.

Definition msPerDay : Z := 86400000.
Definition msPerHour : Z := 3600000.
Definition msPerMinute : Z := 60000.
Definition msPerSecond : Z := 1000.

Definition Day (t : Z) : Z := t / msPerDay.
Definition TimeWithinDay (t : Z) : Z := t mod msPerDay.

Definition DaysInYear (y : Z) : Z :=
  if negb (y mod 4 =? 0) then 365
  else if negb (y mod 100 =? 0) then 366
  else if negb (y mod 400 =? 0) then 365
  else 366.

Definition DayFromYear (y : Z) : Z :=
  365 * (y - 1970) + (y - 1969) / 4 - (y - 1901) / 100 + (y - 1601) / 400.

(** The largest [y] with [DayFromYear y <= Day t]: a first guess from the
    length of the 400-year cycle, corrected by at most one year. *)
Definition YearFromDay (d : Z) : Z :=
  let y0 := 1970 + (d * 400) / 146097 in
  if d <? DayFromYear y0 then y0 - 1
  else if DayFromYear (y0 + 1) <=? d then y0 + 1
  else y0.

Definition YearFromTime (t : Z) : Z := YearFromDay (Day t).
Definition LeapOfYear (y : Z) : Z := DaysInYear y - 365.
Definition InLeapYear (t : Z) : Z := LeapOfYear (YearFromTime t).
Definition DayWithinYear (t : Z) : Z := Day t - DayFromYear (YearFromTime t).

(** Day number within the year of the first day of month [m] (0-based). *)
Definition MonthStart (m leap : Z) : Z :=
  if m =? 0 then 0
  else if m =? 1 then 31
  else if m =? 2 then 59 + leap
  else if m =? 3 then 90 + leap
  else if m =? 4 then 120 + leap
  else if m =? 5 then 151 + leap
  else if m =? 6 then 181 + leap
  else if m =? 7 then 212 + leap
  else if m =? 8 then 243 + leap
  else if m =? 9 then 273 + leap
  else if m =? 10 then 304 + leap
  else 334 + leap.

Definition MonthFromTime (t : Z) : Z :=
  let d := DayWithinYear t in
  let leap := InLeapYear t in
  if d <? 31 then 0
  else if d <? 59 + leap then 1
  else if d <? 90 + leap then 2
  else if d <? 120 + leap then 3
  else if d <? 151 + leap then 4
  else if d <? 181 + leap then 5
  else if d <? 212 + leap then 6
  else if d <? 243 + leap then 7
  else if d <? 273 + leap then 8
  else if d <? 304 + leap then 9
  else if d <? 334 + leap then 10
  else 11.

Definition DateFromTime (t : Z) : Z :=
  DayWithinYear t - MonthStart (MonthFromTime t) (InLeapYear t) + 1.

Definition WeekDay (t : Z) : Z := (Day t + 4) mod 7.

Definition HourFromTime (t : Z) : Z := (t / msPerHour) mod 24.
Definition MinFromTime (t : Z) : Z := (t / msPerMinute) mod 60.
Definition SecFromTime (t : Z) : Z := (t / msPerSecond) mod 60.
Definition msFromTime (t : Z) : Z := t mod msPerSecond.

Definition MakeTime (hour min sec ms : Z) : Z :=
  hour * msPerHour + min * msPerMinute + sec * msPerSecond + ms.

Definition MakeDay (year month date : Z) : Z :=
  let ym := year + month / 12 in
  let mn := month mod 12 in
  DayFromYear ym + MonthStart mn (LeapOfYear ym) + date - 1.

Definition MakeDate (day time : Z) : Z := day * msPerDay + time.

(** Getters and setters used by the engine.  A setter returns the new
    time value of the object it mutates. *)
Definition getUTCDay (t : Z) : Z := WeekDay t.
Definition getUTCDate (t : Z) : Z := DateFromTime t.

Definition setUTCMilliseconds (t ms : Z) : Z :=
  MakeDate (Day t) (MakeTime (HourFromTime t) (MinFromTime t) (SecFromTime t) ms).
Definition setUTCSeconds (t s : Z) : Z :=
  MakeDate (Day t) (MakeTime (HourFromTime t) (MinFromTime t) s (msFromTime t)).
Definition setUTCMinutes (t m : Z) : Z :=
  MakeDate (Day t) (MakeTime (HourFromTime t) m (SecFromTime t) (msFromTime t)).
Definition setUTCHours (t h : Z) : Z :=
  MakeDate (Day t) (MakeTime h (MinFromTime t) (SecFromTime t) (msFromTime t)).
Definition setUTCDate (t dt : Z) : Z :=
  MakeDate (MakeDay (YearFromTime t) (MonthFromTime t) dt) (TimeWithinDay t).

End JsDate.

(** ** WindowCalculator: [getContestWindow] *)

Record window := { startsAt : Z; endsAt : Z }.

Definition getContestWindow (now : Z) : window :=
  let current := now in
  let start := current in
  let start := JsDate.setUTCMilliseconds start 0 in
  let start := JsDate.setUTCSeconds start 0 in
  let start := JsDate.setUTCMinutes start 0 in
  let start := JsDate.setUTCHours start CONTEST_START_HOUR_UTC in
  let dayDiff := (JsDate.getUTCDay current - CONTEST_START_DAY_UTC + 7) mod 7 in
  let start := JsDate.setUTCDate start (JsDate.getUTCDate current - dayDiff) in
  let start :=
    if start >? now then JsDate.setUTCDate start (JsDate.getUTCDate start - 7)
    else start in
  let end_ := start + CONTEST_DURATION_MS in
  {| startsAt := start; endsAt := end_ |}.


(** ** JavaScript numbers and [Math]

    A distance is a finite number or [Infinity].  The trigonometric
    functions, the square root and the constant pi of the host's [Math]
    object are an interface: the engine is verified for every
    implementation of it. *)

Inductive jsnum :=
  | Finite (q : Q)
  | Infinity.

(** [a > b] and [a <= b] for a threshold [b] that is finite. *)
Definition js_gt (a : jsnum) (b : Q) : bool :=
  match a with
  | Infinity => true
  | Finite q => negb (Qle_bool q b)
  end.

Definition js_le (a : jsnum) (b : Q) : bool :=
  match a with
  | Infinity => false
  | Finite q => Qle_bool q b
  end.

Class JsMath := {
  Math_PI : Q;
  Math_sin : Q -> Q;
  Math_cos : Q -> Q;
  Math_sqrt : Q -> Q;
  Math_atan2 : Q -> Q -> Q
}.

Definition Math_floor (q : Q) : Z := Qfloor q.
Definition Math_ceil (q : Q) : Z := Qceiling q.
Definition Math_round (q : Q) : Z := Qfloor (q + (1 # 2)).

Section Geometry.
Context `{JsMath}.

Definition deg2rad (deg : Q) : Q := (deg * (Math_PI / 180))%Q.

Definition distanceKm (lat1 lon1 lat2 lon2 : option Q) : jsnum :=
  match lat1, lat2, lon1, lon2 with
  | Some lat1, Some lat2, Some lon1, Some lon2 =>
      let R := 6371%Q in
      let dLat := deg2rad (lat2 - lat1) in
      let dLon := deg2rad (lon2 - lon1) in
      let a :=
        (Math_sin (dLat / 2) * Math_sin (dLat / 2) +
         Math_cos (deg2rad lat1) * Math_cos (deg2rad lat2) *
           Math_sin (dLon / 2) * Math_sin (dLon / 2))%Q in
      let c := (2 * Math_atan2 (Math_sqrt a) (Math_sqrt (1 - a)))%Q in
      Finite (R * c)
  | _, _, _, _ => Infinity
  end.

End Geometry.

(** ** The tables

    [users], [posts] and [inbox_messages] are declared by the schema of
    the database module; only the columns the engine reads or writes are
    kept.  Generated ids are UUIDs and are taken never to repeat, so the
    primary keys on them are not checked. *)

Module Users.
Record row := {
  id : string;
  display_name : string;
  bekandid_enabled : Z;
  location_lat : option Q;
  location_lng : option Q;
  location_updated_at : option Z
}.
End Users.

Module Posts.
Record row := {
  id : string;
  author_id : string;
  recipient_id : option string;
  image : string;
  caption : option string;
  created_at : Z;
  visibility : string;
  original_post_id : option string
}.
End Posts.

Module InboxMessages.
Record row := {
  id : string;
  recipient_id : string;
  post_id : option string;
  sender_id : string;
  created_at : Z;
  read : Z;
  type : string;
  message : option string
}.
End InboxMessages.

(** Modelled from the spec: the schema of the three contest tables and of
    the [bekandid_enabled] column is not in the database module.  The spec
    gives a ContestWeek an identity, [startsAt], [endsAt] and a challenge,
    unique per [startsAt]; an Assignment the key (contestId, userId), a
    role, [captures], [survivalFlag], [campingViolation], a last location
    and [lastMoveAt]; a Capture contestId, hunterId, ghostId, an evidence
    reference, the challenge claimed and [createdAt].  Column names are
    those of the engine's SQL. *)
Module ContestWeeks.
Record row := {
  id : string;
  starts_at : Z;
  ends_at : Z;
  challenge : string
}.
End ContestWeeks.

Module ContestAssignments.
Record row := {
  contest_id : string;
  user_id : string;
  role : string;
  captures : Z;
  survival_flag : Z;
  camping_violation : Z;
  last_location_lat : option Q;
  last_location_lng : option Q;
  last_move_at : option Z
}.
End ContestAssignments.

Module ContestCaptures.
Record row := {
  id : string;
  contest_id : string;
  hunter_id : string;
  ghost_id : string;
  post_id : string;
  challenge : string;
  created_at : Z
}.
End ContestCaptures.

Record database := {
  users : list Users.row;
  posts : list Posts.row;
  inbox_messages : list InboxMessages.row;
  contest_weeks : list ContestWeeks.row;
  contest_assignments : list ContestAssignments.row;
  contest_captures : list ContestCaptures.row
}.

(** ** The world a request runs in

    Besides the database, a request reads the clock ([Date.now]), draws
    random numbers ([Math.random]) and mints identifiers
    ([crypto.randomUUID]).  The three are streams fixed in advance; the
    counters say how far each has been read. *)

Record world := {
  db : database;
  clock : nat -> Z;
  ticks : nat;
  entropy : nat -> Q;
  draws : nat;
  uuids : nat -> string;
  minted : nat
}.

Definition with_db (d : database) (w : world) : world :=
  {| db := d; clock := clock w; ticks := ticks w; entropy := entropy w;
     draws := draws w; uuids := uuids w; minted := minted w |}.

(** A JavaScript [Error]; [statusCode] is set by the engine on the errors it
    raises itself and absent on the storage layer's. *)
Record js_error := {
  statusCode : option Z;
  error_message : string
}.

Inductive outcome (A : Type) :=
  | Returned (a : A) (w : world)
  | Thrown (e : js_error) (w : world).
Arguments Returned {A} a w.
Arguments Thrown {A} e w.

Definition final_world {A} (o : outcome A) : world :=
  match o with
  | Returned _ w => w
  | Thrown _ w => w
  end.

(** An [async] computation: it runs from a world and either returns or
    throws; what it wrote before throwing stays written. *)
Definition M (A : Type) : Type := world -> outcome A.

Definition ret {A} (a : A) : M A := fun w => Returned a w.

Definition bind {A B} (m : M A) (k : A -> M B) : M B :=
  fun w =>
    match m w with
    | Returned a w' => k a w'
    | Thrown e w' => Thrown e w'
    end.

Definition throw {A} (e : js_error) : M A := fun w => Thrown e w.

Definition try_catch {A} (m : M A) (handler : js_error -> M A) : M A :=
  fun w =>
    match m w with
    | Returned a w' => Returned a w'
    | Thrown e w' => handler e w'
    end.

Notation "x <- m ;; k" := (bind m (fun x => k))
  (at level 100, m at next level, right associativity).
Notation "m ;;; k" := (bind m (fun _ => k))
  (at level 100, right associativity).

Definition Date_now : M Z :=
  fun w =>
    Returned (clock w (ticks w))
      {| db := db w; clock := clock w; ticks := S (ticks w);
         entropy := entropy w; draws := draws w;
         uuids := uuids w; minted := minted w |}.

(** [Math.random()] lies in [0, 1): the fractional part of the next
    element of the stream. *)
Definition unit_interval (q : Q) : Q := (q - inject_Z (Qfloor q))%Q.

Definition Math_random : M Q :=
  fun w =>
    Returned (unit_interval (entropy w (draws w)))
      {| db := db w; clock := clock w; ticks := ticks w;
         entropy := entropy w; draws := S (draws w);
         uuids := uuids w; minted := minted w |}.

Definition createId : M string :=
  fun w =>
    Returned (uuids w (minted w))
      {| db := db w; clock := clock w; ticks := ticks w;
         entropy := entropy w; draws := draws w;
         uuids := uuids w; minted := S (minted w) |}.

(** [db.all] and [db.get]: a query of the current database. *)
Definition query {A} (f : database -> A) : M A :=
  fun w => Returned (f (db w)) w.

(** [db.run]: a statement, which the storage layer may refuse. *)
Definition run (f : database -> database + js_error) : M unit :=
  fun w =>
    match f (db w) with
    | inl d => Returned tt (with_db d w)
    | inr e => Thrown e w
    end.

Fixpoint for_of {A} (l : list A) (body : A -> M unit) : M unit :=
  match l with
  | [] => ret tt
  | x :: l' => body x ;;; for_of l' body
  end.

Definition constraint_failed : js_error :=
  {| statusCode := None; error_message := "SQLITE_CONSTRAINT" |}.

(** ** Statements and queries of the engine *)

Definition set_users (l : list Users.row) (d : database) : database :=
  {| users := l; posts := posts d; inbox_messages := inbox_messages d;
     contest_weeks := contest_weeks d;
     contest_assignments := contest_assignments d;
     contest_captures := contest_captures d |}.

Definition set_posts (l : list Posts.row) (d : database) : database :=
  {| users := users d; posts := l; inbox_messages := inbox_messages d;
     contest_weeks := contest_weeks d;
     contest_assignments := contest_assignments d;
     contest_captures := contest_captures d |}.

Definition set_inbox_messages (l : list InboxMessages.row) (d : database) : database :=
  {| users := users d; posts := posts d; inbox_messages := l;
     contest_weeks := contest_weeks d;
     contest_assignments := contest_assignments d;
     contest_captures := contest_captures d |}.

Definition set_contest_weeks (l : list ContestWeeks.row) (d : database) : database :=
  {| users := users d; posts := posts d; inbox_messages := inbox_messages d;
     contest_weeks := l;
     contest_assignments := contest_assignments d;
     contest_captures := contest_captures d |}.

Definition set_contest_assignments (l : list ContestAssignments.row) (d : database) : database :=
  {| users := users d; posts := posts d; inbox_messages := inbox_messages d;
     contest_weeks := contest_weeks d;
     contest_assignments := l;
     contest_captures := contest_captures d |}.

Definition set_contest_captures (l : list ContestCaptures.row) (d : database) : database :=
  {| users := users d; posts := posts d; inbox_messages := inbox_messages d;
     contest_weeks := contest_weeks d;
     contest_assignments := contest_assignments d;
     contest_captures := l |}.

Definition user_ids (d : database) : list string := Users.id <$> users d.
Definition post_ids (d : database) : list string := Posts.id <$> posts d.

(** A nullable foreign key: [NULL] refers to nothing. *)
Definition refers_to (k : option string) (keys : list string) : Prop :=
  match k with
  | None => True
  | Some k => k ∈ keys
  end.

Global Instance refers_to_dec k keys : Decision (refers_to k keys).
Proof. destruct k; simpl; apply _. Defined.

(** [INSERT INTO posts]: the foreign keys of the schema
    ([PRAGMA foreign_keys = ON]). *)
Definition insert_post (r : Posts.row) (d : database) : database + js_error :=
  if decide (Posts.author_id r ∈ user_ids d
             ∧ refers_to (Posts.recipient_id r) (user_ids d)
             ∧ refers_to (Posts.original_post_id r) (post_ids d))
  then inl (set_posts (posts d ++ [r]) d)
  else inr constraint_failed.

(** [INSERT INTO inbox_messages]: likewise. *)
Definition insert_inbox_message (r : InboxMessages.row) (d : database)
  : database + js_error :=
  if decide (InboxMessages.recipient_id r ∈ user_ids d
             ∧ InboxMessages.sender_id r ∈ user_ids d
             ∧ refers_to (InboxMessages.post_id r) (post_ids d))
  then inl (set_inbox_messages (inbox_messages d ++ [r]) d)
  else inr constraint_failed.

(** Modelled from the spec: a ContestWeek is unique per [startsAt], and the
    storage layer rejects a duplicate week-creation. *)
Definition insert_contest_week (r : ContestWeeks.row) (d : database)
  : database + js_error :=
  if decide (ContestWeeks.starts_at r ∈ (ContestWeeks.starts_at <$> contest_weeks d))
  then inr constraint_failed
  else inl (set_contest_weeks (contest_weeks d ++ [r]) d).

Definition assignment_key (a : ContestAssignments.row) : string * string :=
  (ContestAssignments.contest_id a, ContestAssignments.user_id a).

(** Modelled from the spec: an Assignment is keyed by (contestId, userId),
    and the storage layer rejects a duplicate-assignment insert. *)
Definition insert_contest_assignment (r : ContestAssignments.row) (d : database)
  : database + js_error :=
  if decide (assignment_key r ∈ (assignment_key <$> contest_assignments d))
  then inr constraint_failed
  else inl (set_contest_assignments (contest_assignments d ++ [r]) d).

(** Modelled from the spec: a Capture is an append-only record. *)
Definition insert_contest_capture (r : ContestCaptures.row) (d : database)
  : database + js_error :=
  inl (set_contest_captures (contest_captures d ++ [r]) d).

(** [UPDATE contest_assignments SET ... WHERE contest_id = ? AND user_id = ?] *)
Definition update_contest_assignment (contestId userId : string)
    (set : ContestAssignments.row -> ContestAssignments.row) (d : database)
  : database + js_error :=
  inl (set_contest_assignments
         ((fun a => if decide (assignment_key a = (contestId, userId))
                    then set a else a) <$> contest_assignments d) d).

(** [DELETE FROM contest_assignments WHERE contest_id = ? AND user_id IN (...)] *)
Definition delete_contest_assignments (contestId : string) (userIds : list string)
    (d : database) : database + js_error :=
  inl (set_contest_assignments
         (filter (fun a => ¬ (ContestAssignments.contest_id a = contestId
                              ∧ ContestAssignments.user_id a ∈ userIds))
                 (contest_assignments d)) d).

(** [UPDATE users SET ... WHERE id = ?] *)
Definition update_user (userId : string) (set : Users.row -> Users.row)
    (d : database) : database + js_error :=
  inl (set_users ((fun u => if decide (Users.id u = userId) then set u else u)
                    <$> users d) d).

(** [SELECT id FROM users WHERE bekandid_enabled = ?] *)
Definition select_user_ids_where_bekandid (flag : Z) (d : database) : list string :=
  Users.id <$> filter (fun u => Users.bekandid_enabled u = flag) (users d).

(** [SELECT * FROM contest_assignments WHERE contest_id = ?] *)
Definition select_assignments (contestId : string) (d : database)
  : list ContestAssignments.row :=
  filter (fun a => ContestAssignments.contest_id a = contestId)
         (contest_assignments d).

(** [SELECT * FROM contest_assignments WHERE contest_id = ? AND user_id = ?] *)
Definition get_assignment (contestId userId : string) (d : database)
  : option ContestAssignments.row :=
  head (filter (fun a => assignment_key a = (contestId, userId))
               (contest_assignments d)).

(** [SELECT * FROM contest_weeks WHERE starts_at = ?] *)
Definition get_contest_week (startsAt : Z) (d : database) : option ContestWeeks.row :=
  head (filter (fun c => ContestWeeks.starts_at c = startsAt) (contest_weeks d)).

(** [SELECT bekandid_enabled FROM users WHERE id = ?] *)
Definition get_user (userId : string) (d : database) : option Users.row :=
  head (filter (fun u => Users.id u = userId) (users d)).

(** The rows of the proximity scan: surviving ghosts of the contest joined
    with their users. *)
Module GhostScan.
Record row := {
  user_id : string;
  display_name : string;
  location_lat : option Q;
  location_lng : option Q
}.
End GhostScan.

Definition select_surviving_ghosts (contestId : string) (d : database)
  : list GhostScan.row :=
  filter (fun ca => ContestAssignments.contest_id ca = contestId
                    ∧ ContestAssignments.role ca = "ghost"%string
                    ∧ ContestAssignments.survival_flag ca = 1)
         (contest_assignments d)
  ≫= fun ca =>
  filter (fun u => ContestAssignments.user_id ca = Users.id u) (users d)
  ≫= fun u =>
  [ {| GhostScan.user_id := ContestAssignments.user_id ca;
       GhostScan.display_name := Users.display_name u;
       GhostScan.location_lat := Users.location_lat u;
       GhostScan.location_lng := Users.location_lng u |} ].

(** [ORDER BY created_at DESC LIMIT 1] *)
Fixpoint most_recent (l : list InboxMessages.row) : option InboxMessages.row :=
  match l with
  | [] => None
  | m :: l' =>
      match most_recent l' with
      | None => Some m
      | Some b =>
          if InboxMessages.created_at b <=? InboxMessages.created_at m
          then Some m else Some b
      end
  end.

(** [SELECT id, created_at FROM inbox_messages WHERE recipient_id = ? AND
    sender_id = ? AND type = 'contest_alert' ORDER BY created_at DESC LIMIT 1] *)
Definition select_alerts (recipientId senderId : string) (d : database)
  : list InboxMessages.row :=
  filter (fun m => InboxMessages.recipient_id m = recipientId
                   ∧ InboxMessages.sender_id m = senderId
                   ∧ InboxMessages.type m = "contest_alert"%string)
         (inbox_messages d).

Definition get_recent_alert (recipientId senderId : string) (d : database)
  : option InboxMessages.row :=
  most_recent (select_alerts recipientId senderId d).

(** ** The engine *)

(** [[copy[i], copy[j]] = [copy[j], copy[i]]].  Both indices are inside the
    array wherever [shuffle] swaps (see [shuffle_indices_in_range]); outside
    it the array is left alone here. *)
Definition swap {A} (copy : list A) (i j : nat) : list A :=
  match copy !! j, copy !! i with
  | Some cj, Some ci => <[j := ci]> (<[i := cj]> copy)
  | _, _ => copy
  end.

(** The body of [shuffle]'s loop, from index [i] down to 1. *)
Fixpoint shuffle_from {A} (i : nat) (copy : list A) : M (list A) :=
  match i with
  | O => ret copy
  | S i' =>
      r <- Math_random ;;
      let j := Z.to_nat (Math_floor (r * inject_Z (Z.of_nat i + 1))) in
      shuffle_from i' (swap copy i j)
  end.

Definition shuffle {A} (array : list A) : M (list A) :=
  let copy := array in
  shuffle_from (length copy - 1) copy.

(** Modelled from the spec: the columns an [INSERT] of the engine does not
    name take the schema's defaults, which are not in the database module;
    a new assignment has no camping violation and no last location. *)
Definition new_assignment (contestId userId role : string) (now : Z)
  : ContestAssignments.row :=
  {| ContestAssignments.contest_id := contestId;
     ContestAssignments.user_id := userId;
     ContestAssignments.role := role;
     ContestAssignments.captures := 0;
     ContestAssignments.survival_flag := 1;
     ContestAssignments.camping_violation := 0;
     ContestAssignments.last_location_lat := None;
     ContestAssignments.last_location_lng := None;
     ContestAssignments.last_move_at := Some now |}.

(** The incremental join: the loop over [toAssign] with its two running
    counts. *)
Fixpoint join_from (contestId : string) (now : Z) (toAssign : list string)
    (hunterCount ghostCount : nat) : M unit :=
  match toAssign with
  | [] => ret tt
  | participant :: rest =>
      let role := if (hunterCount <=? ghostCount)%nat then "hunter" else "ghost" in
      run (insert_contest_assignment (new_assignment contestId participant role now)) ;;;
      if decide (role = "hunter")
      then join_from contestId now rest (hunterCount + 1)%nat ghostCount
      else join_from contestId now rest hunterCount (ghostCount + 1)%nat
  end%string.

Definition syncContestAssignments (contestId : string) : M unit :=
  participants <- query (select_user_ids_where_bekandid 0) ;;
  bekandid <- query (select_user_ids_where_bekandid 1) ;;
  (if decide (bekandid = []) then ret tt
   else run (delete_contest_assignments contestId bekandid)) ;;;
  existing <- query (select_assignments contestId) ;;
  let assignedSet := ContestAssignments.user_id <$> existing in
  let toAssign := filter (fun row => row ∉ assignedSet) participants in
  if decide (existing = []) then
    shuffled <- shuffle participants ;;
    let midpoint := Z.to_nat (Math_ceil (inject_Z (Z.of_nat (length shuffled)) / 2)) in
    let hunters := take midpoint shuffled in
    let ghosts := drop midpoint shuffled in
    now <- Date_now ;;
    for_of hunters (fun participant =>
      run (insert_contest_assignment
             (new_assignment contestId participant "hunter" now))) ;;;
    for_of ghosts (fun participant =>
      run (insert_contest_assignment
             (new_assignment contestId participant "ghost" now)))
  else
    let hunterCount :=
      length (filter (fun row => ContestAssignments.role row = "hunter"%string) existing) in
    let ghostCount :=
      length (filter (fun row => ContestAssignments.role row = "ghost"%string) existing) in
    now <- Date_now ;;
    join_from contestId now toAssign hunterCount ghostCount.

(** The server assigns [db] before it listens, so the [if (!db) return null]
    of the source never fires and the contest returned is never [null]. *)
Definition ensureActiveContest : M ContestWeeks.row :=
  now <- Date_now ;;
  let window := getContestWindow now in
  found <- query (get_contest_week (startsAt window)) ;;
  contest <-
    match found with
    | Some contest => ret contest
    | None =>
        id <- createId ;;
        r <- Math_random ;;
        let challenge :=
          default ""%string
            (CONTEST_CHALLENGES !!
               Z.to_nat (Math_floor (r * inject_Z (Z.of_nat (length CONTEST_CHALLENGES))))) in
        let contest :=
          {| ContestWeeks.id := id;
             ContestWeeks.starts_at := startsAt window;
             ContestWeeks.ends_at := endsAt window;
             ContestWeeks.challenge := challenge |} in
        run (insert_contest_week contest) ;;;
        ret contest
    end ;;
  syncContestAssignments (ContestWeeks.id contest) ;;;
  ret contest.

(** Every caller passes [type] and [createdAt]; the defaults of the source's
    parameter list are those of [postId] and [message] only. *)
Definition createInboxEntry (recipientId senderId : string) (postId : option string)
    (type : string) (message : option string) (createdAt : Z) : M unit :=
  id <- createId ;;
  run (insert_inbox_message
         {| InboxMessages.id := id;
            InboxMessages.recipient_id := recipientId;
            InboxMessages.post_id := postId;
            InboxMessages.sender_id := senderId;
            InboxMessages.created_at := createdAt;
            InboxMessages.read := 0;
            InboxMessages.type := type;
            InboxMessages.message := message |}).

(** [x || now] on a nullable instant: [null] and [0] are falsy. *)
Definition or_now (x : option Z) (now : Z) : Z :=
  match x with
  | Some t => if t =? 0 then now else t
  | None => now
  end.

Definition set_location (lat lng : Q) (now : Z) (a : ContestAssignments.row)
  : ContestAssignments.row :=
  {| ContestAssignments.contest_id := ContestAssignments.contest_id a;
     ContestAssignments.user_id := ContestAssignments.user_id a;
     ContestAssignments.role := ContestAssignments.role a;
     ContestAssignments.captures := ContestAssignments.captures a;
     ContestAssignments.survival_flag := ContestAssignments.survival_flag a;
     ContestAssignments.camping_violation := ContestAssignments.camping_violation a;
     ContestAssignments.last_location_lat := Some lat;
     ContestAssignments.last_location_lng := Some lng;
     ContestAssignments.last_move_at :=
       Some (default now (ContestAssignments.last_move_at a)) |}.

Definition set_moved (now : Z) (a : ContestAssignments.row) : ContestAssignments.row :=
  {| ContestAssignments.contest_id := ContestAssignments.contest_id a;
     ContestAssignments.user_id := ContestAssignments.user_id a;
     ContestAssignments.role := ContestAssignments.role a;
     ContestAssignments.captures := ContestAssignments.captures a;
     ContestAssignments.survival_flag := ContestAssignments.survival_flag a;
     ContestAssignments.camping_violation := 0;
     ContestAssignments.last_location_lat := ContestAssignments.last_location_lat a;
     ContestAssignments.last_location_lng := ContestAssignments.last_location_lng a;
     ContestAssignments.last_move_at := Some now |}.

Definition set_camping (a : ContestAssignments.row) : ContestAssignments.row :=
  {| ContestAssignments.contest_id := ContestAssignments.contest_id a;
     ContestAssignments.user_id := ContestAssignments.user_id a;
     ContestAssignments.role := ContestAssignments.role a;
     ContestAssignments.captures := ContestAssignments.captures a;
     ContestAssignments.survival_flag := ContestAssignments.survival_flag a;
     ContestAssignments.camping_violation := 1;
     ContestAssignments.last_location_lat := ContestAssignments.last_location_lat a;
     ContestAssignments.last_location_lng := ContestAssignments.last_location_lng a;
     ContestAssignments.last_move_at := ContestAssignments.last_move_at a |}.

Definition add_capture (a : ContestAssignments.row) : ContestAssignments.row :=
  {| ContestAssignments.contest_id := ContestAssignments.contest_id a;
     ContestAssignments.user_id := ContestAssignments.user_id a;
     ContestAssignments.role := ContestAssignments.role a;
     ContestAssignments.captures := ContestAssignments.captures a + 1;
     ContestAssignments.survival_flag := ContestAssignments.survival_flag a;
     ContestAssignments.camping_violation := ContestAssignments.camping_violation a;
     ContestAssignments.last_location_lat := ContestAssignments.last_location_lat a;
     ContestAssignments.last_location_lng := ContestAssignments.last_location_lng a;
     ContestAssignments.last_move_at := ContestAssignments.last_move_at a |}.

Definition set_captured (a : ContestAssignments.row) : ContestAssignments.row :=
  {| ContestAssignments.contest_id := ContestAssignments.contest_id a;
     ContestAssignments.user_id := ContestAssignments.user_id a;
     ContestAssignments.role := ContestAssignments.role a;
     ContestAssignments.captures := ContestAssignments.captures a;
     ContestAssignments.survival_flag := 0;
     ContestAssignments.camping_violation := ContestAssignments.camping_violation a;
     ContestAssignments.last_location_lat := ContestAssignments.last_location_lat a;
     ContestAssignments.last_location_lng := ContestAssignments.last_location_lng a;
     ContestAssignments.last_move_at := ContestAssignments.last_move_at a |}.

Definition camping_warning : string :=
  "Ghost alert: move around! Staying put will get you disqualified.".

Section Engine.
Context `{JsMath}.

(** The body of the loop over the surviving ghosts. *)
Definition alert_if_near (userId : string) (lat lng : Q) (now : Z)
    (ghost : GhostScan.row) : M unit :=
  let distance :=
    distanceKm (Some lat) (Some lng)
      (GhostScan.location_lat ghost) (GhostScan.location_lng ghost) in
  if js_le distance CONTEST_PROXIMITY_KM then
    recentAlert <- query (get_recent_alert userId (GhostScan.user_id ghost)) ;;
    if match recentAlert with
       | None => true
       | Some recentAlert =>
           now - InboxMessages.created_at recentAlert >? CONTEST_ALERT_COOLDOWN_MS
       end
    then
      createInboxEntry userId (GhostScan.user_id ghost) None "contest_alert"
        (Some (GhostScan.display_name ghost +:+ " is within " +:+
               pretty (match distance with
                       | Finite d => Math_round (d * 1000)
                       | Infinity => 0
                       end) +:+ " meters!"))
        now
    else ret tt
  else ret tt.

Definition handleContestLocationUpdate (userId : string) (lat lng : Q) : M unit :=
  contest <- ensureActiveContest ;;
  assignment <- query (get_assignment (ContestWeeks.id contest) userId) ;;
  match assignment with
  | None => ret tt
  | Some assignment =>
      now <- Date_now ;;
      run (update_contest_assignment (ContestWeeks.id contest) userId
             (set_location lat lng now)) ;;;
      if decide (ContestAssignments.role assignment = "ghost"%string) then
        let previousLat := ContestAssignments.last_location_lat assignment in
        let previousLng := ContestAssignments.last_location_lng assignment in
        let previousMove := or_now (ContestAssignments.last_move_at assignment) now in
        let movedDistance := distanceKm previousLat previousLng (Some lat) (Some lng) in
        if js_gt movedDistance CONTEST_CAMPING_DISTANCE_KM then
          run (update_contest_assignment (ContestWeeks.id contest) userId
                 (set_moved now))
        else if now - previousMove >? CONTEST_CAMPING_THRESHOLD_MS then
          run (update_contest_assignment (ContestWeeks.id contest) userId
                 set_camping) ;;;
          createInboxEntry userId userId None "contest_warning"
            (Some camping_warning) now
        else ret tt
      else if decide (ContestAssignments.role assignment ≠ "hunter"%string) then ret tt
      else
        ghosts <- query (select_surviving_ghosts (ContestWeeks.id contest)) ;;
        for_of ghosts (alert_if_near userId lat lng now)
  end.

End Engine.

Definition challenge_mismatch : js_error :=
  {| statusCode := Some 400;
     error_message := "This capture does not match the weekly contest challenge." |}.
Definition not_a_hunter : js_error :=
  {| statusCode := Some 400;
     error_message := "Only hunters can submit contest captures." |}.
Definition not_an_active_ghost : js_error :=
  {| statusCode := Some 400;
     error_message := "Target is not an active ghost." |}.

Definition is_role (role : string) (a : option ContestAssignments.row) : Prop :=
  match a with
  | Some a => ContestAssignments.role a = role
  | None => False
  end.

Global Instance is_role_dec role a : Decision (is_role role a).
Proof. destruct a; simpl; apply _. Defined.

Definition handleContestCapture (hunterId ghostId postId challenge : string) : M unit :=
  contest <- ensureActiveContest ;;
  if decide (ContestWeeks.challenge contest ≠ challenge) then throw challenge_mismatch
  else
    hunterAssignment <- query (get_assignment (ContestWeeks.id contest) hunterId) ;;
    ghostAssignment <- query (get_assignment (ContestWeeks.id contest) ghostId) ;;
    if decide (¬ is_role "hunter" hunterAssignment) then throw not_a_hunter
    else if decide (¬ is_role "ghost" ghostAssignment) then throw not_an_active_ghost
    else
      now <- Date_now ;;
      id <- createId ;;
      run (insert_contest_capture
             {| ContestCaptures.id := id;
                ContestCaptures.contest_id := ContestWeeks.id contest;
                ContestCaptures.hunter_id := hunterId;
                ContestCaptures.ghost_id := ghostId;
                ContestCaptures.post_id := postId;
                ContestCaptures.challenge := challenge;
                ContestCaptures.created_at := now |}) ;;;
      run (update_contest_assignment (ContestWeeks.id contest) hunterId add_capture) ;;;
      run (update_contest_assignment (ContestWeeks.id contest) ghostId set_captured) ;;;
      createInboxEntry hunterId ghostId (Some postId) "contest_capture"
        (Some "Capture logged! Score updated."%string) now ;;;
      createInboxEntry ghostId hunterId (Some postId) "contest_captured"
        (Some "You were captured! Better luck next week."%string) now.

(** ** The routes that reach the engine

    A route is the handler registered with [app.post] or [app.get]: it
    takes the authenticated user's id (what [requireAuth] leaves in
    [req.userId]) and the request body, and leaves a response.  The payload
    of a successful response (a snapshot of the state) is not modelled, the
    reads that build it are: [buildState] runs [ensureActiveContest]
    first. *)

Record response := {
  status : Z;
  error : option string
}.

Definition ok (code : Z) : response := {| status := code; error := None |}.
Definition failed (code : Z) (msg : string) : response :=
  {| status := code; error := Some msg |}.

Definition buildState : M unit :=
  ensureActiveContest ;;; ret tt.

(** The body of [POST /api/posts] after its defaults: an absent or empty
    [recipientId] or [image] is the empty string, [contestCapture] is the
    truth value of the flag. *)
Record post_request := {
  recipientId : string;
  image : string;
  caption : string;
  visibility : string;
  contestCapture : bool;
  contestChallenge : option string
}.

Definition is_bekandid (recipientRow : option Users.row) : bool :=
  match recipientRow with
  | Some u => negb (Users.bekandid_enabled u =? 0)
  | None => false
  end.

Definition post_api_posts (userId : string) (body : post_request) : M response :=
  try_catch
    (if decide (recipientId body = ""%string ∨ image body = ""%string) then
       ret (failed 400 "Recipient and image are required.")
     else
       now <- Date_now ;;
       postId <- createId ;;
       run (insert_post
              {| Posts.id := postId;
                 Posts.author_id := userId;
                 Posts.recipient_id := Some (recipientId body);
                 Posts.image := image body;
                 Posts.caption := Some (caption body);
                 Posts.created_at := now;
                 Posts.visibility := visibility body;
                 Posts.original_post_id := None |}) ;;;
       recipientRow <- query (get_user (recipientId body)) ;;
       createInboxEntry (recipientId body) userId (Some postId)
         (if is_bekandid recipientRow then "bekandid_drop" else "drop")
         None now ;;;
       (if contestCapture body then
          handleContestCapture userId (recipientId body) postId
            (default ""%string (contestChallenge body))
        else ret tt) ;;;
       buildState ;;;
       ret (ok 201))
    (fun error =>
       match statusCode error with
       | Some code =>
           if code =? 0 then ret (failed 500 "Failed to create post.")
           else ret (failed code (error_message error))
       | None => ret (failed 500 "Failed to create post.")
       end).

Definition set_user_location (lat lng : Q) (now : Z) (u : Users.row) : Users.row :=
  {| Users.id := Users.id u;
     Users.display_name := Users.display_name u;
     Users.bekandid_enabled := Users.bekandid_enabled u;
     Users.location_lat := Some lat;
     Users.location_lng := Some lng;
     Users.location_updated_at := Some now |}.

Definition set_bekandid_enabled (flag : Z) (u : Users.row) : Users.row :=
  {| Users.id := Users.id u;
     Users.display_name := Users.display_name u;
     Users.bekandid_enabled := flag;
     Users.location_lat := Users.location_lat u;
     Users.location_lng := Users.location_lng u;
     Users.location_updated_at := Users.location_updated_at u |}.

Section Routes.
Context `{JsMath}.

(** [lat] and [lng] are [None] when the body's value is not a number. *)
Definition post_api_users_me_location (userId : string) (lat lng : option Q)
  : M response :=
  try_catch
    (match lat, lng with
     | Some lat, Some lng =>
         now <- Date_now ;;
         run (update_user userId (set_user_location lat lng now)) ;;;
         handleContestLocationUpdate userId lat lng ;;;
         buildState ;;;
         ret (ok 200)
     | _, _ => ret (failed 400 "Latitude and longitude are required numbers.")
     end)
    (fun _ => ret (failed 500 "Failed to update location.")).

Definition post_api_users_me_bekandid (userId : string) (enabled : bool) : M response :=
  try_catch
    (run (update_user userId (set_bekandid_enabled (if enabled then 1 else 0))) ;;;
     ensureActiveContest ;;;
     buildState ;;;
     ret (ok 200))
    (fun _ => ret (failed 500 "Failed to toggle BeKandid mode.")).

Definition get_api_state : M response :=
  try_catch
    (buildState ;;; ret (ok 200))
    (fun _ => ret (failed 500 "Failed to load state.")).

Inductive request :=
  | PostPosts (userId : string) (body : post_request)
  | PostLocation (userId : string) (lat lng : option Q)
  | PostBekandid (userId : string) (enabled : bool)
  | GetState.

Definition serve (r : request) : M response :=
  match r with
  | PostPosts userId body => post_api_posts userId body
  | PostLocation userId lat lng => post_api_users_me_location userId lat lng
  | PostBekandid userId enabled => post_api_users_me_bekandid userId enabled
  | GetState => get_api_state
  end.

(** The server handles requests one after the other; a failed request
    leaves the world as it was when it failed. *)
Fixpoint serve_all (rs : list request) (w : world) : world :=
  match rs with
  | [] => w
  | r :: rs' => serve_all rs' (final_world (serve r w))
  end.

End Routes.

(** ** Vocabulary of the properties *)

(** A Sunday, 20:00:00.000 UTC. *)
Definition contest_start (s : Z) : Prop :=
  JsDate.WeekDay s = CONTEST_START_DAY_UTC /\
  JsDate.HourFromTime s = CONTEST_START_HOUR_UTC /\
  JsDate.MinFromTime s = 0 /\ JsDate.SecFromTime s = 0 /\ JsDate.msFromTime s = 0.

(** The start of the week of [t], in closed form. *)
Definition week_start (t : Z) : Z :=
  let s0 := (JsDate.Day t - JsDate.WeekDay t) * JsDate.msPerDay
            + 20 * JsDate.msPerHour in
  if s0 >? t then s0 - 7 * JsDate.msPerDay else s0.

Definition assignment_keys (d : database) : list (string * string) :=
  assignment_key <$> contest_assignments d.

(** A row as [syncContestAssignments] inserts it. *)
Definition fresh_assignment (contestId : string) (now : Z) (a : ContestAssignments.row) : Prop :=
  exists role, (role = "hunter" \/ role = "ghost")%string /\
    a = new_assignment contestId (ContestAssignments.user_id a) role now.

(** What retraction keeps: the rows that are not an opted-out user's row in
    the contest. *)
Definition retained (contestId : string) (d : database) : list ContestAssignments.row :=
  filter (fun a => ~ (ContestAssignments.contest_id a = contestId
                      /\ ContestAssignments.user_id a ∈ select_user_ids_where_bekandid 1 d))
         (contest_assignments d).

Definition in_contest (contestId : string) (l : list ContestAssignments.row) :=
  filter (fun a => ContestAssignments.contest_id a = contestId) l.

(** [Math.ceil(n / 2)] *)
Definition midpoint_of (n : nat) : nat :=
  Z.to_nat (Math_ceil (inject_Z (Z.of_nat n) / 2)).

(** The same world with more assignments. *)
Definition with_assignments (l : list ContestAssignments.row) (w : world) : world :=
  with_db (set_contest_assignments l (db w)) w.

(** The same world with its three streams read further. *)
Definition advance (t r u : nat) (w : world) : world :=
  {| db := db w; clock := clock w; ticks := (t + ticks w)%nat;
     entropy := entropy w; draws := (r + draws w)%nat;
     uuids := uuids w; minted := (u + minted w)%nat |}.


(** The number of rows with a role. *)
Definition count_role (role : string) (l : list ContestAssignments.row) : nat :=
  length (filter (fun a => ContestAssignments.role a = role) l).

(** The role the incremental join gives to the next user. *)
Definition minority_role (hunterCount ghostCount : nat) : string :=
  if (hunterCount <=? ghostCount)%nat then "hunter" else "ghost".

(** The rows a user holds in a contest. *)
Definition assignments_of (contestId userId : string) (d : database)
  : list ContestAssignments.row :=
  filter (fun a => assignment_key a = (contestId, userId)) (contest_assignments d).

(** ** Sample data for the examples *)

(** A small rational implementation of the [Math] interface: low-order
    series for the sine, the cosine and the arc tangent, a few Newton
    steps for the square root, fractions kept in lowest terms.  It is
    exact where the examples use it, at coincident points, where the host
    computes a distance of 0 as well. *)
Module RationalMath.

Definition sin (x : Q) : Q :=
  let x := Qred x in Qred (x - x * x * x / 6).
Definition cos (x : Q) : Q :=
  let x := Qred x in Qred (1 - x * x / 2).
Definition newton (a y : Q) : Q := Qred ((y + a / y) / 2).
Definition sqrt (a : Q) : Q :=
  let a := Qred a in
  if Qle_bool a 0 then 0%Q else newton a (newton a (newton a 1)).
Definition atan2 (y x : Q) : Q :=
  let t := Qred (y / x) in Qred (t - t * t * t / 3).

Definition instance : JsMath :=
  {| Math_PI := 355 # 113;
     Math_sin := sin;
     Math_cos := cos;
     Math_sqrt := sqrt;
     Math_atan2 := atan2 |}.

End RationalMath.

Module Sample.

Definition t0 : Z := 1793615415000.
Definition mina_lat : Q := 407282 # 10000.
Definition mina_lng : Q := - (737949 # 10000).
Definition week_starts : Z := 1793563200000.
Definition week_ends : Z := 1794168000000.

Definition user (id name : string) (flag : Z) (lat lng : option Q) : Users.row :=
  {| Users.id := id; Users.display_name := name; Users.bekandid_enabled := flag;
     Users.location_lat := lat; Users.location_lng := lng;
     Users.location_updated_at := None |}.

Definition ari := user "ari" "Ari Castillo" 0 (Some (407129 # 10000)) (Some (- (740059 # 10000)))%Q.
Definition mina := user "mina" "Mina Patel" 0 (Some (407282 # 10000)) (Some (- (737949 # 10000)))%Q.
Definition devon := user "devon" "Devon Blake" 1 None None.

Definition week : ContestWeeks.row :=
  {| ContestWeeks.id := "week";
     ContestWeeks.starts_at := week_starts;
     ContestWeeks.ends_at := week_ends;
     ContestWeeks.challenge := "Capture them eating" |}.

Definition assignment (userId role : string) (captures survival camping : Z)
    (lat lng : option Q) (lastMove : option Z) : ContestAssignments.row :=
  {| ContestAssignments.contest_id := "week";
     ContestAssignments.user_id := userId;
     ContestAssignments.role := role;
     ContestAssignments.captures := captures;
     ContestAssignments.survival_flag := survival;
     ContestAssignments.camping_violation := camping;
     ContestAssignments.last_location_lat := lat;
     ContestAssignments.last_location_lng := lng;
     ContestAssignments.last_move_at := lastMove |}.

Definition uuid_pool : list string :=
  [ "uuid-0"; "uuid-1"; "uuid-2"; "uuid-3"; "uuid-4"; "uuid-5"; "uuid-6"; "uuid-7";
    "uuid-8"; "uuid-9"; "uuid-10"; "uuid-11"; "uuid-12"; "uuid-13"; "uuid-14";
    "uuid-15" ]%string.

Definition world_of (d : database) : world :=
  {| db := d;
     clock := fun n => Z.of_nat n + t0;
     ticks := 0;
     entropy := fun _ => 0%Q;
     draws := 0;
     uuids := fun n => default "uuid"%string (uuid_pool !! n);
     minted := 0 |}.

Definition database_of (assignments : list ContestAssignments.row) : database :=
  {| users := [ari; mina; devon];
     posts := [];
     inbox_messages := [];
     contest_weeks := [week];
     contest_assignments := assignments;
     contest_captures := [] |}.

(** Ari hunts, Mina is a ghost at large; neither assignment has a
    location. *)
Definition hunting : world :=
  world_of (database_of
    [ assignment "ari" "hunter" 0 1 0 None None (Some week_starts);
      assignment "mina" "ghost" 0 1 0 None None (Some week_starts) ]).

(** Ari hunts alone; Mina, who is eligible, holds no assignment yet. *)
Definition joining : world :=
  world_of (database_of [ assignment "ari" "hunter" 0 1 0 None None (Some week_starts) ]).

(** Mina is a ghost who last moved seven hours ago and is still at the
    position recorded then; she is not flagged for camping yet. *)
Definition stationary : world :=
  world_of (database_of
    [ assignment "ari" "hunter" 0 1 0 None None (Some week_starts);
      assignment "mina" "ghost" 0 1 0 (Some (407282 # 10000)) (Some (- (737949 # 10000)))%Q
        (Some (t0 - 7 * 3600000)) ]).

(** Mina is a ghost flagged for camping whose assignment has no location
    yet. *)
Definition never_located : world :=
  world_of (database_of
    [ assignment "ari" "hunter" 0 1 0 None None (Some week_starts);
      assignment "mina" "ghost" 0 1 1 None None (Some (t0 - 7 * 3600000)) ]).

(** No contest week has been created yet. *)
Definition no_week : world :=
  world_of
    {| users := [ari; mina; devon];
       posts := [];
       inbox_messages := [];
       contest_weeks := [];
       contest_assignments := [];
       contest_captures := [] |}.

(** Ari posts a picture of Mina as a contest capture. *)
Definition capture_request (challenge : string) : post_request :=
  {| recipientId := "mina"; image := "data:image/png;base64,AAAA";
     caption := ""; visibility := "public";
     contestCapture := true; contestChallenge := Some challenge |}.

(** Mina is a ghost whom Ari has captured earlier in the week: the world
    that Ari's first capture leaves. *)
Definition captured : world :=
  final_world (post_api_posts "ari" (capture_request "Capture them eating") hunting).

End Sample.

(** [I] holds in the world a computation leaves, whether it returns or
    throws. *)
Definition preserves {A} (I : world -> Prop) (m : M A) : Prop :=
  forall w, I w -> I (final_world (m w)).

(** Invariants that reading the streams and writing the two tables of the
    role assignor cannot break. *)
Record engine_stable (I : world -> Prop) : Prop := {
  stable_advance : forall t r u w, I w -> I (advance t r u w);
  stable_weeks : forall l w, I w -> I (with_db (set_contest_weeks l (db w)) w);
  stable_assignments : forall l w, I w -> I (with_assignments l w)
}.

(** The tables [ensureActiveContest] never writes. *)
Definition outside_contest (d : database)
  : list Users.row * list Posts.row * list InboxMessages.row * list ContestCaptures.row :=
  (users d, posts d, inbox_messages d, contest_captures d).

(** The post row and the inbox drop that [POST /api/posts] writes before
    it looks at the capture flag, and the world they leave. *)
Definition posted_row (userId : string) (body : post_request) (w : world) : Posts.row :=
  {| Posts.id := uuids w (minted w);
     Posts.author_id := userId;
     Posts.recipient_id := Some (recipientId body);
     Posts.image := image body;
     Posts.caption := Some (caption body);
     Posts.created_at := clock w (ticks w);
     Posts.visibility := visibility body;
     Posts.original_post_id := None |}.

Definition dropped_row (userId : string) (body : post_request) (w : world)
  : InboxMessages.row :=
  {| InboxMessages.id := uuids w (S (minted w));
     InboxMessages.recipient_id := recipientId body;
     InboxMessages.post_id := Some (uuids w (minted w));
     InboxMessages.sender_id := userId;
     InboxMessages.created_at := clock w (ticks w);
     InboxMessages.read := 0;
     InboxMessages.type :=
       if is_bekandid (get_user (recipientId body) (db w)) then "bekandid_drop" else "drop";
     InboxMessages.message := None |}.

Definition after_post (userId : string) (body : post_request) (w : world) : world :=
  advance 1 0 2
    (with_db
       (set_inbox_messages (inbox_messages (db w) ++ [dropped_row userId body w])
          (set_posts (posts (db w) ++ [posted_row userId body w]) (db w))) w).

(** The camping warning a ghost receives. *)
Definition warning_row (userId : string) (now : Z) (w : world) : InboxMessages.row :=
  {| InboxMessages.id := uuids w (minted w);
     InboxMessages.recipient_id := userId;
     InboxMessages.post_id := None;
     InboxMessages.sender_id := userId;
     InboxMessages.created_at := now;
     InboxMessages.read := 0;
     InboxMessages.type := "contest_warning";
     InboxMessages.message := Some camping_warning |}.

(** The clock never runs backwards. *)
Definition monotone (clk : nat -> Z) : Prop :=
  forall i j, (i <= j)%nat -> clk i <= clk j.

(** A proximity alert sent to [hunterId] about [ghostId]. *)
Definition is_alert (hunterId ghostId : string) (m : InboxMessages.row) : Prop :=
  InboxMessages.recipient_id m = hunterId /\
  InboxMessages.sender_id m = ghostId /\
  InboxMessages.type m = "contest_alert"%string.

(** Two alerts of one pair lie more than the cooldown apart, the later row
    being the later alert. *)
Definition alerts_spaced (l : list InboxMessages.row) : Prop :=
  forall i j mi mj hunterId ghostId,
    (i < j)%nat -> l !! i = Some mi -> l !! j = Some mj ->
    is_alert hunterId ghostId mi -> is_alert hunterId ghostId mj ->
    InboxMessages.created_at mj - InboxMessages.created_at mi > CONTEST_ALERT_COOLDOWN_MS.

Definition alerts_before (now : Z) (l : list InboxMessages.row) : Prop :=
  forall m, m ∈ l -> InboxMessages.type m = "contest_alert"%string ->
            InboxMessages.created_at m <= now.

(** The invariant of the inbox while a request that read the clock at
    [now] runs, and between requests. *)
Definition alert_inv_at (now : Z) (w : world) : Prop :=
  monotone (clock w) /\
  alerts_spaced (inbox_messages (db w)) /\
  alerts_before now (inbox_messages (db w)) /\
  now <= clock w (ticks w).

Definition alert_inv (w : world) : Prop := alert_inv_at (clock w (ticks w)) w.

(** Invariants that only writing a proximity alert can break. *)
Record inbox_stable (I : world -> Prop) : Prop := {
  inbox_advance : forall t r u w, I w -> I (advance t r u w);
  inbox_frame : forall d w,
    I w -> inbox_messages d = inbox_messages (db w) -> I (with_db d w);
  inbox_append : forall m w,
    I w -> InboxMessages.type m <> "contest_alert"%string ->
    I (with_db (set_inbox_messages (inbox_messages (db w) ++ [m]) (db w)) w)
}.

(** The alerts of a pair that fall in the hour that starts at [t]. *)
Definition alerts_in_window (hunterId ghostId : string) (t : Z)
    (l : list InboxMessages.row) : list InboxMessages.row :=
  filter (fun m => is_alert hunterId ghostId m /\
                   t <= InboxMessages.created_at m <= t + CONTEST_ALERT_COOLDOWN_MS) l.



(** The hunter at ([lat], [lng]) is due an alert about [ghost]: the ghost
    is within the proximity threshold and the pair has no alert yet, or its
    most recent alert is older than the cooldown. *)
Definition alert_due `{JsMath} (userId : string) (lat lng : Q) (now : Z)
    (d : database) (ghost : GhostScan.row) : Prop :=
  js_le (distanceKm (Some lat) (Some lng)
           (GhostScan.location_lat ghost) (GhostScan.location_lng ghost))
        CONTEST_PROXIMITY_KM = true /\
  match get_recent_alert userId (GhostScan.user_id ghost) d with
  | None => True
  | Some recent => now - InboxMessages.created_at recent > CONTEST_ALERT_COOLDOWN_MS
  end.

Global Instance alert_due_dec `{JsMath} userId lat lng now d ghost :
  Decision (alert_due userId lat lng now d ghost).
Proof.
  unfold alert_due. destruct (get_recent_alert _ _ _); apply _.
Defined.

(** Forgetting every location: the users' and the assignments'. *)
Definition erase_user (u : Users.row) : Users.row :=
  {| Users.id := Users.id u;
     Users.display_name := Users.display_name u;
     Users.bekandid_enabled := Users.bekandid_enabled u;
     Users.location_lat := None;
     Users.location_lng := None;
     Users.location_updated_at := Users.location_updated_at u |}.

Definition erase_assignment (a : ContestAssignments.row) : ContestAssignments.row :=
  {| ContestAssignments.contest_id := ContestAssignments.contest_id a;
     ContestAssignments.user_id := ContestAssignments.user_id a;
     ContestAssignments.role := ContestAssignments.role a;
     ContestAssignments.captures := ContestAssignments.captures a;
     ContestAssignments.survival_flag := ContestAssignments.survival_flag a;
     ContestAssignments.camping_violation := ContestAssignments.camping_violation a;
     ContestAssignments.last_location_lat := None;
     ContestAssignments.last_location_lng := None;
     ContestAssignments.last_move_at := ContestAssignments.last_move_at a |}.

Definition erase_database (d : database) : database :=
  {| users := erase_user <$> users d;
     posts := posts d;
     inbox_messages := inbox_messages d;
     contest_weeks := contest_weeks d;
     contest_assignments := erase_assignment <$> contest_assignments d;
     contest_captures := contest_captures d |}.

Definition erase_locations (w : world) : world := with_db (erase_database (db w)) w.

(** Two worlds that differ in locations at most. *)
Definition same_but_locations (w1 w2 : world) : Prop :=
  erase_locations w1 = erase_locations w2.

Definition outcome_map {A} (f : world -> world) (o : outcome A) : outcome A :=
  match o with
  | Returned a w => Returned a (f w)
  | Thrown e w => Thrown e (f w)
  end.

(** [m1] in a world without locations does what [m2] does in the world with
    them, up to locations; the values returned are related by [R]. *)
Definition simulates {A} (R : A -> A -> Prop) (m1 m2 : M A) : Prop :=
  forall w,
    match m1 (erase_locations w), m2 w with
    | Returned a1 w1, Returned a2 w2 => R a1 a2 /\ w1 = erase_locations w2
    | Thrown e1 w1, Thrown e2 w2 => e1 = e2 /\ w1 = erase_locations w2
    | _, _ => False
    end.

(** ** More vocabulary: weeks, creeping, and what the storage keeps *)

(** The next [reads] readings of the clock fall in the week of [contest],
    which is on record. *)
Definition in_week (contest : ContestWeeks.row) (reads : nat) (w : world) : Prop :=
  forall k, (k < reads)%nat ->
    get_contest_week (startsAt (getContestWindow (clock w (k + ticks w)%nat))) (db w)
    = Some contest.

(** The reports of a player who creeps: each position is within the camping
    distance of the one reported before it. *)
Fixpoint creeping `{JsMath} (from : Q * Q) (steps : list (Q * Q)) : Prop :=
  match steps with
  | [] => True
  | p :: rest =>
      js_gt (distanceKm (Some from.1) (Some from.2) (Some p.1) (Some p.2))
            CONTEST_CAMPING_DISTANCE_KM = false /\
      creeping p rest
  end.

(** The requests that report [steps], one after the other. *)
Definition reports (userId : string) (steps : list (Q * Q)) : list request :=
  (fun p => PostLocation userId (Some p.1) (Some p.2)) <$> steps.

(** Invariants of the storage: they withstand every write the server
    performs, as it performs it.  An assignment or a week is inserted only
    under a key that is free, rows are updated in place without a change of
    key, and captures are only ever appended. *)
Record storage_stable (I : world -> Prop) : Prop := {
  storage_advance : forall t r u w, I w -> I (advance t r u w);
  storage_posts : forall l w, I w -> I (with_db (set_posts l (db w)) w);
  storage_inbox : forall l w, I w -> I (with_db (set_inbox_messages l (db w)) w);
  storage_insert_assignment : forall r w,
    I w -> assignment_key r ∉ assignment_keys (db w) ->
    I (with_assignments (contest_assignments (db w) ++ [r]) w);
  storage_update_assignment : forall (f : ContestAssignments.row -> ContestAssignments.row) w,
    I w -> (forall a, assignment_key (f a) = assignment_key a) ->
    I (with_assignments (f <$> contest_assignments (db w)) w);
  storage_delete_assignments : forall (P : ContestAssignments.row -> Prop)
      `{!forall a, Decision (P a)} w,
    I w -> I (with_assignments (filter P (contest_assignments (db w))) w);
  storage_insert_week : forall r w,
    I w -> ContestWeeks.starts_at r ∉ (ContestWeeks.starts_at <$> contest_weeks (db w)) ->
    I (with_db (set_contest_weeks (contest_weeks (db w) ++ [r]) (db w)) w);
  storage_insert_capture : forall r w,
    I w -> I (with_db (set_contest_captures (contest_captures (db w) ++ [r]) (db w)) w);
  storage_update_user : forall (f : Users.row -> Users.row) w,
    I w -> (forall u, Users.id (f u) = Users.id u) ->
    I (with_db (set_users (f <$> users (db w)) (db w)) w)
}.

(** Keys are unique: one row per user id, per (contest, user) and per start
    of week. *)
Definition consistent (w : world) : Prop :=
  NoDup (user_ids (db w)) /\
  NoDup (assignment_keys (db w)) /\
  NoDup (ContestWeeks.starts_at <$> contest_weeks (db w)).

(** What has become of [w0]: the same users, and the weeks and the captures
    it had, followed by newer ones. *)
Definition grown_from (w0 w : world) : Prop :=
  user_ids (db w) = user_ids (db w0) /\
  contest_weeks (db w0) `prefix_of` contest_weeks (db w) /\
  contest_captures (db w0) `prefix_of` contest_captures (db w).

(** Invariants that neither the engine nor a notification can break: they
    depend on the users, the posts and the captures only. *)
Record directory_stable (I : world -> Prop) : Prop := {
  directory_engine : engine_stable I;
  directory_inbox : forall l w, I w -> I (with_db (set_inbox_messages l (db w)) w)
}.

(** The tables a location report leaves alone once the user's row is
    written. *)
Definition directory (d : database)
  : list Users.row * list Posts.row * list ContestCaptures.row :=
  (users d, posts d, contest_captures d).

(** A second implementation of the [Math] interface, in fixed point with
    twelve decimals: three terms of each series and forty Newton steps for the
    square root.  It is accurate to the metre at the distances of the
    examples. *)
Module DecimalMath.

Definition digits : positive := 1000000000000.
Definition rounded (q : Q) : Q := Qfloor (q * (Zpos digits # 1)) # digits.

Definition sin (x : Q) : Q :=
  let x := Qred x in rounded (x - x * x * x / 6 + x * x * x * x * x / 120).
Definition cos (x : Q) : Q :=
  let x := Qred x in rounded (1 - x * x / 2 + x * x * x * x / 24).
Fixpoint newton (steps : nat) (a y : Q) : Q :=
  match steps with
  | O => y
  | S steps' => newton steps' a (rounded ((y + a / y) / 2))
  end.
Definition sqrt (a : Q) : Q :=
  let a := Qred a in if Qle_bool a 0 then 0%Q else newton 40 a 1.
Definition atan2 (y x : Q) : Q :=
  let t := Qred (y / x) in rounded (t - t * t * t / 3 + t * t * t * t * t / 5).

Definition instance : JsMath :=
  {| Math_PI := 3141592653589793 # 1000000000000000;
     Math_sin := sin;
     Math_cos := cos;
     Math_sqrt := sqrt;
     Math_atan2 := atan2 |}.

End DecimalMath.

(** ** The inbox route: [POST /api/inbox/mark-read]

    The statement has one placeholder per message id and one for the
    recipient; SQLite refuses a statement with more placeholders than its
    compile-time limit, which is a parameter here.  The ids of the body are
    strings. *)
Definition too_many_variables : js_error :=
  {| statusCode := None; error_message := "SQLITE_ERROR: too many SQL variables" |}.

Definition mark_read (m : InboxMessages.row) : InboxMessages.row :=
  {| InboxMessages.id := InboxMessages.id m;
     InboxMessages.recipient_id := InboxMessages.recipient_id m;
     InboxMessages.post_id := InboxMessages.post_id m;
     InboxMessages.sender_id := InboxMessages.sender_id m;
     InboxMessages.created_at := InboxMessages.created_at m;
     InboxMessages.read := 1;
     InboxMessages.type := InboxMessages.type m;
     InboxMessages.message := InboxMessages.message m |}.

Section MarkRead.
Variable SQLITE_MAX_VARIABLE_NUMBER : nat.

(** [UPDATE inbox_messages SET read = 1 WHERE id IN (...) AND recipient_id = ?] *)
Definition update_inbox_read (messageIds : list string) (userId : string) (d : database)
  : database + js_error :=
  if decide (SQLITE_MAX_VARIABLE_NUMBER < length messageIds + 1)%nat
  then inr too_many_variables
  else inl (set_inbox_messages
              ((fun m => if decide (InboxMessages.id m ∈ messageIds
                                    ∧ InboxMessages.recipient_id m = userId)
                         then mark_read m else m) <$> inbox_messages d) d).

(** [messageIds] is [None] when the body's value is not an array. *)
Definition post_api_inbox_mark_read (userId : string) (messageIds : option (list string))
  : M response :=
  try_catch
    (match messageIds with
     | Some ((_ :: _) as messageIds) =>
         run (update_inbox_read messageIds userId) ;;;
         buildState ;;;
         ret (ok 200)
     | _ => ret (failed 400 "messageIds array is required.")
     end)
    (fun _ => ret (failed 500 "Failed to mark inbox messages.")).

End MarkRead.

(** The messages of [l] that [userId] marks as read by naming [messageIds]. *)
Definition marked (messageIds : list string) (userId : string)
    (l : list InboxMessages.row) : list InboxMessages.row :=
  (fun m => if decide (InboxMessages.id m ∈ messageIds
                       ∧ InboxMessages.recipient_id m = userId)
            then mark_read m else m) <$> l.

(** ** The social routes: follows, likes and comments

    Three more tables of the schema, kept beside the world of the engine.
    [follows] and [likes] have composite primary keys, [comments] a
    generated one; all three refer to [users] and [posts] by foreign keys. *)

Module Follows.
Record row := {
  follower_id : string;
  following_id : string;
  created_at : Z
}.
End Follows.

Module Likes.
Record row := {
  post_id : string;
  user_id : string;
  created_at : Z
}.
End Likes.

Module Comments.
Record row := {
  id : string;
  post_id : string;
  author_id : string;
  text : string;
  created_at : Z
}.
End Comments.

Record site := {
  engine : world;
  follows : list Follows.row;
  likes : list Likes.row;
  comments : list Comments.row
}.

Definition with_engine (w : world) (s : site) : site :=
  {| engine := w; follows := follows s; likes := likes s; comments := comments s |}.
Definition set_follows (l : list Follows.row) (s : site) : site :=
  {| engine := engine s; follows := l; likes := likes s; comments := comments s |}.
Definition set_likes (l : list Likes.row) (s : site) : site :=
  {| engine := engine s; follows := follows s; likes := l; comments := comments s |}.
Definition set_comments (l : list Comments.row) (s : site) : site :=
  {| engine := engine s; follows := follows s; likes := likes s; comments := l |}.

(** An [async] computation over the whole site. *)
Inductive settled (A : Type) :=
  | Resolved (a : A) (s : site)
  | Rejected (e : js_error) (s : site).
Arguments Resolved {A} a s.
Arguments Rejected {A} e s.

Definition final_site {A} (o : settled A) : site :=
  match o with
  | Resolved _ s => s
  | Rejected _ s => s
  end.

Definition Async (A : Type) : Type := site -> settled A.

Definition resolve {A} (a : A) : Async A := fun s => Resolved a s.

Definition await {A B} (m : Async A) (k : A -> Async B) : Async B :=
  fun s =>
    match m s with
    | Resolved a s' => k a s'
    | Rejected e s' => Rejected e s'
    end.

Definition catching {A} (m : Async A) (handler : js_error -> Async A) : Async A :=
  fun s =>
    match m s with
    | Resolved a s' => Resolved a s'
    | Rejected e s' => handler e s'
    end.

(** A computation of the engine, run on the engine's part of the site. *)
Definition lift {A} (m : M A) : Async A :=
  fun s =>
    match m (engine s) with
    | Returned a w => Resolved a (with_engine w s)
    | Thrown e w => Rejected e (with_engine w s)
    end.

Definition select {A} (f : site -> A) : Async A := fun s => Resolved (f s) s.

Definition execute (f : site -> site + js_error) : Async unit :=
  fun s =>
    match f s with
    | inl s' => Resolved tt s'
    | inr e => Rejected e s
    end.

Notation "x <~ m ;; k" := (await m (fun x => k))
  (at level 100, m at next level, right associativity).
Notation "m ;;~ k" := (await m (fun _ => k))
  (at level 100, right associativity).

(** [SELECT follower_id FROM follows WHERE follower_id = ? AND following_id = ?] *)
Definition get_follow (followerId followingId : string) (s : site) : option Follows.row :=
  head (filter (fun r => Follows.follower_id r = followerId
                         ∧ Follows.following_id r = followingId) (follows s)).

(** [DELETE FROM follows WHERE follower_id = ? AND following_id = ?] *)
Definition delete_follow (followerId followingId : string) (s : site) : site + js_error :=
  inl (set_follows
         (filter (fun r => ¬ (Follows.follower_id r = followerId
                              ∧ Follows.following_id r = followingId)) (follows s)) s).

(** [INSERT INTO follows]: the primary key and the two foreign keys. *)
Definition insert_follow (r : Follows.row) (s : site) : site + js_error :=
  if decide ((Follows.follower_id r, Follows.following_id r)
             ∈ ((fun r => (Follows.follower_id r, Follows.following_id r)) <$> follows s))
  then inr constraint_failed
  else if decide (Follows.follower_id r ∈ user_ids (db (engine s))
                  ∧ Follows.following_id r ∈ user_ids (db (engine s)))
  then inl (set_follows (follows s ++ [r]) s)
  else inr constraint_failed.

(** [SELECT post_id FROM likes WHERE post_id = ? AND user_id = ?] *)
Definition get_like (postId userId : string) (s : site) : option Likes.row :=
  head (filter (fun r => Likes.post_id r = postId ∧ Likes.user_id r = userId) (likes s)).

(** [DELETE FROM likes WHERE post_id = ? AND user_id = ?] *)
Definition delete_like (postId userId : string) (s : site) : site + js_error :=
  inl (set_likes
         (filter (fun r => ¬ (Likes.post_id r = postId ∧ Likes.user_id r = userId))
                 (likes s)) s).

(** [INSERT INTO likes]: the primary key and the two foreign keys. *)
Definition insert_like (r : Likes.row) (s : site) : site + js_error :=
  if decide ((Likes.post_id r, Likes.user_id r)
             ∈ ((fun r => (Likes.post_id r, Likes.user_id r)) <$> likes s))
  then inr constraint_failed
  else if decide (Likes.post_id r ∈ post_ids (db (engine s))
                  ∧ Likes.user_id r ∈ user_ids (db (engine s)))
  then inl (set_likes (likes s ++ [r]) s)
  else inr constraint_failed.

(** [INSERT INTO comments]: the two foreign keys. *)
Definition insert_comment (r : Comments.row) (s : site) : site + js_error :=
  if decide (Comments.post_id r ∈ post_ids (db (engine s))
             ∧ Comments.author_id r ∈ user_ids (db (engine s)))
  then inl (set_comments (comments s ++ [r]) s)
  else inr constraint_failed.

(** [POST /api/follows/:userId/toggle] *)
Definition post_api_follows_toggle (currentId targetId : string) : Async response :=
  catching
    (if decide (currentId = targetId) then resolve (failed 400 "Cannot follow yourself.")
     else
       existing <~ select (get_follow currentId targetId) ;;
       (match existing with
        | Some _ => execute (delete_follow currentId targetId)
        | None =>
            now <~ lift Date_now ;;
            execute (insert_follow
                       {| Follows.follower_id := currentId;
                          Follows.following_id := targetId;
                          Follows.created_at := now |}) ;;~
            id <~ lift createId ;;
            lift (run (insert_inbox_message
                         {| InboxMessages.id := id;
                            InboxMessages.recipient_id := targetId;
                            InboxMessages.post_id := None;
                            InboxMessages.sender_id := currentId;
                            InboxMessages.created_at := now;
                            InboxMessages.read := 0;
                            InboxMessages.type := "follow";
                            InboxMessages.message := None |}))
        end) ;;~
       lift buildState ;;~
       resolve (ok 200))
    (fun _ => resolve (failed 500 "Failed to update follow state.")).

(** [POST /api/posts/:postId/like] *)
Definition post_api_posts_like (userId postId : string) : Async response :=
  catching
    (existing <~ select (get_like postId userId) ;;
     (match existing with
      | Some _ => execute (delete_like postId userId)
      | None =>
          now <~ lift Date_now ;;
          execute (insert_like
                     {| Likes.post_id := postId; Likes.user_id := userId;
                        Likes.created_at := now |})
      end) ;;~
     lift buildState ;;~
     resolve (ok 200))
    (fun _ => resolve (failed 500 "Failed to toggle like.")).

(** [String.prototype.trim], which the comment route applies to the text:
    an interface. *)
Class JsString := {
  String_trim : string -> string
}.

(** [POST /api/posts/:postId/comments]; [text] is the string of the body,
    empty when the body has none. *)
Definition post_api_posts_comments `{JsString} (userId postId text : string)
  : Async response :=
  catching
    (if decide (text = ""%string ∨ String_trim text = ""%string)
     then resolve (failed 400 "Comment text is required.")
     else
       commentId <~ lift createId ;;
       now <~ lift Date_now ;;
       execute (insert_comment
                  {| Comments.id := commentId;
                     Comments.post_id := postId;
                     Comments.author_id := userId;
                     Comments.text := String_trim text;
                     Comments.created_at := now |}) ;;~
       lift buildState ;;~
       resolve (ok 201))
    (fun _ => resolve (failed 500 "Failed to add comment.")).

(** The notification a follow leaves in the inbox of the user followed. *)
Definition follow_notice (currentId targetId : string) (s : site) : InboxMessages.row :=
  {| InboxMessages.id := uuids (engine s) (minted (engine s));
     InboxMessages.recipient_id := targetId;
     InboxMessages.post_id := None;
     InboxMessages.sender_id := currentId;
     InboxMessages.created_at := clock (engine s) (ticks (engine s));
     InboxMessages.read := 0;
     InboxMessages.type := "follow";
     InboxMessages.message := None |}.

(** A sample [trim]: blanks (space, tab, line feed, carriage return) are
    removed at both ends. *)
Module AsciiTrim.

Definition blank (c : Ascii.ascii) : bool :=
  bool_decide (Ascii.nat_of_ascii c ∈ [32; 9; 10; 13]%nat).

Fixpoint trim_start (s : string) : string :=
  match s with
  | EmptyString => EmptyString
  | String c s' => if blank c then trim_start s' else s
  end.

Definition trim (s : string) : string :=
  String.rev (trim_start (String.rev (trim_start s))).

Definition instance : JsString := {| String_trim := trim |}.

End AsciiTrim.

(** A site without follows, likes and comments. *)
Definition site_of (w : world) : site :=
  {| engine := w; follows := []; likes := []; comments := [] |}.

(** ** The client: [timeAgo]

    [Date.now()] is read once, on entry; it is the first argument here.
    Time stamps are whole numbers of milliseconds, so that
    [Math.floor(a / b)] is the floor division of integers. *)
Definition timeAgo (now timestamp : Z) : string :=
  let diff := now - timestamp in
  let seconds := diff / 1000 in
  if seconds <? 60 then pretty seconds +:+ "s ago" else
  let minutes := seconds / 60 in
  if minutes <? 60 then pretty minutes +:+ "m ago" else
  let hours := minutes / 60 in
  if hours <? 24 then pretty hours +:+ "h ago" else
  let days := hours / 24 in
  if days <? 7 then pretty days +:+ "d ago" else
  let weeks := days / 7 in
  if weeks <? 5 then pretty weeks +:+ "w ago" else
  let months := days / 30 in
  if months <? 12 then pretty months +:+ "mo ago" else
  let years := days / 365 in
  pretty years +:+ "y ago".

(** Ari hunts alone in the current week; Mina, who is eligible, holds an
    assignment of an earlier week only, and Devon, who has opted out, still
    holds one in the current week. *)
Definition second_week : world :=
  with_assignments
    [ new_assignment "earlier" "mina" "ghost" (Sample.week_starts - 7 * JsDate.msPerDay);
      Sample.assignment "ari" "hunter" 2 1 0 None None (Some Sample.week_starts);
      Sample.assignment "devon" "ghost" 0 0 1 None None (Some Sample.week_starts) ]
    Sample.joining.

(** ** The client: distances of the nearby list

    The client reads a clock and a random source of its own; they are the
    streams of the world it runs in.  A user of the state payload has a
    location or none; a location has both coordinates. *)
Module Client.

Record location := {
  lat : Q;
  lng : Q;
  lastUpdated : option Z
}.

Record user := {
  id : string;
  user_location : option location
}.

End Client.

Section ClientGeometry.
Context `{JsMath}.

Definition getDistanceFromLatLonInKm (lat1 lon1 lat2 lon2 : Q) : Q :=
  let deg2rad := fun deg : Q => (deg * (Math_PI / 180))%Q in
  let R := 6371%Q in
  let dLat := deg2rad (lat2 - lat1)%Q in
  let dLon := deg2rad (lon2 - lon1)%Q in
  let a :=
    (Math_sin (dLat / 2) * Math_sin (dLat / 2) +
     Math_cos (deg2rad lat1) * Math_cos (deg2rad lat2) *
       Math_sin (dLon / 2) * Math_sin (dLon / 2))%Q in
  let c := (2 * Math_atan2 (Math_sqrt a) (Math_sqrt (1 - a)))%Q in
  (R * c)%Q.

Definition fakeLocation (base : Client.location) : M Client.location :=
  r1 <- Math_random ;;
  r2 <- Math_random ;;
  now <- Date_now ;;
  ret {| Client.lat := (Client.lat base + (r1 - (1 # 2)) * (2 # 100))%Q;
         Client.lng := (Client.lng base + (r2 - (1 # 2)) * (2 # 100))%Q;
         Client.lastUpdated := Some now |}.

Definition default_base : Client.location :=
  {| Client.lat := 407128 # 10000; Client.lng := - (74006 # 1000);
     Client.lastUpdated := None |}.

(** [simulateDistance] assigns [target.location] when the target has none:
    the target is returned with the distance. *)
Definition simulateDistance (current : option Client.user) (target : Client.user)
  : M (Q * Client.user) :=
  let base := default default_base (current ≫= Client.user_location) in
  targetLoc <-
    match Client.user_location target with
    | Some l => ret l
    | None => fakeLocation base
    end ;;
  let target' :=
    match Client.user_location target with
    | Some _ => target
    | None => {| Client.id := Client.id target; Client.user_location := Some targetLoc |}
    end in
  ret (getDistanceFromLatLonInKm (Client.lat base) (Client.lng base)
         (Client.lat targetLoc) (Client.lng targetLoc),
       target').

End ClientGeometry.

(** * Properties *)

Module JsDateFacts.
Import JsDate.

Ltac unfold_time :=
  unfold setUTCMilliseconds, setUTCSeconds, setUTCMinutes, setUTCHours,
    MakeDate, MakeTime, HourFromTime, MinFromTime, SecFromTime, msFromTime,
    WeekDay, Day, TimeWithinDay, msPerDay, msPerHour, msPerMinute, msPerSecond in *.

Lemma clear_time_of_day (t h : Z) :
  setUTCHours (setUTCMinutes (setUTCSeconds (setUTCMilliseconds t 0) 0) 0) h
  = Day t * msPerDay + h * msPerHour.
Proof.
  unfold_time. Z.div_mod_to_equations. lia.
Qed.

Lemma MonthFromTime_range t : 0 <= MonthFromTime t <= 11.
Proof.
  unfold MonthFromTime.
  repeat match goal with |- context [if ?b then _ else _] => destruct b end; lia.
Qed.

Lemma Day_MakeDate d tm : 0 <= tm < msPerDay -> Day (MakeDate d tm) = d.
Proof. unfold Day, MakeDate, msPerDay. intros. Z.div_mod_to_equations. lia. Qed.

Lemma setUTCDate_relative t t' k :
  Day t' = Day t ->
  setUTCDate t (getUTCDate t' - k) = (Day t - k) * msPerDay + TimeWithinDay t.
Proof.
  intros Hd. unfold setUTCDate, getUTCDate, MakeDate. f_equal.
  unfold MakeDay.
  pose proof (MonthFromTime_range t) as Hm.
  replace (MonthFromTime t / 12) with 0 by (Z.div_mod_to_equations; lia).
  replace (MonthFromTime t mod 12) with (MonthFromTime t) by (Z.div_mod_to_equations; lia).
  rewrite Z.add_0_r.
  assert (Hy : YearFromTime t' = YearFromTime t) by (unfold YearFromTime; congruence).
  assert (Hw : DayWithinYear t' = DayWithinYear t) by (unfold DayWithinYear; rewrite Hy, Hd; reflexivity).
  assert (Hl : InLeapYear t' = InLeapYear t) by (unfold InLeapYear; rewrite Hy; reflexivity).
  assert (Hmm : MonthFromTime t' = MonthFromTime t) by (unfold MonthFromTime; rewrite Hw, Hl; reflexivity).
  unfold DateFromTime. rewrite Hw, Hl, Hmm.
  unfold InLeapYear, DayWithinYear. lia.
Qed.

Lemma TimeWithinDay_MakeDate d tm : 0 <= tm < msPerDay -> TimeWithinDay (MakeDate d tm) = tm.
Proof. unfold TimeWithinDay, MakeDate, msPerDay. intros. Z.div_mod_to_equations. lia. Qed.

Lemma getContestWindow_eq t :
  getContestWindow t = {| startsAt := week_start t; endsAt := week_start t + 7 * msPerDay |}.
Proof.
  unfold getContestWindow, week_start.
  rewrite clear_time_of_day.
  set (s := Day t * msPerDay + CONTEST_START_HOUR_UTC * msPerHour).
  assert (Hs : Day s = Day t).
  { apply (Day_MakeDate (Day t)). unfold CONTEST_START_HOUR_UTC, msPerDay, msPerHour. lia. }
  assert (Hts : TimeWithinDay s = 20 * msPerHour).
  { apply (TimeWithinDay_MakeDate (Day t)). unfold CONTEST_START_HOUR_UTC, msPerDay, msPerHour. lia. }
  rewrite (setUTCDate_relative s t) by congruence.
  rewrite Hs, Hts.
  replace ((getUTCDay t - CONTEST_START_DAY_UTC + 7) mod 7) with (WeekDay t).
  2:{ unfold getUTCDay, CONTEST_START_DAY_UTC, WeekDay. Z.div_mod_to_equations. lia. }
  set (s1 := (Day t - WeekDay t) * msPerDay + 20 * msPerHour).
  assert (Hs1 : Day s1 = Day t - WeekDay t).
  { apply (Day_MakeDate (Day t - WeekDay t)). unfold msPerDay, msPerHour. lia. }
  assert (Hts1 : TimeWithinDay s1 = 20 * msPerHour).
  { apply (TimeWithinDay_MakeDate (Day t - WeekDay t)). unfold msPerDay, msPerHour. lia. }
  rewrite (setUTCDate_relative s1 s1 7) by reflexivity.
  rewrite Hs1, Hts1.
  destruct (s1 >? t); subst s1; f_equal; unfold CONTEST_DURATION_MS, msPerDay, msPerHour; lia.
Qed.

Lemma contest_start_iff s :
  contest_start s <-> exists k, s = (7 * k + 3) * msPerDay + 20 * msPerHour.
Proof.
  unfold contest_start, CONTEST_START_DAY_UTC, CONTEST_START_HOUR_UTC. unfold_time.
  split.
  - intros (Hw & Hh & Hm & Hs & Hms).
    exists ((s / 86400000 + 4) / 7 - 1). Z.div_mod_to_equations. lia.
  - intros [k ->]. Z.div_mod_to_equations. lia.
Qed.

Lemma week_start_spec t :
  contest_start (week_start t) /\ week_start t <= t < week_start t + 7 * msPerDay.
Proof.
  split.
  - apply contest_start_iff. unfold week_start.
    destruct (_ >? t).
    + exists ((Day t + 4) / 7 - 2). unfold_time. Z.div_mod_to_equations. lia.
    + exists ((Day t + 4) / 7 - 1). unfold_time. Z.div_mod_to_equations. lia.
  - unfold week_start.
    destruct (Z.gtb_spec ((Day t - WeekDay t) * msPerDay + 20 * msPerHour) t);
      unfold_time; Z.div_mod_to_equations; lia.
Qed.

Lemma contest_start_unique s s' t :
  contest_start s -> contest_start s' ->
  s <= t < s + 7 * msPerDay -> s' <= t -> s' <= s.
Proof.
  intros [k ->]%contest_start_iff [k' ->]%contest_start_iff.
  unfold msPerDay, msPerHour. lia.
Qed.

(** C6. For every instant [t], [getContestWindow t] starts at the most
    recent Sunday 20:00:00.000 UTC at or before [t] and ends seven days
    later.  In particular one second before a Sunday 20:00:00 UTC the
    window is the previous week's, and at a Sunday 20:00:00 UTC sharp the
    window starts at that instant.  The window depends on the instant
    alone. *)
Theorem getContestWindow_most_recent_sunday :
  (forall t,
     contest_start (startsAt (getContestWindow t)) /\
     startsAt (getContestWindow t) <= t /\
     (forall s, contest_start s -> s <= t -> s <= startsAt (getContestWindow t)) /\
     endsAt (getContestWindow t) = startsAt (getContestWindow t) + 7 * msPerDay) /\
  (forall s, contest_start s ->
     getContestWindow (s - 1000) = {| startsAt := s - 7 * msPerDay; endsAt := s |} /\
     getContestWindow s = {| startsAt := s; endsAt := s + 7 * msPerDay |}) /\
  (forall t1 t2, t1 = t2 -> getContestWindow t1 = getContestWindow t2).
Proof.
  split; [| split].
  - intros t. rewrite getContestWindow_eq. simpl.
    destruct (week_start_spec t) as [Hs Ht].
    split; [exact Hs | split; [lia | split; [| reflexivity]]].
    intros s Hs' Hle. eapply contest_start_unique; eauto.
  - intros s Hs.
    assert (Hprev : contest_start (s - 7 * msPerDay)).
    { apply contest_start_iff in Hs as [k ->]. apply contest_start_iff.
      exists (k - 1). unfold msPerDay, msPerHour. lia. }
    rewrite !getContestWindow_eq.
    destruct (week_start_spec (s - 1000)) as [H1 H1'].
    destruct (week_start_spec s) as [H2 H2'].
    assert (E1 : week_start (s - 1000) = s - 7 * msPerDay).
    { apply contest_start_iff in Hs as [k ->].
      apply contest_start_iff in H1 as [k1 E1]. rewrite E1 in *.
      unfold msPerDay, msPerHour in *. lia. }
    assert (E2 : week_start s = s).
    { apply contest_start_iff in Hs as [k ->].
      apply contest_start_iff in H2 as [k2 E2]. rewrite E2 in *.
      unfold msPerDay, msPerHour in *. lia. }
    rewrite E1, E2. split; f_equal; lia.
  - intros t1 t2 ->. reflexivity.
Qed.

(** The two instants of the specification's example, 2026-11-01 (a Sunday)
    at 19:59:59 and at 20:00:00 UTC. *)
Lemma getContestWindow_sunday_examples :
  getContestWindow 1793563199000
    = {| startsAt := 1792958400000; endsAt := 1793563200000 |} /\
  getContestWindow 1793563200000
    = {| startsAt := 1793563200000; endsAt := 1794168000000 |}.
Proof.
  apply (proj1 (proj2 getContestWindow_most_recent_sunday) 1793563200000).
  repeat split; reflexivity.
Defined.

End JsDateFacts.

Module ShuffleFacts.

Lemma unit_interval_range q : (0 <= unit_interval q)%Q /\ (unit_interval q < 1)%Q.
Proof.
  unfold unit_interval. pose proof (Qfloor_le q) as H1. pose proof (Qlt_floor q) as H2.
  rewrite inject_Z_plus in H2. change (inject_Z 1) with 1%Q in H2.
  split; lra.
Qed.

(** [Math.floor(Math.random() * n)] is an index below [n]. *)
Lemma random_index_range r (n : Z) :
  (0 <= r)%Q -> (r < 1)%Q -> 0 < n ->
  0 <= Math_floor (r * inject_Z n) < n.
Proof.
  intros H0 H1 Hn. unfold Math_floor. split.
  - rewrite <- (Qfloor_Z 0). apply Qfloor_resp_le.
    assert (Hn' : (0 <= inject_Z n)%Q) by (change 0%Q with (inject_Z 0); rewrite <- Zle_Qle; lia).
    change (inject_Z 0) with 0%Q. nra.
  - assert (Hlt : (r * inject_Z n < inject_Z n)%Q).
    { assert (Hn' : (0 < inject_Z n)%Q) by (change 0%Q with (inject_Z 0); rewrite <- Zlt_Qlt; lia).
      nra. }
    pose proof (Qfloor_le (r * inject_Z n)) as Hf.
    rewrite Zlt_Qlt. eapply Qle_lt_trans; eauto.
Qed.

Lemma swap_length {A} (copy : list A) i j : length (swap copy i j) = length copy.
Proof.
  unfold swap. destruct (copy !! j), (copy !! i); try done.
  by rewrite !length_insert.
Qed.

Lemma swap_Permutation {A} (copy : list A) i j : swap copy i j ≡ₚ copy.
Proof.
  unfold swap.
  destruct (copy !! j) as [cj|] eqn:Hj; [|done].
  destruct (copy !! i) as [ci|] eqn:Hi; [|done].
  apply Permutation_inj. split; [by rewrite !length_insert|].
  exists (fun k => if decide (k = i) then j else if decide (k = j) then i else k).
  split.
  - intros x y. repeat case_decide; congruence.
  - intros k.
    pose proof (lookup_lt_Some _ _ _ Hi). pose proof (lookup_lt_Some _ _ _ Hj).
    destruct (decide (k = j)) as [->|Hkj].
    + rewrite list_lookup_insert_eq by (by rewrite length_insert).
      case_decide; congruence.
    + rewrite list_lookup_insert_ne by done.
      destruct (decide (k = i)) as [->|Hki].
      * by rewrite list_lookup_insert_eq.
      * by rewrite list_lookup_insert_ne.
Qed.

Lemma shuffle_from_spec {A} i : forall (copy : list A) w,
  exists shuffled,
    shuffle_from i copy w = Returned shuffled (advance 0 i 0 w) /\
    shuffled ≡ₚ copy.
Proof.
  induction i as [|i IH]; intros copy w.
  - exists copy. split; [|done]. simpl. unfold ret, advance. by destruct w.
  - simpl. unfold bind at 1, Math_random at 1.
    match goal with |- context [shuffle_from i ?c ?w'] =>
      destruct (IH c w') as (sh & -> & Hp) end.
    exists sh. split.
    + unfold advance. simpl. do 2 f_equal. lia.
    + by rewrite Hp, swap_Permutation.
Qed.

Lemma shuffle_spec {A} (array : list A) w :
  exists shuffled,
    shuffle array w = Returned shuffled (advance 0 (length array - 1) 0 w) /\
    shuffled ≡ₚ array.
Proof. apply shuffle_from_spec. Qed.

(** The indices [shuffle] swaps are inside the array. *)
Lemma shuffle_indices_in_range (i len : nat) (r : Q) :
  (0 <= r)%Q -> (r < 1)%Q -> (0 < i <= len - 1)%nat ->
  (Z.to_nat (Math_floor (r * inject_Z (Z.of_nat i + 1))) <= i < len)%nat.
Proof.
  intros H0 H1 Hi.
  pose proof (random_index_range r (Z.of_nat i + 1) H0 H1 ltac:(lia)). lia.
Qed.

End ShuffleFacts.

Module WorldFacts.

Lemma with_db_id w : with_db (db w) w = w.
Proof. by destruct w. Qed.

Lemma set_contest_assignments_id d :
  set_contest_assignments (contest_assignments d) d = d.
Proof. by destruct d. Qed.

Lemma with_assignments_id w : with_assignments (contest_assignments (db w)) w = w.
Proof. unfold with_assignments. by rewrite set_contest_assignments_id, with_db_id. Qed.

Lemma with_assignments_twice l l' w :
  with_assignments l' (with_assignments l w) = with_assignments l' w.
Proof. reflexivity. Qed.

Lemma bind_Returned {A B} (m : M A) (k : A -> M B) w a w' :
  m w = Returned a w' -> bind m k w = k a w'.
Proof. unfold bind. by intros ->. Qed.

Lemma bind_Thrown {A B} (m : M A) (k : A -> M B) w e w' :
  m w = Thrown e w' -> bind m k w = Thrown e w'.
Proof. unfold bind. by intros ->. Qed.

Lemma insert_contest_assignment_fresh r d :
  assignment_key r ∉ assignment_keys d ->
  insert_contest_assignment r d
  = inl (set_contest_assignments (contest_assignments d ++ [r]) d).
Proof.
  intros Hk. unfold insert_contest_assignment.
  destruct (decide _) as [Hin|]; [|done]. by destruct Hk.
Qed.

Lemma run_insert_fresh r w :
  assignment_key r ∉ assignment_keys (db w) ->
  run (insert_contest_assignment r) w
  = Returned tt (with_assignments (contest_assignments (db w) ++ [r]) w).
Proof.
  intros Hk. unfold run. by rewrite insert_contest_assignment_fresh.
Qed.

Lemma for_of_insert c role now l : forall w,
  NoDup l ->
  (forall p, p ∈ l -> (c, p) ∉ assignment_keys (db w)) ->
  for_of l (fun p => run (insert_contest_assignment (new_assignment c p role now))) w
  = Returned tt
      (with_assignments
         (contest_assignments (db w) ++ ((fun p => new_assignment c p role now) <$> l)) w).
Proof.
  induction l as [|p l IH]; intros w Hnd Hfresh.
  - simpl. unfold ret. by rewrite app_nil_r, with_assignments_id.
  - apply NoDup_cons in Hnd as [Hp Hnd]. simpl.
    erewrite bind_Returned; last first.
    { apply run_insert_fresh. apply Hfresh. left. }
    rewrite IH; [|done|].
    + simpl. by rewrite <- app_assoc.
    + intros q Hq. unfold assignment_keys. simpl. rewrite fmap_app.
      intros [Hin|Hin]%elem_of_app.
      * eapply Hfresh; [right; exact Hq|exact Hin].
      * apply list_elem_of_singleton in Hin. injection Hin as ->. done.
Qed.

Lemma join_from_spec c now toAssign : forall hunterCount ghostCount w,
  NoDup toAssign ->
  (forall p, p ∈ toAssign -> (c, p) ∉ assignment_keys (db w)) ->
  exists added,
    join_from c now toAssign hunterCount ghostCount w
    = Returned tt (with_assignments (contest_assignments (db w) ++ added) w) /\
    ContestAssignments.user_id <$> added = toAssign /\
    Forall (fresh_assignment c now) added.
Proof.
  induction toAssign as [|p l IH]; intros hc gc w Hnd Hfresh.
  - exists []. simpl. unfold ret. rewrite app_nil_r, with_assignments_id. done.
  - apply NoDup_cons in Hnd as [Hp Hnd]. simpl.
    set (role := (if (hc <=? gc)%nat then "hunter" else "ghost")%string).
    assert (Hrole : (role = "hunter" \/ role = "ghost")%string).
    { unfold role. destruct (hc <=? gc)%nat; auto. }
    set (r := new_assignment c p role now).
    assert (Hnext : forall q, q ∈ l ->
      (c, q) ∉ assignment_keys (db (with_assignments (contest_assignments (db w) ++ [r]) w))).
    { intros q Hq. unfold assignment_keys. simpl. rewrite fmap_app.
      intros [Hin|Hin]%elem_of_app.
      - eapply Hfresh; [right; exact Hq|exact Hin].
      - apply list_elem_of_singleton in Hin. injection Hin as ->. done. }
    erewrite bind_Returned; last first.
    { apply run_insert_fresh. apply Hfresh. left. }
    destruct (decide (role = "hunter"%string)).
    + destruct (IH (hc + 1)%nat gc _ Hnd Hnext) as (added & -> & Hids & Hall).
      exists (r :: added).
      split; [simpl; by rewrite <- app_assoc|].
      split; [by rewrite fmap_cons, Hids|].
      constructor; [|done]. by exists role.
    + destruct (IH hc (gc + 1)%nat _ Hnd Hnext) as (added & -> & Hids & Hall).
      exists (r :: added).
      split; [simpl; by rewrite <- app_assoc|].
      split; [by rewrite fmap_cons, Hids|].
      constructor; [|done]. by exists role.
Qed.

End WorldFacts.

Module SyncFacts.
Import WorldFacts ShuffleFacts.

Lemma filter_all {A} (P : A -> Prop) `{!forall x, Decision (P x)} (l : list A) :
  (forall x, x ∈ l -> P x) -> filter P l = l.
Proof.
  induction l as [|x l IH]; intros HP; [done|].
  rewrite filter_cons_True by (apply HP; left).
  f_equal. apply IH. intros y Hy. apply HP. by right.
Qed.

Lemma participants_NoDup flag d :
  NoDup (user_ids d) -> NoDup (select_user_ids_where_bekandid flag d).
Proof.
  intros Hnd. unfold select_user_ids_where_bekandid.
  eapply sublist_NoDup; [exact Hnd|].
  apply fmap_sublist, sublist_filter.
Qed.

Lemma retraction_step c w :
  (if decide (select_user_ids_where_bekandid 1 (db w) = []) then ret tt
   else run (delete_contest_assignments c (select_user_ids_where_bekandid 1 (db w)))) w
  = Returned tt (with_assignments (retained c (db w)) w).
Proof.
  destruct (decide _) as [E|E].
  - unfold ret, retained. rewrite E. rewrite filter_all.
    + by rewrite with_assignments_id.
    + intros a _ [_ Hin]. by apply elem_of_nil in Hin.
  - reflexivity.
Qed.

Lemma retained_keys_NoDup c d :
  NoDup (assignment_keys d) -> NoDup (assignment_key <$> retained c d).
Proof.
  intros Hnd. eapply sublist_NoDup; [exact Hnd|].
  apply fmap_sublist, sublist_filter.
Qed.

Lemma fresh_in_empty_contest c (l : list ContestAssignments.row) p :
  in_contest c l = [] -> (c, p) ∉ (assignment_key <$> l).
Proof.
  intros He (a & Hk & Ha)%list_elem_of_fmap.
  assert (a ∈ in_contest c l) as Hin.
  { apply list_elem_of_filter. split; [|done]. by injection Hk. }
  rewrite He in Hin. by apply elem_of_nil in Hin.
Qed.

Lemma fresh_if_unassigned c (l : list ContestAssignments.row) p :
  p ∉ (ContestAssignments.user_id <$> in_contest c l) ->
  (c, p) ∉ (assignment_key <$> l).
Proof.
  intros Hp (a & Hk & Ha)%list_elem_of_fmap. apply Hp.
  injection Hk as Hc Hu. rewrite Hu.
  apply list_elem_of_fmap_2, list_elem_of_filter. done.
Qed.

Lemma new_assignment_user_ids c role now (l : list string) :
  ContestAssignments.user_id <$> ((fun p => new_assignment c p role now) <$> l) = l.
Proof. induction l as [|p l IH]; [done|]. rewrite !fmap_cons, IH. done. Qed.

Lemma syncContestAssignments_spec c w :
  NoDup (user_ids (db w)) ->
  exists added k,
    syncContestAssignments c w
    = Returned tt (with_assignments (retained c (db w) ++ added) (advance 1 k 0 w)) /\
    ContestAssignments.user_id <$> added
      ≡ₚ filter (fun p => p ∉ (ContestAssignments.user_id <$> in_contest c (retained c (db w))))
           (select_user_ids_where_bekandid 0 (db w)) /\
    Forall (fresh_assignment c (clock w (ticks w))) added /\
    (in_contest c (retained c (db w)) = [] ->
     exists shuffled,
       shuffled ≡ₚ select_user_ids_where_bekandid 0 (db w) /\
       added =
         ((fun p => new_assignment c p "hunter" (clock w (ticks w)))
            <$> take (midpoint_of (length shuffled)) shuffled) ++
         ((fun p => new_assignment c p "ghost" (clock w (ticks w)))
            <$> drop (midpoint_of (length shuffled)) shuffled)).
Proof.
  intros Hu.
  pose proof (participants_NoDup 0 _ Hu) as Hpart.
  unfold syncContestAssignments.
  unfold bind at 1, query at 1. unfold bind at 1, query at 1.
  erewrite bind_Returned by apply retraction_step.
  unfold bind at 1, query at 1.
  change (select_assignments c (db (with_assignments (retained c (db w)) w)))
    with (in_contest c (retained c (db w))).
  set (participants := select_user_ids_where_bekandid 0 (db w)) in *.
  set (kept := retained c (db w)).
  destruct (decide (in_contest c kept = [])) as [Hempty|Hne].
  - (* initial partition *)
    destruct (shuffle_spec participants (with_assignments kept w)) as (sh & Hsh & Hperm).
    erewrite bind_Returned by exact Hsh.
    unfold bind at 1, Date_now at 1.
    assert (Hnd : NoDup sh) by (by rewrite Hperm).
    set (mid := Z.to_nat (Math_ceil (inject_Z (Z.of_nat (length sh)) / 2))).
    rewrite <- (take_drop mid sh) in Hnd.
    apply NoDup_app in Hnd as (Hnd1 & Hdisj & Hnd2).
    erewrite bind_Returned; last first.
    { apply for_of_insert; [exact Hnd1|].
      intros p _. simpl. by apply fresh_in_empty_contest. }
    rewrite for_of_insert; [|exact Hnd2|]; last first.
    { intros p Hp. unfold assignment_keys. simpl. rewrite fmap_app.
      intros [Hin|Hin]%elem_of_app.
      - revert Hin. by apply fresh_in_empty_contest.
      - apply list_elem_of_fmap in Hin as (a & Hk & Ha).
        apply list_elem_of_fmap in Ha as (q & -> & Hq).
        injection Hk as ->. by apply (Hdisj q). }
    eexists _, (length participants - 1)%nat. split; [|split; [|split]].
    + simpl. rewrite <- app_assoc. unfold with_assignments, advance, with_db. simpl.
      reflexivity.
    + rewrite fmap_app, !new_assignment_user_ids, take_drop, Hperm.
      rewrite Hempty. rewrite filter_all; [done|]. intros p _. apply not_elem_of_nil.
    + apply Forall_app. split; apply Forall_fmap, Forall_forall; intros p _;
        eexists; (split; [|reflexivity]); auto.
    + intros _. exists sh. split; [done|]. reflexivity.
  - (* incremental join *)
    destruct (decide (in_contest c kept = [])) as [|_]; [done|].
    unfold bind at 1, Date_now at 1.
    match goal with |- context [join_from c ?now ?l ?hc ?gc ?w'] =>
      destruct (join_from_spec c now l hc gc w') as (added & Hj & Hids & Hall) end.
    { by apply NoDup_filter. }
    { intros p [Hp _]%list_elem_of_filter. simpl. by apply fresh_if_unassigned. }
    exists added, 0%nat. split; [|split; [|split]].
    + rewrite Hj. reflexivity.
    + by rewrite Hids.
    + exact Hall.
    + done.
Qed.

End SyncFacts.

Module SyncInvariant.
Import WorldFacts ShuffleFacts SyncFacts.

Lemma filter_none {A} (P : A -> Prop) `{!forall x, Decision (P x)} (l : list A) :
  (forall x, x ∈ l -> ~ P x) -> filter P l = [].
Proof.
  induction l as [|x l IH]; intros HP; [done|].
  rewrite filter_cons_False by (apply HP; left).
  apply IH. intros y Hy. apply HP. by right.
Qed.

Lemma key_count_one {A K} `{EqDecision K} (f : A -> K) (l : list A) k :
  NoDup (f <$> l) -> k ∈ f <$> l -> length (filter (fun a => f a = k) l) = 1%nat.
Proof.
  induction l as [|a l IH]; intros Hnd Hin.
  - by apply elem_of_nil in Hin.
  - rewrite fmap_cons in Hnd, Hin. apply NoDup_cons in Hnd as [Ha Hnd].
    destruct (decide (f a = k)) as [<-|Hne].
    + rewrite filter_cons_True by done. simpl. f_equal.
      rewrite filter_none; [done|].
      intros b Hb Hfb. apply Ha. rewrite <- Hfb.
      by apply list_elem_of_fmap_2.
    + rewrite filter_cons_False by done. apply IH; [done|].
      apply elem_of_cons in Hin as [Heq|Hin]; [congruence|done].
Qed.

Lemma key_absent {A K} `{EqDecision K} (f : A -> K) (l : list A) k :
  k ∉ f <$> l -> filter (fun a => f a = k) l = [].
Proof.
  intros Hk. apply filter_none. intros a Ha Hfa.
  apply Hk. rewrite <- Hfa. by apply list_elem_of_fmap_2.
Qed.

Lemma user_of_id d u u' :
  NoDup (user_ids d) -> u ∈ users d -> u' ∈ users d -> Users.id u = Users.id u' -> u = u'.
Proof.
  unfold user_ids. intros Hnd Hu Hu' Hid.
  apply list_elem_of_lookup in Hu as [i Hi]. apply list_elem_of_lookup in Hu' as [j Hj].
  assert (i = j) as ->.
  { eapply NoDup_lookup; [exact Hnd| |].
    - rewrite list_lookup_fmap, Hi. reflexivity.
    - rewrite list_lookup_fmap, Hj. simpl. by rewrite Hid. }
  congruence.
Qed.

Lemma eligible_not_opted_out d p :
  NoDup (user_ids d) ->
  p ∈ select_user_ids_where_bekandid 0 d -> p ∉ select_user_ids_where_bekandid 1 d.
Proof.
  intros Hnd (u & -> & Hu)%list_elem_of_fmap (u' & Hid & Hu')%list_elem_of_fmap.
  apply list_elem_of_filter in Hu as [H0 Hu]. apply list_elem_of_filter in Hu' as [H1 Hu'].
  assert (u = u') as <- by eauto using user_of_id. lia.
Qed.

(** What the rows are after a sync, in terms of keys. *)
Lemma sync_keys c w :
  NoDup (user_ids (db w)) ->
  exists w',
    syncContestAssignments c w = Returned tt w' /\
    users (db w') = users (db w) /\
    (NoDup (assignment_keys (db w)) -> NoDup (assignment_keys (db w'))) /\
    (forall p, p ∈ select_user_ids_where_bekandid 0 (db w) ->
               (c, p) ∈ assignment_keys (db w')) /\
    (forall p, p ∈ select_user_ids_where_bekandid 1 (db w) ->
               (c, p) ∉ assignment_keys (db w')).
Proof.
  intros Hu.
  destruct (syncContestAssignments_spec c w Hu) as (added & k & Hrun & Hids & Hfresh & _).
  eexists. split; [exact Hrun|]. split; [reflexivity|].
  unfold assignment_keys. simpl. rewrite fmap_app.
  assert (Hadded : forall a, a ∈ added ->
            assignment_key a = (c, ContestAssignments.user_id a) /\
            ContestAssignments.user_id a ∈ select_user_ids_where_bekandid 0 (db w) /\
            ContestAssignments.user_id a
              ∉ ContestAssignments.user_id <$> in_contest c (retained c (db w))).
  { intros a Ha. rewrite Forall_forall in Hfresh.
    destruct (Hfresh a Ha) as (role & _ & Ea).
    split; [by rewrite Ea|].
    assert (ContestAssignments.user_id a ∈ ContestAssignments.user_id <$> added) as Hin
      by (by apply list_elem_of_fmap_2).
    rewrite Hids in Hin. apply list_elem_of_filter in Hin. tauto. }
  split; [|split].
  - intros Hnd. apply NoDup_app. split; [by apply retained_keys_NoDup|]. split.
    + intros key Hkept (a & -> & Ha)%list_elem_of_fmap.
      destruct (Hadded a Ha) as (Ek & _ & Hun). rewrite Ek in Hkept.
      revert Hkept. by apply fresh_if_unassigned.
    + assert (assignment_key <$> added
              = pair c <$> (ContestAssignments.user_id <$> added)) as ->.
      { rewrite <- list_fmap_compose. apply Forall_fmap_ext_1, Forall_forall.
        intros a Ha. by destruct (Hadded a Ha) as (-> & _). }
      apply NoDup_fmap_2; [intros x y; congruence|].
      rewrite Hids. apply NoDup_filter. by apply participants_NoDup.
  - intros p Hp.
    destruct (decide (p ∈ ContestAssignments.user_id <$> in_contest c (retained c (db w))))
      as [Hin|Hnin].
    + apply elem_of_app. left.
      apply list_elem_of_fmap in Hin as (a & -> & Ha).
      apply list_elem_of_filter in Ha as [Hc Ha].
      apply list_elem_of_fmap. exists a. split; [|done].
      unfold assignment_key. by rewrite Hc.
    + apply elem_of_app. right.
      assert (p ∈ ContestAssignments.user_id <$> added) as Hin.
      { rewrite Hids. apply list_elem_of_filter. done. }
      apply list_elem_of_fmap in Hin as (a & -> & Ha).
      apply list_elem_of_fmap. exists a. split; [|done].
      by destruct (Hadded a Ha) as (-> & _).
  - intros p Hp [Hin|Hin]%elem_of_app.
    + apply list_elem_of_fmap in Hin as (a & Hk & Ha).
      apply list_elem_of_filter in Ha as [Hkeep _]. apply Hkeep.
      injection Hk as -> ->. done.
    + apply list_elem_of_fmap in Hin as (a & Hk & Ha).
      destruct (Hadded a Ha) as (Ek & Hel & _). rewrite Ek in Hk. injection Hk as ->.
      by apply (eligible_not_opted_out (db w) (ContestAssignments.user_id a)).
Qed.

End SyncInvariant.

Module SyncTheorems.
Import WorldFacts ShuffleFacts SyncFacts SyncInvariant.


Lemma sync_stable c w :
  NoDup (user_ids (db w)) ->
  (forall p, p ∈ select_user_ids_where_bekandid 0 (db w) -> (c, p) ∈ assignment_keys (db w)) ->
  (forall p, p ∈ select_user_ids_where_bekandid 1 (db w) -> (c, p) ∉ assignment_keys (db w)) ->
  exists w', syncContestAssignments c w = Returned tt w' /\ db w' = db w.
Proof.
  intros Hu Hin Hout.
  destruct (syncContestAssignments_spec c w Hu) as (added & k & Hrun & Hids & _).
  assert (Hkept : retained c (db w) = contest_assignments (db w)).
  { apply filter_all. intros a Ha [Hc Hb]. apply (Hout _ Hb).
    apply list_elem_of_fmap. exists a. split; [|done]. unfold assignment_key. by rewrite Hc. }
  rewrite Hkept in *.
  rewrite filter_none in Hids; last first.
  { intros p Hp Hun. apply Hun. apply Hin in Hp.
    apply list_elem_of_fmap in Hp as (a & Hk & Ha). injection Hk as Hc ->.
    apply list_elem_of_fmap_2, list_elem_of_filter. done. }
  apply Permutation_nil_r, fmap_nil_inv in Hids. subst added.
  eexists. split; [exact Hrun|]. simpl. rewrite app_nil_r.
  apply set_contest_assignments_id.
Qed.


Lemma midpoint_of_half n : midpoint_of n = ((n + 1) / 2)%nat.
Proof.
  unfold midpoint_of, Math_ceil, Qceiling.
  assert (E : (- (inject_Z (Z.of_nat n) / 2) == inject_Z (- Z.of_nat n) / inject_Z 2)%Q).
  { rewrite inject_Z_opp. change (inject_Z 2) with 2%Q. field. }
  rewrite (Qfloor_comp _ _ E), <- Zdiv_Qdiv.
  apply Nat2Z.inj. rewrite Nat2Z.inj_div, Nat2Z.inj_add.
  rewrite Z2Nat.id by (Z.div_mod_to_equations; lia).
  change (Z.of_nat 1) with 1. change (Z.of_nat 2) with 2.
  Z.div_mod_to_equations. lia.
Qed.

Lemma filter_role_same c now role (l : list string) :
  filter (fun a => ContestAssignments.role a = role)
    ((fun p => new_assignment c p role now) <$> l)
  = (fun p => new_assignment c p role now) <$> l.
Proof. apply filter_all. intros a (p & -> & _)%list_elem_of_fmap. done. Qed.

Lemma filter_role_other c now role role' (l : list string) :
  role <> role' ->
  filter (fun a => ContestAssignments.role a = role')
    ((fun p => new_assignment c p role now) <$> l) = [].
Proof. intros Hne. apply filter_none. intros a (p & -> & _)%list_elem_of_fmap. done. Qed.


End SyncTheorems.

Module Hoare.

Lemma preserves_ret {A} I (a : A) : preserves I (ret a).
Proof. intros w Hw. exact Hw. Qed.

Lemma preserves_throw {A} I e : preserves I (@throw A e).
Proof. intros w Hw. exact Hw. Qed.

Lemma preserves_query {A} I (f : database -> A) : preserves I (query f).
Proof. intros w Hw. exact Hw. Qed.

Lemma preserves_bind {A B} I (m : M A) (k : A -> M B) :
  preserves I m -> (forall a, preserves I (k a)) -> preserves I (bind m k).
Proof.
  intros Hm Hk w Hw. unfold bind. specialize (Hm w Hw).
  destruct (m w) as [a w'|e w']; simpl in *; [by apply Hk|done].
Qed.

Lemma preserves_try_catch {A} I (m : M A) (h : js_error -> M A) :
  preserves I m -> (forall e, preserves I (h e)) -> preserves I (try_catch m h).
Proof.
  intros Hm Hh w Hw. unfold try_catch. specialize (Hm w Hw).
  destruct (m w) as [a w'|e w']; simpl in *; [done|by apply Hh].
Qed.

Lemma preserves_for_of {A} I (l : list A) (body : A -> M unit) :
  (forall x, preserves I (body x)) -> preserves I (for_of l body).
Proof.
  intros Hb. induction l as [|x l IH]; simpl.
  - apply preserves_ret.
  - apply preserves_bind; [apply Hb|]. intros _. exact IH.
Qed.

Lemma preserves_if {A} I (b : bool) (m1 m2 : M A) :
  preserves I m1 -> preserves I m2 -> preserves I (if b then m1 else m2).
Proof. by destruct b. Qed.

Lemma preserves_decide {A} I P `{Decision P} (m1 m2 : M A) :
  preserves I m1 -> preserves I m2 -> preserves I (if decide P then m1 else m2).
Proof. by destruct (decide P). Qed.

Lemma preserves_run I f :
  (forall w d, I w -> f (db w) = inl d -> I (with_db d w)) -> preserves I (run f).
Proof.
  intros Hf w Hw. unfold run. destruct (f (db w)) as [d|e] eqn:E; simpl; [|done].
  by apply Hf.
Qed.

Section Stable.
Context (I : world -> Prop) (HI : engine_stable I).

Lemma preserves_Date_now : preserves I Date_now.
Proof. intros w Hw. apply (stable_advance I HI 1 0 0 w Hw). Qed.

Lemma preserves_Math_random : preserves I Math_random.
Proof. intros w Hw. apply (stable_advance I HI 0 1 0 w Hw). Qed.

Lemma preserves_createId : preserves I createId.
Proof. intros w Hw. apply (stable_advance I HI 0 0 1 w Hw). Qed.

Lemma preserves_insert_contest_assignment r :
  preserves I (run (insert_contest_assignment r)).
Proof.
  apply preserves_run. intros w d Hw. unfold insert_contest_assignment.
  destruct (decide _); [done|]. intros [= <-]. by apply (stable_assignments I HI).
Qed.

Lemma preserves_update_contest_assignment c u f :
  preserves I (run (update_contest_assignment c u f)).
Proof.
  apply preserves_run. intros w d Hw [= <-]. by apply (stable_assignments I HI).
Qed.

Lemma preserves_delete_contest_assignments c ids :
  preserves I (run (delete_contest_assignments c ids)).
Proof.
  apply preserves_run. intros w d Hw [= <-]. by apply (stable_assignments I HI).
Qed.

Lemma preserves_insert_contest_week r : preserves I (run (insert_contest_week r)).
Proof.
  apply preserves_run. intros w d Hw. unfold insert_contest_week.
  destruct (decide _); [done|]. intros [= <-]. by apply (stable_weeks I HI).
Qed.

Lemma preserves_shuffle_from {A} i : forall copy : list A, preserves I (shuffle_from i copy).
Proof.
  induction i as [|i IH]; intros copy; simpl.
  - apply preserves_ret.
  - apply preserves_bind; [apply preserves_Math_random|]. intros r. apply IH.
Qed.

Lemma preserves_join_from c now toAssign : forall hc gc,
  preserves I (join_from c now toAssign hc gc).
Proof.
  induction toAssign as [|p l IH]; intros hc gc; simpl.
  - apply preserves_ret.
  - apply preserves_bind; [apply preserves_insert_contest_assignment|]. intros _.
    destruct (decide _); apply IH.
Qed.

Lemma preserves_syncContestAssignments c : preserves I (syncContestAssignments c).
Proof.
  unfold syncContestAssignments.
  apply preserves_bind; [apply preserves_query|]. intros participants.
  apply preserves_bind; [apply preserves_query|]. intros bekandid.
  apply preserves_bind.
  { apply preserves_decide; [apply preserves_ret|apply preserves_delete_contest_assignments]. }
  intros _. apply preserves_bind; [apply preserves_query|]. intros existing.
  apply preserves_decide.
  - apply preserves_bind; [apply preserves_shuffle_from|]. intros shuffled.
    apply preserves_bind; [apply preserves_Date_now|]. intros now.
    apply preserves_bind; apply preserves_for_of || intros _.
    + intros p. apply preserves_insert_contest_assignment.
    + apply preserves_for_of. intros p. apply preserves_insert_contest_assignment.
  - apply preserves_bind; [apply preserves_Date_now|]. intros now.
    apply preserves_join_from.
Qed.

Lemma preserves_ensureActiveContest : preserves I ensureActiveContest.
Proof.
  unfold ensureActiveContest.
  apply preserves_bind; [apply preserves_Date_now|]. intros now.
  apply preserves_bind; [apply preserves_query|]. intros found.
  apply preserves_bind.
  { destruct found; [apply preserves_ret|].
    apply preserves_bind; [apply preserves_createId|]. intros id.
    apply preserves_bind; [apply preserves_Math_random|]. intros r.
    apply preserves_bind; [apply preserves_insert_contest_week|]. intros _.
    apply preserves_ret. }
  intros contest.
  apply preserves_bind; [apply preserves_syncContestAssignments|]. intros _.
  apply preserves_ret.
Qed.

Lemma preserves_buildState : preserves I buildState.
Proof.
  unfold buildState. apply preserves_bind; [apply preserves_ensureActiveContest|].
  intros _. apply preserves_ret.
Qed.

End Stable.

End Hoare.

Module CaptureFacts.
Import WorldFacts Hoare.

Lemma Date_now_eq w : Date_now w = Returned (clock w (ticks w)) (advance 1 0 0 w).
Proof. reflexivity. Qed.

Lemma createId_eq w : createId w = Returned (uuids w (minted w)) (advance 0 0 1 w).
Proof. reflexivity. Qed.

Lemma query_eq {A} (f : database -> A) w : query f w = Returned (f (db w)) w.
Proof. reflexivity. Qed.

Lemma run_inl f w d : f (db w) = inl d -> run f w = Returned tt (with_db d w).
Proof. unfold run. by intros ->. Qed.

Lemma createInboxEntry_eq recipientId senderId postId type message createdAt w :
  recipientId ∈ user_ids (db w) /\ senderId ∈ user_ids (db w)
    /\ refers_to postId (post_ids (db w)) ->
  createInboxEntry recipientId senderId postId type message createdAt w
  = Returned tt
      (advance 0 0 1
         (with_db
            (set_inbox_messages
               (inbox_messages (db w) ++
                [ {| InboxMessages.id := uuids w (minted w);
                     InboxMessages.recipient_id := recipientId;
                     InboxMessages.post_id := postId;
                     InboxMessages.sender_id := senderId;
                     InboxMessages.created_at := createdAt;
                     InboxMessages.read := 0;
                     InboxMessages.type := type;
                     InboxMessages.message := message |} ])
               (db w)) w)).
Proof.
  intros Hfk. unfold createInboxEntry, bind, createId, run, insert_inbox_message.
  simpl. rewrite decide_True by exact Hfk. reflexivity.
Qed.

Ltac step :=
  erewrite WorldFacts.bind_Returned
    by first [apply Date_now_eq | apply createId_eq | apply query_eq];
  cbv beta.

Lemma outside_contest_stable x :
  engine_stable (fun w => outside_contest (db w) = x).
Proof. split; intros; assumption. Qed.

Lemma ensureActiveContest_frame w :
  outside_contest (db (final_world (ensureActiveContest w))) = outside_contest (db w).
Proof.
  apply (preserves_ensureActiveContest _ (outside_contest_stable (outside_contest (db w)))).
  reflexivity.
Qed.

Lemma ensureActiveContest_frame_Returned w contest w1 :
  ensureActiveContest w = Returned contest w1 ->
  users (db w1) = users (db w) /\ posts (db w1) = posts (db w) /\
  inbox_messages (db w1) = inbox_messages (db w) /\
  contest_captures (db w1) = contest_captures (db w).
Proof.
  intros E. pose proof (ensureActiveContest_frame w) as F. rewrite E in F. simpl in F.
  unfold outside_contest in F. by injection F.
Qed.

(** C2, as the code has it. When the claimed challenge differs from the
    challenge of the active week, [handleContestCapture] throws the
    challenge-mismatch error in the very world that [ensureActiveContest]
    returned: it writes no capture, no notification, no post and changes no
    user. The route [POST /api/posts] answers 400 with the error's message,
    but the post row and the inbox drop that it inserted before validating
    the capture remain. *)
Theorem challenge_mismatch_rejected :
  (forall (hunterId ghostId postId challenge : string) (w w1 : world) contest,
     ensureActiveContest w = Returned contest w1 ->
     ContestWeeks.challenge contest <> challenge ->
     handleContestCapture hunterId ghostId postId challenge w
       = Thrown challenge_mismatch w1 /\
     users (db w1) = users (db w) /\ posts (db w1) = posts (db w) /\
     inbox_messages (db w1) = inbox_messages (db w) /\
     contest_captures (db w1) = contest_captures (db w)) /\
  (forall (userId : string) (body : post_request) (w w1 : world) contest,
     recipientId body <> ""%string -> image body <> ""%string ->
     contestCapture body = true ->
     userId ∈ user_ids (db w) -> recipientId body ∈ user_ids (db w) ->
     ensureActiveContest (after_post userId body w) = Returned contest w1 ->
     ContestWeeks.challenge contest <> default ""%string (contestChallenge body) ->
     post_api_posts userId body w
       = Returned (failed 400 "This capture does not match the weekly contest challenge.") w1 /\
     posts (db w1) = posts (db w) ++ [posted_row userId body w] /\
     inbox_messages (db w1) = inbox_messages (db w) ++ [dropped_row userId body w] /\
     users (db w1) = users (db w) /\
     contest_captures (db w1) = contest_captures (db w)).
Proof.
  assert (Hhandler : forall hunterId ghostId postId challenge w w1 contest,
     ensureActiveContest w = Returned contest w1 ->
     ContestWeeks.challenge contest <> challenge ->
     handleContestCapture hunterId ghostId postId challenge w = Thrown challenge_mismatch w1).
  { intros h g p ch w w1 contest E Hne. unfold handleContestCapture.
    erewrite WorldFacts.bind_Returned by exact E.
    destruct (decide _); [reflexivity|]. by destruct n. }
  split.
  - intros h g p ch w w1 contest E Hne. split; [by eapply Hhandler|].
    by eapply ensureActiveContest_frame_Returned.
  - intros userId body w w1 contest Hr Hi Hc Hu Hrec E Hne.
    destruct (ensureActiveContest_frame_Returned _ _ _ E) as (F1 & F2 & F3 & F4).
    split; [|by rewrite F1, F2, F3, F4].
    unfold post_api_posts, try_catch.
    destruct (decide _) as [[?|?]|_]; [done|done|].
    step. step.
    erewrite bind_Returned; last first.
    { apply run_inl. unfold insert_post. apply decide_True. simpl. done. }
    step.
    erewrite bind_Returned; last first.
    { apply createInboxEntry_eq. simpl. repeat split; try done.
      unfold post_ids. simpl. rewrite fmap_app. apply elem_of_app. right. left. }
    rewrite Hc.
    erewrite bind_Thrown; last first.
    { eapply Hhandler; [|exact Hne]. exact E. }
    reflexivity.
Qed.


End CaptureFacts.

Module LocationFacts.
Import WorldFacts Hoare CaptureFacts.

Lemma find_after_update c u f (l : list ContestAssignments.row) :
  (forall a, assignment_key (f a) = assignment_key a) ->
  head (filter (fun a => assignment_key a = (c, u))
          ((fun a => if decide (assignment_key a = (c, u)) then f a else a) <$> l))
  = f <$> head (filter (fun a => assignment_key a = (c, u)) l).
Proof.
  intros Hf. induction l as [|a l IH]; [done|].
  rewrite fmap_cons. destruct (decide (assignment_key a = (c, u))) as [Ha|Ha].
  - rewrite !filter_cons_True; [done|done|by rewrite Hf].
  - rewrite !filter_cons_False by done. exact IH.
Qed.

Lemma find_after_update_other c u u' f (l : list ContestAssignments.row) :
  (forall a, assignment_key (f a) = assignment_key a) ->
  u' <> u ->
  head (filter (fun a => assignment_key a = (c, u'))
          ((fun a => if decide (assignment_key a = (c, u)) then f a else a) <$> l))
  = head (filter (fun a => assignment_key a = (c, u')) l).
Proof.
  intros Hf Hne. induction l as [|a l IH]; [done|].
  rewrite fmap_cons. destruct (decide (assignment_key a = (c, u'))) as [Ha|Ha].
  - rewrite decide_False by (rewrite Ha; congruence).
    by rewrite !filter_cons_True.
  - rewrite !filter_cons_False; [exact IH|done|].
    destruct (decide _); [by rewrite Hf|done].
Qed.

Ltac project_db :=
  cbn [db with_db with_assignments advance set_inbox_messages set_contest_assignments
       set_users set_posts set_contest_weeks set_contest_captures
       users posts inbox_messages contest_weeks contest_assignments contest_captures].

Section Ghost.
Context `{JsMath}.

(** What a location update does for a ghost, in every case. *)
Lemma ghost_update_spec userId lat lng w contest w1 a :
  ensureActiveContest w = Returned contest w1 ->
  get_assignment (ContestWeeks.id contest) userId (db w1) = Some a ->
  ContestAssignments.role a = "ghost"%string ->
  let now := clock w1 (ticks w1) in
  let moved :=
    js_gt (distanceKm (ContestAssignments.last_location_lat a)
             (ContestAssignments.last_location_lng a) (Some lat) (Some lng))
          CONTEST_CAMPING_DISTANCE_KM in
  let stale :=
    now - or_now (ContestAssignments.last_move_at a) now >? CONTEST_CAMPING_THRESHOLD_MS in
  moved = true \/ userId ∈ user_ids (db w1) ->
  exists w',
    handleContestLocationUpdate userId lat lng w = Returned tt w' /\
    get_assignment (ContestWeeks.id contest) userId (db w')
    = Some (if moved then set_moved now (set_location lat lng now a)
            else if stale then set_camping (set_location lat lng now a)
            else set_location lat lng now a) /\
    inbox_messages (db w')
    = inbox_messages (db w1) ++
      (if moved then [] else if stale then [warning_row userId now w1] else []).
Proof.
  intros E Ha Hrole now moved stale Hu.
  unfold handleContestLocationUpdate.
  erewrite bind_Returned by exact E. cbv beta.
  step. rewrite Ha. step.
  erewrite bind_Returned by (by apply run_inl). cbv beta.
  rewrite decide_True by exact Hrole.
  fold now. fold moved. fold stale.
  destruct moved.
  2: destruct Hu as [?|Hu]; [done|].
  - eexists. split; [by apply run_inl|]. split.
    + unfold get_assignment in *. project_db.
      rewrite !find_after_update by done. by rewrite Ha.
    + simpl. by rewrite app_nil_r.
  - destruct stale.
    + erewrite bind_Returned by (by apply run_inl). cbv beta.
      rewrite createInboxEntry_eq by (simpl; done).
      eexists. split; [reflexivity|]. split.
      * unfold get_assignment in *. project_db.
        rewrite !find_after_update by done. by rewrite Ha.
      * reflexivity.
    + eexists. split; [reflexivity|]. split.
      * unfold get_assignment in *. project_db.
        rewrite !find_after_update by done. by rewrite Ha.
      * simpl. by rewrite app_nil_r.
Qed.


(** C3, as the code has it. A location update of a ghost returns, and
    appends a camping warning exactly when the move is of at most 0.1 km and
    more than six hours have passed since [last_move_at]; in that case it
    sets [camping_violation], and it does so whatever the flag was before.
    In every other case the inbox is left as it was. *)
Theorem camping_warning_on_each_stationary_update
    (userId : string) (lat lng : Q) (w w1 : world)
    (contest : ContestWeeks.row) (a : ContestAssignments.row) :
  ensureActiveContest w = Returned contest w1 ->
  get_assignment (ContestWeeks.id contest) userId (db w1) = Some a ->
  ContestAssignments.role a = "ghost"%string ->
  userId ∈ user_ids (db w1) ->
  exists w' a',
    handleContestLocationUpdate userId lat lng w = Returned tt w' /\
    get_assignment (ContestWeeks.id contest) userId (db w') = Some a' /\
    ((js_gt (distanceKm (ContestAssignments.last_location_lat a)
               (ContestAssignments.last_location_lng a) (Some lat) (Some lng))
            CONTEST_CAMPING_DISTANCE_KM = false /\
      clock w1 (ticks w1)
        - or_now (ContestAssignments.last_move_at a) (clock w1 (ticks w1))
        > CONTEST_CAMPING_THRESHOLD_MS) ->
     inbox_messages (db w')
       = inbox_messages (db w1) ++ [warning_row userId (clock w1 (ticks w1)) w1] /\
     ContestAssignments.camping_violation a' = 1) /\
    (~ (js_gt (distanceKm (ContestAssignments.last_location_lat a)
                (ContestAssignments.last_location_lng a) (Some lat) (Some lng))
             CONTEST_CAMPING_DISTANCE_KM = false /\
        clock w1 (ticks w1)
          - or_now (ContestAssignments.last_move_at a) (clock w1 (ticks w1))
          > CONTEST_CAMPING_THRESHOLD_MS) ->
     inbox_messages (db w') = inbox_messages (db w1)).
Proof.
  intros E Ha Hrole Hu.
  destruct (ghost_update_spec userId lat lng w contest w1 a E Ha Hrole (or_intror Hu))
    as (w' & Hrun & Hget & Hinbox).
  eexists w', _. split; [exact Hrun|]. split; [exact Hget|].
  destruct (js_gt _ _).
  - split; [intros [? _]; done|]. intros _. by rewrite Hinbox, app_nil_r.
  - destruct (Z.gtb_spec (clock w1 (ticks w1)
      - or_now (ContestAssignments.last_move_at a) (clock w1 (ticks w1)))
      CONTEST_CAMPING_THRESHOLD_MS) as [Hgt|Hle].
    + split; [done|]. intros Hn. destruct Hn. split; [done|lia].
    + split; [intros [_ ?]; lia|]. intros _. by rewrite Hinbox, app_nil_r.
Qed.

(** C4, as the code has it. When a ghost's assignment has no stored
    latitude or no stored longitude, the distance to the reported position
    is [Infinity], which is not within the proximity threshold but does
    exceed the camping distance: the update takes the movement branch,
    clears [camping_violation], sets [last_move_at] to the current instant,
    stores the reported position and sends no warning. *)
Theorem unknown_previous_location_counts_as_movement
    (userId : string) (lat lng : Q) (w w1 : world)
    (contest : ContestWeeks.row) (a : ContestAssignments.row) :
  ensureActiveContest w = Returned contest w1 ->
  get_assignment (ContestWeeks.id contest) userId (db w1) = Some a ->
  ContestAssignments.role a = "ghost"%string ->
  ContestAssignments.last_location_lat a = None
    \/ ContestAssignments.last_location_lng a = None ->
  distanceKm (ContestAssignments.last_location_lat a)
    (ContestAssignments.last_location_lng a) (Some lat) (Some lng) = Infinity /\
  js_le Infinity CONTEST_PROXIMITY_KM = false /\
  js_gt Infinity CONTEST_CAMPING_DISTANCE_KM = true /\
  exists w' a',
    handleContestLocationUpdate userId lat lng w = Returned tt w' /\
    get_assignment (ContestWeeks.id contest) userId (db w') = Some a' /\
    ContestAssignments.camping_violation a' = 0 /\
    ContestAssignments.last_move_at a' = Some (clock w1 (ticks w1)) /\
    ContestAssignments.last_location_lat a' = Some lat /\
    ContestAssignments.last_location_lng a' = Some lng /\
    inbox_messages (db w') = inbox_messages (db w1).
Proof.
  intros E Ha Hrole Hnull.
  assert (Hd : distanceKm (ContestAssignments.last_location_lat a)
                 (ContestAssignments.last_location_lng a) (Some lat) (Some lng) = Infinity).
  { unfold distanceKm. destruct Hnull as [-> | ->]; [done|].
    by destruct (ContestAssignments.last_location_lat a). }
  split; [exact Hd|]. split; [reflexivity|]. split; [reflexivity|].
  destruct (ghost_update_spec userId lat lng w contest w1 a E Ha Hrole)
    as (w' & Hrun & Hget & Hinbox).
  { left. by rewrite Hd. }
  rewrite Hd in Hget, Hinbox. simpl in Hget, Hinbox.
  eexists w', _. split; [exact Hrun|]. split; [exact Hget|].
  rewrite Hinbox, app_nil_r. done.
Qed.

End Ghost.

End LocationFacts.

Module Examples.
Import Sample CaptureFacts LocationFacts.

(** C1 fails in the code. Mina, a ghost, has already been captured by Ari:
    her [survival_flag] is 0, Ari's count is 1 and the capture is on record.
    Ari posts a second capture of Mina with the week's challenge: the
    request is accepted with status 201, a second capture row is appended,
    Ari's count becomes 2 and both capture notifications are written
    again. *)
Lemma captured_ghost_is_captured_again :
  ContestAssignments.survival_flag <$> get_assignment "week" "mina" (db captured) = Some 0 /\
  ContestAssignments.captures <$> get_assignment "week" "ari" (db captured) = Some 1 /\
  ContestCaptures.ghost_id <$> contest_captures (db captured) = ["mina"%string] /\
  InboxMessages.type <$> inbox_messages (db captured)
    = ["drop"; "contest_capture"; "contest_captured"]%string /\
  exists w',
    post_api_posts "ari" (capture_request "Capture them eating") captured
      = Returned (ok 201) w' /\
    ContestCaptures.ghost_id <$> contest_captures (db w') = ["mina"; "mina"]%string /\
    ContestAssignments.captures <$> get_assignment "week" "ari" (db w') = Some 2 /\
    ContestAssignments.survival_flag <$> get_assignment "week" "mina" (db w') = Some 0 /\
    InboxMessages.type <$> inbox_messages (db w')
      = ["drop"; "contest_capture"; "contest_captured";
         "drop"; "contest_capture"; "contest_captured"]%string.
Proof.
  repeat (split; [vm_compute; reflexivity|]).
  eexists. split; [vm_compute; reflexivity|].
  repeat split; vm_compute; reflexivity.
Qed.

(** C2 as stated does not hold. In a database with no post, no message, no
    contest week and no assignment, a capture posted with the wrong challenge
    is refused with status 400, and yet the post, its inbox drop, the contest
    week and the assignments of the two eligible users have been written. *)
Lemma challenge_mismatch_writes_rows :
  posts (db no_week) = [] /\ inbox_messages (db no_week) = [] /\
  contest_weeks (db no_week) = [] /\ contest_assignments (db no_week) = [] /\
  exists w',
    post_api_posts "ari" (capture_request "Catch them laughing") no_week
      = Returned (failed 400 "This capture does not match the weekly contest challenge.") w' /\
    Posts.id <$> posts (db w') = ["uuid-0"%string] /\
    InboxMessages.type <$> inbox_messages (db w') = ["drop"%string] /\
    ContestWeeks.challenge <$> contest_weeks (db w') = ["Capture them eating"%string] /\
    ContestAssignments.user_id <$> contest_assignments (db w') = ["mina"; "ari"]%string /\
    contest_captures (db w') = [].
Proof.
  repeat (split; [(vm_compute; reflexivity)|]).
  eexists. split; [(vm_compute; reflexivity)|].
  repeat split; (vm_compute; reflexivity).
Qed.

(** Ari claims the wrong challenge: the handler throws before it writes,
    and the route answers 400 with the post and its drop left behind. *)
Lemma challenge_mismatch_rejected_witness :
  (exists w1,
     handleContestCapture "ari" "mina" "uuid-0" "Catch them laughing" hunting
       = Thrown challenge_mismatch w1 /\
     users (db w1) = users (db hunting) /\ posts (db w1) = posts (db hunting) /\
     inbox_messages (db w1) = inbox_messages (db hunting) /\
     contest_captures (db w1) = contest_captures (db hunting)) /\
  (exists w1,
     post_api_posts "ari" (capture_request "Catch them laughing") hunting
       = Returned (failed 400 "This capture does not match the weekly contest challenge.") w1 /\
     Posts.id <$> posts (db w1) = ["uuid-0"%string] /\
     InboxMessages.type <$> inbox_messages (db w1) = ["drop"%string] /\
     contest_captures (db w1) = []).
Proof.
  split.
  - eexists.
    eapply (proj1 challenge_mismatch_rejected "ari" "mina" "uuid-0" "Catch them laughing"
              hunting _ week).
    + vm_compute; reflexivity.
    + discriminate.
  - destruct (proj2 challenge_mismatch_rejected "ari" (capture_request "Catch them laughing")
                hunting
                (advance 2 0 0 (after_post "ari" (capture_request "Catch them laughing") hunting))
                week)
      as (Hrun & Hposts & Hinbox & _ & Hcaptures).
    + discriminate.
    + discriminate.
    + reflexivity.
    + vm_compute. repeat constructor.
    + vm_compute. repeat constructor.
    + vm_compute; reflexivity.
    + discriminate.
    + eexists. split; [exact Hrun|]. rewrite Hposts, Hinbox, Hcaptures.
      repeat split; vm_compute; reflexivity.
Defined.

(** C3 as stated does not hold. Mina, a ghost who has not moved for seven
    hours, reports the same position twice: the first update sets the flag
    and warns her, the second one, with the flag already set, warns her
    again. *)
Lemma second_warning_while_flagged :
  exists w1 w2,
    @handleContestLocationUpdate RationalMath.instance "mina" mina_lat mina_lng stationary
      = Returned tt w1 /\
    ContestAssignments.camping_violation <$> get_assignment "week" "mina" (db w1) = Some 1 /\
    InboxMessages.type <$> inbox_messages (db w1) = ["contest_warning"%string] /\
    js_gt (@distanceKm RationalMath.instance (Some mina_lat) (Some mina_lng)
             (Some mina_lat) (Some mina_lng)) CONTEST_CAMPING_DISTANCE_KM = false /\
    @handleContestLocationUpdate RationalMath.instance "mina" mina_lat mina_lng w1
      = Returned tt w2 /\
    InboxMessages.type <$> inbox_messages (db w2)
      = ["contest_warning"; "contest_warning"]%string.
Proof.
  eexists _, _. split; [(vm_compute; reflexivity)|].
  split; [(vm_compute; reflexivity)|]. split; [(vm_compute; reflexivity)|]. split; [(vm_compute; reflexivity)|].
  split; [(vm_compute; reflexivity)|]. (vm_compute; reflexivity).
Qed.

Lemma camping_warning_witness :
  exists w' a',
    @handleContestLocationUpdate RationalMath.instance "mina" mina_lat mina_lng stationary
      = Returned tt w' /\
    get_assignment "week" "mina" (db w') = Some a' /\
    ContestAssignments.camping_violation a' = 1 /\
    InboxMessages.type <$> inbox_messages (db w') = ["contest_warning"%string].
Proof.
  destruct (@camping_warning_on_each_stationary_update RationalMath.instance
              "mina" mina_lat mina_lng stationary (advance 2 0 0 stationary) week
              (assignment "mina" "ghost" 0 1 0 (Some mina_lat) (Some mina_lng)
                 (Some (t0 - 7 * 3600000))))
    as (w' & a' & Hrun & Hget & Hyes & _).
  - (vm_compute; reflexivity).
  - (vm_compute; reflexivity).
  - (vm_compute; reflexivity).
  - vm_compute. repeat constructor.
  - exists w', a'. split; [exact Hrun|]. split; [exact Hget|].
    destruct Hyes as [Hinbox Hflag]; [split; [(vm_compute; reflexivity)|(vm_compute; reflexivity)]|].
    split; [exact Hflag|]. rewrite Hinbox. (vm_compute; reflexivity).
Defined.

(** C4 as stated does not hold. Mina's assignment has no stored position,
    its flag is set and its last move is seven hours old; her first location
    update clears the flag and resets [last_move_at] to the current
    instant. *)
Lemma flag_cleared_without_previous_location :
  ContestAssignments.last_location_lat <$> get_assignment "week" "mina" (db never_located)
    = Some None /\
  ContestAssignments.camping_violation <$> get_assignment "week" "mina" (db never_located)
    = Some 1 /\
  ContestAssignments.last_move_at <$> get_assignment "week" "mina" (db never_located)
    = Some (Some (t0 - 7 * 3600000)) /\
  exists w',
    @handleContestLocationUpdate RationalMath.instance "mina" mina_lat mina_lng never_located
      = Returned tt w' /\
    ContestAssignments.camping_violation <$> get_assignment "week" "mina" (db w') = Some 0 /\
    ContestAssignments.last_move_at <$> get_assignment "week" "mina" (db w')
      = Some (Some (t0 + 2)).
Proof.
  repeat (split; [(vm_compute; reflexivity)|]).
  eexists. split; [(vm_compute; reflexivity)|]. split; (vm_compute; reflexivity).
Qed.

Lemma unknown_previous_location_witness :
  exists w' a',
    @handleContestLocationUpdate RationalMath.instance "mina" mina_lat mina_lng never_located
      = Returned tt w' /\
    get_assignment "week" "mina" (db w') = Some a' /\
    ContestAssignments.camping_violation a' = 0 /\
    ContestAssignments.last_move_at a' = Some (t0 + 2).
Proof.
  destruct (@unknown_previous_location_counts_as_movement RationalMath.instance
              "mina" mina_lat mina_lng never_located (advance 2 0 0 never_located) week
              (assignment "mina" "ghost" 0 1 1 None None (Some (t0 - 7 * 3600000))))
    as (_ & _ & _ & w' & a' & Hrun & Hget & Hflag & Hmove & _).
  - (vm_compute; reflexivity).
  - (vm_compute; reflexivity).
  - (vm_compute; reflexivity).
  - left. (vm_compute; reflexivity).
  - exists w', a'. split; [exact Hrun|]. split; [exact Hget|]. split; [exact Hflag|].
    exact Hmove.
Defined.

End Examples.

Module SyncExamples.
Import Sample SyncTheorems.




End SyncExamples.

Module AlertInvariant.
Import WorldFacts Hoare CaptureFacts.

Lemma alerts_spaced_app l m :
  alerts_spaced l ->
  (forall m' hunterId ghostId, m' ∈ l -> is_alert hunterId ghostId m' ->
     is_alert hunterId ghostId m ->
     InboxMessages.created_at m - InboxMessages.created_at m' > CONTEST_ALERT_COOLDOWN_MS) ->
  alerts_spaced (l ++ [m]).
Proof.
  intros Hl Hm i j mi mj h g Hij Hi Hj Ai Aj.
  assert (Hjlen : (j < length (l ++ [m]))%nat) by (eapply lookup_lt_Some; eauto).
  rewrite length_app in Hjlen. simpl in Hjlen.
  rewrite lookup_app_l in Hi by lia.
  destruct (decide (j < length l)%nat) as [Hlt|Hge].
  - rewrite lookup_app_l in Hj by lia. exact (Hl i j mi mj h g Hij Hi Hj Ai Aj).
  - rewrite lookup_app_r in Hj by lia.
    replace (j - length l)%nat with 0%nat in Hj by lia. simpl in Hj.
    injection Hj as <-. apply (Hm mi h g); [|done|done]. eapply list_elem_of_lookup_2; eauto.
Qed.

Lemma alerts_spaced_app_other l m :
  alerts_spaced l -> InboxMessages.type m <> "contest_alert"%string ->
  alerts_spaced (l ++ [m]).
Proof.
  intros Hl Hm. apply alerts_spaced_app; [done|].
  intros m' h g _ _ (_ & _ & Ht). done.
Qed.

Lemma alerts_before_app now l m :
  alerts_before now l ->
  (InboxMessages.type m = "contest_alert"%string -> InboxMessages.created_at m <= now) ->
  alerts_before now (l ++ [m]).
Proof.
  intros Hl Hm m' [Hin|Hin]%elem_of_app Ht; [by apply Hl|].
  apply list_elem_of_singleton in Hin as ->. by apply Hm.
Qed.

Lemma alert_inv_at_stable now : inbox_stable (alert_inv_at now).
Proof.
  split.
  - intros t r u w (Hmono & Hsp & Hb & Hnow).
    split; [exact Hmono|]. split; [exact Hsp|]. split; [exact Hb|].
    simpl. etrans; [exact Hnow|]. apply Hmono. lia.
  - intros d w (Hmono & Hsp & Hb & Hnow) Hd. unfold alert_inv_at. simpl.
    rewrite Hd. done.
  - intros m w (Hmono & Hsp & Hb & Hnow) Hm. unfold alert_inv_at. simpl.
    split; [exact Hmono|]. split; [by apply alerts_spaced_app_other|].
    split; [|exact Hnow].
    apply alerts_before_app; [done|]. intros Ht. done.
Qed.

Lemma alert_inv_stable : inbox_stable alert_inv.
Proof.
  split.
  - intros t r u w (Hmono & Hsp & Hb & Hnow).
    split; [exact Hmono|]. split; [exact Hsp|]. split; [|reflexivity].
    intros m Hm Ht. simpl. etrans; [by apply Hb|]. apply Hmono. lia.
  - intros d w (Hmono & Hsp & Hb & Hnow) Hd. unfold alert_inv, alert_inv_at. simpl.
    rewrite Hd. done.
  - intros m w (Hmono & Hsp & Hb & Hnow) Hm. unfold alert_inv, alert_inv_at. simpl.
    split; [exact Hmono|]. split; [by apply alerts_spaced_app_other|].
    split; [|reflexivity].
    apply alerts_before_app; [done|]. intros Ht. done.
Qed.

Lemma alert_inv_enter w : alert_inv w -> alert_inv_at (clock w (ticks w)) (advance 1 0 0 w).
Proof.
  intros (Hmono & Hsp & Hb & _).
  split; [exact Hmono|]. split; [exact Hsp|]. split; [exact Hb|].
  simpl. apply Hmono. lia.
Qed.

Lemma alert_inv_leave now w : alert_inv_at now w -> alert_inv w.
Proof.
  intros (Hmono & Hsp & Hb & Hnow).
  split; [exact Hmono|]. split; [exact Hsp|]. split; [|reflexivity].
  intros m Hm Ht. etrans; [by apply Hb|done].
Qed.

Lemma alert_inv_initial w :
  monotone (clock w) ->
  (forall m, m ∈ inbox_messages (db w) -> InboxMessages.type m <> "contest_alert"%string) ->
  alert_inv w.
Proof.
  intros Hmono Hnone.
  split; [exact Hmono|]. split; [|split; [|reflexivity]].
  - intros i j mi mj h g _ Hi _ (_ & _ & Ht) _.
    destruct (Hnone mi); [eapply list_elem_of_lookup_2; eauto|done].
  - intros m Hm Ht. by destruct (Hnone m).
Qed.

Lemma inbox_stable_engine I : inbox_stable I -> engine_stable I.
Proof.
  intros [Ha Hf Hp]. split.
  - exact Ha.
  - intros l w Hw. by apply Hf.
  - intros l w Hw. by apply Hf.
Qed.

Lemma alerts_spaced_tail m l : alerts_spaced (m :: l) -> alerts_spaced l.
Proof.
  intros H i j mi mj h g Hij Hi Hj. apply (H (S i) (S j)); [lia|done|done].
Qed.

(** At most one alert of a pair in any hour. *)
Lemma alerts_in_window_le_1 hunterId ghostId t l :
  alerts_spaced l -> (length (alerts_in_window hunterId ghostId t l) <= 1)%nat.
Proof.
  unfold alerts_in_window. induction l as [|m l IH]; intros Hsp; [simpl; lia|].
  specialize (IH (alerts_spaced_tail _ _ Hsp)).
  destruct (decide (is_alert hunterId ghostId m /\
                    t <= InboxMessages.created_at m <= t + CONTEST_ALERT_COOLDOWN_MS))
    as [[Ha Hw]|Hn].
  - rewrite filter_cons_True by done. simpl.
    rewrite SyncInvariant.filter_none; [simpl; lia|].
    intros m' Hm' [Ha' Hw'].
    apply list_elem_of_lookup in Hm' as [j Hj].
    pose proof (Hsp 0%nat (S j) m m' hunterId ghostId ltac:(lia) eq_refl Hj Ha Ha'). lia.
  - by rewrite filter_cons_False.
Qed.

End AlertInvariant.

Module AlertPreservation.
Import WorldFacts Hoare CaptureFacts AlertInvariant.

Lemma most_recent_None l : most_recent l = None -> l = [].
Proof.
  destruct l as [|m l]; [done|]. simpl.
  destruct (most_recent l); [|done]. by destruct (_ <=? _).
Qed.

Lemma most_recent_max l b :
  most_recent l = Some b ->
  forall m, m ∈ l -> InboxMessages.created_at m <= InboxMessages.created_at b.
Proof.
  revert b. induction l as [|x l IH]; intros b Hb m Hm; [by apply elem_of_nil in Hm|].
  simpl in Hb. destruct (most_recent l) as [b'|] eqn:E.
  - specialize (IH b' eq_refl).
    destruct (Z.leb_spec (InboxMessages.created_at b') (InboxMessages.created_at x));
      injection Hb as <-; apply elem_of_cons in Hm as [->|Hm]; try lia.
    + specialize (IH m Hm). lia.
    + by apply IH.
  - apply most_recent_None in E. subst l. injection Hb as <-.
    apply list_elem_of_singleton in Hm as ->. lia.
Qed.

Section Stable.
Context (I : world -> Prop) (HI : inbox_stable I).

Lemma preserves_run_frame f :
  (forall d d', f d = inl d' -> inbox_messages d' = inbox_messages d) ->
  preserves I (run f).
Proof.
  intros Hf. apply preserves_run. intros w d Hw E.
  apply (inbox_frame I HI); [done|]. by apply Hf.
Qed.

Lemma preserves_createInboxEntry recipientId senderId postId type message createdAt :
  type <> "contest_alert"%string ->
  preserves I (createInboxEntry recipientId senderId postId type message createdAt).
Proof.
  intros Ht. unfold createInboxEntry.
  apply preserves_bind; [apply preserves_createId, inbox_stable_engine, HI|].
  intros id. apply preserves_run. intros w d Hw. unfold insert_inbox_message.
  destruct (decide _); [|done]. intros [= <-]. by apply (inbox_append I HI).
Qed.

Ltac preserve :=
  repeat first
    [ apply preserves_ret | apply preserves_throw | apply preserves_query
    | apply preserves_Date_now, inbox_stable_engine, HI
    | apply preserves_createId, inbox_stable_engine, HI
    | apply preserves_Math_random, inbox_stable_engine, HI
    | apply preserves_ensureActiveContest, inbox_stable_engine, HI
    | apply preserves_buildState, inbox_stable_engine, HI
    | apply preserves_update_contest_assignment, inbox_stable_engine, HI
    | apply preserves_createInboxEntry;
      [first [discriminate | destruct (is_bekandid _); discriminate]]
    | apply preserves_run_frame; intros ? ?;
      first [ intros [= <-]; reflexivity
            | unfold insert_post; destruct (decide _); [intros [= <-]; reflexivity|discriminate] ]
    | apply preserves_bind; [|intros ?]
    | apply preserves_try_catch; [|intros ?]
    | match goal with
      | |- preserves _ (if decide ?P then _ else _) => destruct (decide P)
      | |- preserves _ (if ?b then _ else _) => destruct b
      | |- preserves _ (match ?x with _ => _ end) => destruct x
      end ].

Lemma preserves_handleContestCapture hunterId ghostId postId challenge :
  preserves I (handleContestCapture hunterId ghostId postId challenge).
Proof. unfold handleContestCapture. preserve. Qed.

Lemma preserves_post_api_posts userId body : preserves I (post_api_posts userId body).
Proof.
  unfold post_api_posts. preserve.
Qed.

Section Math.
Context `{JsMath}.

Lemma preserves_post_api_users_me_bekandid userId enabled :
  preserves I (post_api_users_me_bekandid userId enabled).
Proof. unfold post_api_users_me_bekandid. preserve. Qed.

Lemma preserves_get_api_state : preserves I get_api_state.
Proof. unfold get_api_state. preserve. Qed.

End Math.
End Stable.

Section Alerts.
Context `{JsMath}.

Lemma preserves_alert_if_near userId lat lng now ghost :
  preserves (alert_inv_at now) (alert_if_near userId lat lng now ghost).
Proof.
  unfold alert_if_near. destruct (js_le _ _); [|apply preserves_ret].
  intros w Hw. unfold bind at 1, query at 1.
  destruct (get_recent_alert userId (GhostScan.user_id ghost) (db w)) as [recent|] eqn:Er.
  - destruct (Z.gtb_spec (now - InboxMessages.created_at recent) CONTEST_ALERT_COOLDOWN_MS)
      as [Hold|Hyoung]; [|exact Hw].
    unfold createInboxEntry, bind, createId, run, insert_inbox_message. simpl.
    destruct (decide _) as [_|_]; simpl.
    + destruct Hw as (Hmono & Hsp & Hb & Hnow).
      split; [exact Hmono|]. split; [|split; [|exact Hnow]].
      * apply alerts_spaced_app; [exact Hsp|].
        intros m' h g Hm' Am' (Eh & Eg & _). simpl in Eh, Eg. subst h g. simpl.
        assert (InboxMessages.created_at m' <= InboxMessages.created_at recent); [|lia].
        eapply most_recent_max; [exact Er|].
        apply list_elem_of_filter. done.
      * apply alerts_before_app; [exact Hb|]. simpl. lia.
    + apply (inbox_advance _ (alert_inv_at_stable now) 0 0 1 w Hw).
  - unfold createInboxEntry, bind, createId, run, insert_inbox_message. simpl.
    destruct (decide _) as [_|_]; simpl.
    + destruct Hw as (Hmono & Hsp & Hb & Hnow).
      split; [exact Hmono|]. split; [|split; [|exact Hnow]].
      * apply alerts_spaced_app; [exact Hsp|].
        intros m' h g Hm' Am' (Eh & Eg & _). simpl in Eh, Eg. subst h g.
        apply most_recent_None in Er.
        assert (m' ∈ select_alerts userId (GhostScan.user_id ghost) (db w)) as Hin
          by (by apply list_elem_of_filter).
        rewrite Er in Hin. by apply elem_of_nil in Hin.
      * apply alerts_before_app; [exact Hb|]. simpl. lia.
    + apply (inbox_advance _ (alert_inv_at_stable now) 0 0 1 w Hw).
Qed.

Lemma preserves_clock_read {A} (k : Z -> M A) :
  (forall now, preserves (alert_inv_at now) (k now)) ->
  preserves alert_inv (bind Date_now k).
Proof.
  intros Hk w Hw. unfold bind, Date_now.
  apply (alert_inv_leave (clock w (ticks w))). apply Hk. by apply alert_inv_enter.
Qed.

Lemma preserves_handleContestLocationUpdate userId lat lng :
  preserves alert_inv (handleContestLocationUpdate userId lat lng).
Proof.
  unfold handleContestLocationUpdate.
  apply preserves_bind.
  { apply preserves_ensureActiveContest, inbox_stable_engine, alert_inv_stable. }
  intros contest. apply preserves_bind; [apply preserves_query|].
  intros [assignment|]; [|apply preserves_ret].
  apply preserves_clock_read. intros now.
  pose proof (alert_inv_at_stable now) as HI.
  apply preserves_bind.
  { apply preserves_update_contest_assignment, inbox_stable_engine, HI. }
  intros _. destruct (decide _).
  - destruct (js_gt _ _).
    + apply preserves_update_contest_assignment, inbox_stable_engine, HI.
    + destruct (_ >? _); [|apply preserves_ret].
      apply preserves_bind.
      { apply preserves_update_contest_assignment, inbox_stable_engine, HI. }
      intros _. by apply preserves_createInboxEntry.
  - destruct (decide _); [apply preserves_ret|].
    apply preserves_bind; [apply preserves_query|]. intros ghosts.
    apply preserves_for_of. intros ghost. apply preserves_alert_if_near.
Qed.

Lemma preserves_post_api_users_me_location userId lat lng :
  preserves alert_inv (post_api_users_me_location userId lat lng).
Proof.
  pose proof alert_inv_stable as HI.
  unfold post_api_users_me_location. apply preserves_try_catch; [|intros; apply preserves_ret].
  destruct lat as [lat|]; [|apply preserves_ret].
  destruct lng as [lng|]; [|apply preserves_ret].
  apply preserves_bind; [apply preserves_Date_now, inbox_stable_engine, HI|]. intros now.
  apply preserves_bind.
  { apply preserves_run_frame; [exact HI|]. intros d d' [= <-]. reflexivity. }
  intros _. apply preserves_bind; [apply preserves_handleContestLocationUpdate|].
  intros _. apply preserves_bind; [apply preserves_buildState, inbox_stable_engine, HI|].
  intros _. apply preserves_ret.
Qed.

Lemma preserves_serve r : preserves alert_inv (serve r).
Proof.
  destruct r; simpl.
  - apply preserves_post_api_posts, alert_inv_stable.
  - apply preserves_post_api_users_me_location.
  - apply preserves_post_api_users_me_bekandid, alert_inv_stable.
  - apply preserves_get_api_state, alert_inv_stable.
Qed.

Lemma alert_inv_serve_all rs : forall w, alert_inv w -> alert_inv (serve_all rs w).
Proof.
  induction rs as [|r rs IH]; intros w Hw; [exact Hw|].
  simpl. apply IH. by apply preserves_serve.
Qed.

End Alerts.

End AlertPreservation.

Module HunterFacts.
Import WorldFacts Hoare CaptureFacts LocationFacts AlertInvariant AlertPreservation.

Lemma filter_ext_elem {A} (P Q : A -> Prop) `{!forall x, Decision (P x)}
    `{!forall x, Decision (Q x)} (l : list A) :
  (forall x, x ∈ l -> P x <-> Q x) -> filter P l = filter Q l.
Proof.
  induction l as [|x l IH]; intros Hext; [done|].
  assert (IH' : filter P l = filter Q l).
  { apply IH. intros y Hy. apply Hext. by right. }
  destruct (decide (P x)) as [HP|HP].
  - rewrite !filter_cons_True; [by rewrite IH'|by apply Hext; [left|]|done].
  - rewrite !filter_cons_False; [done| |done].
    intros HQ. apply HP, Hext; [left|done].
Qed.

Lemma get_recent_alert_other userId ghostId m d :
  InboxMessages.sender_id m <> ghostId ->
  get_recent_alert userId ghostId
    (set_inbox_messages (inbox_messages d ++ [m]) d)
  = get_recent_alert userId ghostId d.
Proof.
  intros Hne. unfold get_recent_alert, select_alerts. simpl.
  rewrite filter_app, filter_cons_False, filter_nil, app_nil_r; [done|].
  intros (_ & Hs & _). done.
Qed.

Section Hunter.
Context `{JsMath}.

Lemma alert_loop userId lat lng now : forall ghosts w,
  NoDup (GhostScan.user_id <$> ghosts) ->
  userId ∈ user_ids (db w) ->
  (forall g, g ∈ ghosts -> GhostScan.user_id g ∈ user_ids (db w)) ->
  exists w' new,
    for_of ghosts (alert_if_near userId lat lng now) w = Returned tt w' /\
    db w' = set_inbox_messages (inbox_messages (db w) ++ new) (db w) /\
    InboxMessages.sender_id <$> new
      = GhostScan.user_id <$> filter (alert_due userId lat lng now (db w)) ghosts /\
    Forall (fun m => InboxMessages.recipient_id m = userId /\
                     InboxMessages.type m = "contest_alert"%string /\
                     InboxMessages.created_at m = now) new.
Proof.
  induction ghosts as [|g ghosts IH]; intros w Hnd Hu Hg.
  - exists w, []. simpl. rewrite app_nil_r. split; [done|]. split; [by destruct (db w)|].
    split; [done|constructor].
  - rewrite fmap_cons in Hnd. apply NoDup_cons in Hnd as [Hfresh Hnd]. simpl.
    destruct (decide (alert_due userId lat lng now (db w) g)) as [Hdue|Hnot].
    + (* an alert is written *)
      erewrite bind_Returned; last first.
      { unfold alert_if_near. destruct Hdue as [-> Hrecent].
        unfold bind at 1, query at 1.
        destruct (get_recent_alert _ _ _) as [recent|].
        - rewrite (proj2 (Z.gtb_gt _ _)) by lia.
          apply createInboxEntry_eq. split; [done|]. split; [|done]. apply Hg. left.
        - apply createInboxEntry_eq. split; [done|]. split; [|done]. apply Hg. left. }
      match goal with |- context [for_of ghosts _ ?w1] =>
        destruct (IH w1 Hnd) as (w' & new & Hrun & Hdb & Hsend & Hall) end.
      { exact Hu. }
      { intros g' Hg'. apply Hg. by right. }
      eexists w', (_ :: new). split; [exact Hrun|]. split; [|split].
      * rewrite Hdb. simpl. by rewrite <- app_assoc.
      * rewrite filter_cons_True by done. rewrite !fmap_cons. f_equal.
        rewrite Hsend. f_equal. apply filter_ext_elem. intros g' Hg'.
        unfold alert_due. cbn [db with_db advance].
        rewrite get_recent_alert_other; [done|]. simpl.
        intros E. apply Hfresh. rewrite E. by apply list_elem_of_fmap_2.
      * constructor; [done|exact Hall].
    + (* no alert for this ghost *)
      erewrite bind_Returned; last first.
      { unfold alert_if_near. unfold alert_due in Hnot.
        destruct (js_le _ _); [|reflexivity].
        unfold bind at 1, query at 1.
        destruct (get_recent_alert _ _ _) as [recent|].
        - destruct (Z.gtb_spec (now - InboxMessages.created_at recent)
                      CONTEST_ALERT_COOLDOWN_MS); [|reflexivity].
          destruct Hnot. split; [done|lia].
        - destruct Hnot. done. }
      destruct (IH w Hnd Hu) as (w' & new & Hrun & Hdb & Hsend & Hall).
      { intros g' Hg'. apply Hg. by right. }
      exists w', new. split; [exact Hrun|]. split; [exact Hdb|]. split; [|exact Hall].
      by rewrite filter_cons_False.
Qed.

End Hunter.
End HunterFacts.

Module ScanFacts.
Import WorldFacts Hoare SyncFacts SyncInvariant CaptureFacts LocationFacts.

Local Opaque getContestWindow.

Lemma sync_weeks c w w' :
  NoDup (user_ids (db w)) ->
  syncContestAssignments c w = Returned tt w' ->
  contest_weeks (db w') = contest_weeks (db w).
Proof.
  intros Hu E.
  destruct (syncContestAssignments_spec c w Hu) as (added & k & Hrun & _).
  rewrite E in Hrun. injection Hrun as ->. reflexivity.
Qed.

(** [ensureActiveContest] returns, and what it leaves. *)
Lemma ensureActiveContest_total w :
  NoDup (user_ids (db w)) ->
  exists contest w1,
    ensureActiveContest w = Returned contest w1 /\
    users (db w1) = users (db w) /\
    (NoDup (assignment_keys (db w)) -> NoDup (assignment_keys (db w1))) /\
    ContestWeeks.starts_at contest = startsAt (getContestWindow (clock w (ticks w))) /\
    contest ∈ contest_weeks (db w1) /\
    (forall p, p ∈ select_user_ids_where_bekandid 0 (db w) ->
               (ContestWeeks.id contest, p) ∈ assignment_keys (db w1)) /\
    (forall p, p ∈ select_user_ids_where_bekandid 1 (db w) ->
               (ContestWeeks.id contest, p) ∉ assignment_keys (db w1)).
Proof.
  intros Hu. unfold ensureActiveContest.
  step. step.
  destruct (get_contest_week _ _) as [contest|] eqn:Efound.
  - erewrite bind_Returned by reflexivity. cbv beta.
    destruct (sync_keys (ContestWeeks.id contest) (advance 1 0 0 w) Hu)
      as (w1 & Hrun & Husers & Hnd & Hin & Hout).
    erewrite bind_Returned by exact Hrun.
    exists contest, w1. split; [reflexivity|]. split; [exact Husers|].
    split; [exact Hnd|]. split; [|split; [|split; [exact Hin|exact Hout]]].
    + unfold get_contest_week in Efound. cbn [db advance] in *.
      pose proof (head_Some_elem_of _ _ Efound) as Hin'.
      apply list_elem_of_filter in Hin' as [-> _]. reflexivity.
    + rewrite (sync_weeks _ (advance 1 0 0 w) _ Hu Hrun). cbn [db advance]. unfold get_contest_week in Efound.
      pose proof (head_Some_elem_of _ _ Efound) as Hin'.
      apply list_elem_of_filter in Hin' as [_ Hin']. exact Hin'.
  - erewrite bind_Returned; last first.
    { step. erewrite bind_Returned by reflexivity. cbv beta.
      erewrite bind_Returned; last first.
      { apply run_inl. unfold insert_contest_week. apply decide_False.
        intros (c & Hs & Hc)%list_elem_of_fmap.
        unfold get_contest_week in Efound. apply head_None in Efound.
        assert (c ∈ filter (fun c => ContestWeeks.starts_at c
                   = startsAt (getContestWindow (clock w (ticks w)))) (contest_weeks (db w)))
          as Hin by (apply list_elem_of_filter; split; [by rewrite <- Hs|exact Hc]).
        cbn [db advance] in Efound. rewrite Efound in Hin. by apply elem_of_nil in Hin. }
      reflexivity. }
    cbv beta.
    match goal with |- context [bind (syncContestAssignments ?c) _ ?w0] =>
      destruct (sync_keys c w0 Hu) as (w1 & Hrun & Husers & Hnd & Hin & Hout) end.
    erewrite bind_Returned by exact Hrun.
    eexists _, w1. split; [reflexivity|]. split; [exact Husers|].
    split; [exact Hnd|]. split; [reflexivity|]. split; [|split; [exact Hin|exact Hout]].
    match type of Hrun with syncContestAssignments ?c ?w0 = _ =>
      rewrite (sync_weeks c w0 _ Hu Hrun) end.
    cbn [db with_db advance set_contest_weeks contest_weeks].
    apply elem_of_app. right. left.
Qed.

Lemma ensureActiveContest_keys w contest w1 :
  ensureActiveContest w = Returned contest w1 ->
  NoDup (user_ids (db w)) -> NoDup (assignment_keys (db w)) ->
  NoDup (user_ids (db w1)) /\ NoDup (assignment_keys (db w1)).
Proof.
  intros E Hu Hk.
  destruct (ensureActiveContest_total w Hu) as (c' & w1' & E' & Husers & Hnd & _).
  rewrite E in E'. injection E' as -> ->.
  split; [|by apply Hnd]. unfold user_ids. by rewrite Husers.
Qed.

Lemma surviving_ghosts_after_update c u f contestId d :
  (forall a, ContestAssignments.contest_id (f a) = ContestAssignments.contest_id a /\
             ContestAssignments.user_id (f a) = ContestAssignments.user_id a /\
             ContestAssignments.role (f a) = ContestAssignments.role a /\
             ContestAssignments.survival_flag (f a) = ContestAssignments.survival_flag a) ->
  select_surviving_ghosts contestId
    (set_contest_assignments
       ((fun a => if decide (assignment_key a = (c, u)) then f a else a)
          <$> contest_assignments d) d)
  = select_surviving_ghosts contestId d.
Proof.
  intros Hf. unfold select_surviving_ghosts. cbn [users contest_assignments set_contest_assignments].
  induction (contest_assignments d) as [|a l IH]; [done|].
  rewrite fmap_cons.
  set (a' := if decide (assignment_key a = (c, u)) then f a else a).
  assert (Ha : ContestAssignments.contest_id a' = ContestAssignments.contest_id a /\
               ContestAssignments.user_id a' = ContestAssignments.user_id a /\
               ContestAssignments.role a' = ContestAssignments.role a /\
               ContestAssignments.survival_flag a' = ContestAssignments.survival_flag a).
  { unfold a'. destruct (decide _); [apply Hf|done]. }
  destruct Ha as (Hc & Hid & Hr & Hs).
  destruct (decide (ContestAssignments.contest_id a = contestId
                    /\ ContestAssignments.role a = "ghost"%string
                    /\ ContestAssignments.survival_flag a = 1)) as [HP|HP].
  - rewrite !filter_cons_True; [|done|by rewrite Hc, Hr, Hs].
    rewrite !bind_cons, IH, Hid. done.
  - rewrite !filter_cons_False; [exact IH|done|by rewrite Hc, Hr, Hs].
Qed.

Lemma surviving_ghost_is_user contestId d g :
  g ∈ select_surviving_ghosts contestId d -> GhostScan.user_id g ∈ user_ids d.
Proof.
  unfold select_surviving_ghosts.
  intros (ca & Hg & _)%list_elem_of_bind.
  apply list_elem_of_bind in Hg as (u & Hg & Hu).
  apply list_elem_of_singleton in Hg as ->. simpl.
  apply list_elem_of_filter in Hu as [-> Hu]. by apply list_elem_of_fmap_2.
Qed.

Lemma at_most_one_user d x :
  NoDup (user_ids d) ->
  (length (filter (fun u => x = Users.id u) (users d)) <= 1)%nat.
Proof.
  unfold user_ids. induction (users d) as [|u l IH]; intros Hnd; [simpl; lia|].
  rewrite fmap_cons in Hnd. apply NoDup_cons in Hnd as [Hu Hnd].
  destruct (decide (x = Users.id u)) as [->|Hne].
  - rewrite filter_cons_True by done. rewrite filter_none; [simpl; lia|].
    intros u' Hu' E. apply Hu. rewrite E. by apply list_elem_of_fmap_2.
  - rewrite filter_cons_False by done. by apply IH.
Qed.

Lemma surviving_ghosts_NoDup contestId d :
  NoDup (user_ids d) -> NoDup (assignment_keys d) ->
  NoDup (GhostScan.user_id <$> select_surviving_ghosts contestId d).
Proof.
  intros Hu. unfold assignment_keys, select_surviving_ghosts.
  induction (contest_assignments d) as [|a l IH]; intros Hk; [constructor|].
  rewrite fmap_cons in Hk. apply NoDup_cons in Hk as [Ha Hk]. specialize (IH Hk).
  destruct (decide (ContestAssignments.contest_id a = contestId
                    /\ ContestAssignments.role a = "ghost"%string
                    /\ ContestAssignments.survival_flag a = 1)) as [HP|HP].
  - rewrite filter_cons_True by done. rewrite bind_cons, fmap_app.
    apply NoDup_app. split; [|split; [|exact IH]].
    + pose proof (at_most_one_user d (ContestAssignments.user_id a) Hu) as Hlen.
      destruct (filter _ (users d)) as [|u [|u' rest]]; simpl in *;
        [constructor|apply NoDup_singleton|lia].
    + intros x Hx Hx'.
      apply list_elem_of_fmap in Hx as (g & -> & Hg).
      apply list_elem_of_bind in Hg as (u & Hg & _).
      apply list_elem_of_singleton in Hg as ->. simpl in Hx'.
      apply list_elem_of_fmap in Hx' as (g' & Eg & Hg').
      apply list_elem_of_bind in Hg' as (ca & Hg' & Hca).
      apply list_elem_of_bind in Hg' as (u' & Hg' & _).
      apply list_elem_of_singleton in Hg' as ->. simpl in Eg.
      apply list_elem_of_filter in Hca as [(Hc & _) Hca].
      apply Ha. apply list_elem_of_fmap. exists ca. split; [|done].
      unfold assignment_key. destruct HP as (-> & _). by rewrite Hc, Eg.
  - by rewrite filter_cons_False.
Qed.

End ScanFacts.

Module AlertTheorems.
Import WorldFacts Hoare CaptureFacts LocationFacts AlertInvariant AlertPreservation
  HunterFacts ScanFacts.

Local Opaque getContestWindow.

Section Alerts.
Context `{JsMath}.

(** What a location update does for a hunter. *)
Lemma hunter_update_spec userId lat lng w contest w1 a :
  NoDup (user_ids (db w)) -> NoDup (assignment_keys (db w)) ->
  userId ∈ user_ids (db w) ->
  ensureActiveContest w = Returned contest w1 ->
  get_assignment (ContestWeeks.id contest) userId (db w1) = Some a ->
  ContestAssignments.role a = "hunter"%string ->
  exists w' new,
    handleContestLocationUpdate userId lat lng w = Returned tt w' /\
    inbox_messages (db w') = inbox_messages (db w1) ++ new /\
    InboxMessages.sender_id <$> new
      = GhostScan.user_id <$>
          filter (alert_due userId lat lng (clock w1 (ticks w1)) (db w1))
                 (select_surviving_ghosts (ContestWeeks.id contest) (db w1)) /\
    Forall (fun m => InboxMessages.recipient_id m = userId /\
                     InboxMessages.type m = "contest_alert"%string /\
                     InboxMessages.created_at m = clock w1 (ticks w1)) new.
Proof.
  intros Hu Hk Hmem E Ha Hrole.
  destruct (ensureActiveContest_keys w contest w1 E Hu Hk) as [Hu1 Hk1].
  destruct (ensureActiveContest_frame_Returned w contest w1 E) as (Husers & _).
  unfold handleContestLocationUpdate.
  erewrite bind_Returned by exact E. cbv beta.
  step. rewrite Ha. step.
  erewrite bind_Returned by (by apply run_inl). cbv beta.
  rewrite decide_False by (rewrite Hrole; discriminate).
  rewrite decide_False by (intros Hn; by apply Hn).
  step.
  cbn [db with_db advance]. rewrite surviving_ghosts_after_update by done.
  match goal with |- context [for_of ?ghosts ?body ?w2] =>
    destruct (alert_loop userId lat lng (clock w1 (ticks w1)) ghosts w2)
      as (w' & new & Hrun & Hdb & Hsend & Hall) end.
  - by apply surviving_ghosts_NoDup.
  - unfold user_ids. cbn [db with_db advance users set_contest_assignments].
    by rewrite Husers.
  - intros g Hg. apply surviving_ghost_is_user in Hg. exact Hg.
  - exists w', new. split; [exact Hrun|]. split; [by rewrite Hdb|].
    split; [exact Hsend|exact Hall].
Qed.

(** C8. (1) A location update of a hunter returns and appends one
    [contest_alert] per surviving ghost for whom an alert is due, in scan
    order, each addressed to the hunter and dated with the current instant;
    an alert is due for a ghost when the ghost is within 0.3 km of the
    reported position and the hunter's inbox holds no alert from that ghost,
    or the most recent one is more than one hour old: alerts for other
    ghosts play no part. (2) Every sequence of requests preserves the
    spacing of alerts. (3) Hence, when the clock never runs backwards and
    the inbox starts without alerts, after any sequence of requests every
    one-hour window holds at most one alert for each (hunter, ghost)
    pair. *)
Theorem proximity_alert_cooldown :
  (forall (userId : string) (lat lng : Q) (w w1 : world)
          (contest : ContestWeeks.row) (a : ContestAssignments.row),
     NoDup (user_ids (db w)) -> NoDup (assignment_keys (db w)) ->
     userId ∈ user_ids (db w) ->
     ensureActiveContest w = Returned contest w1 ->
     get_assignment (ContestWeeks.id contest) userId (db w1) = Some a ->
     ContestAssignments.role a = "hunter"%string ->
     exists w' new,
       handleContestLocationUpdate userId lat lng w = Returned tt w' /\
       inbox_messages (db w') = inbox_messages (db w1) ++ new /\
       InboxMessages.sender_id <$> new
         = GhostScan.user_id <$>
             filter (alert_due userId lat lng (clock w1 (ticks w1)) (db w1))
                    (select_surviving_ghosts (ContestWeeks.id contest) (db w1)) /\
       Forall (fun m => InboxMessages.recipient_id m = userId /\
                        InboxMessages.type m = "contest_alert"%string /\
                        InboxMessages.created_at m = clock w1 (ticks w1)) new) /\
  (forall (rs : list request) (w : world),
     alert_inv w -> alert_inv (serve_all rs w)) /\
  (forall (rs : list request) (w : world),
     monotone (clock w) ->
     (forall m, m ∈ inbox_messages (db w) ->
                InboxMessages.type m <> "contest_alert"%string) ->
     forall (hunterId ghostId : string) (t : Z),
       (length (alerts_in_window hunterId ghostId t
                  (inbox_messages (db (serve_all rs w)))) <= 1)%nat).
Proof.
  split; [|split].
  - intros. by eapply hunter_update_spec.
  - intros rs w. apply alert_inv_serve_all.
  - intros rs w Hmono Hnone h g t. apply alerts_in_window_le_1.
    apply (alert_inv_serve_all rs w). by apply alert_inv_initial.
Qed.

End Alerts.

End AlertTheorems.

Module AlertExamples.
Import Sample AlertTheorems.

Lemma sample_clock_monotone d : monotone (clock (world_of d)).
Proof. intros i j Hij. simpl. lia. Qed.

(** Ari, a hunter, reports Mina's position: he is alerted about her.  He
    reports it twice in a row: still one alert. *)
Lemma proximity_alert_cooldown_witness :
  (exists w',
     @handleContestLocationUpdate RationalMath.instance "ari" mina_lat mina_lng stationary
       = Returned tt w' /\
     InboxMessages.sender_id <$> inbox_messages (db w') = ["mina"%string]) /\
  InboxMessages.type <$> inbox_messages (db
    (@serve_all RationalMath.instance
       [PostLocation "ari" (Some mina_lat) (Some mina_lng);
        PostLocation "ari" (Some mina_lat) (Some mina_lng)] stationary))
    = ["contest_alert"%string] /\
  (length (alerts_in_window "ari" "mina" t0
     (inbox_messages (db
        (@serve_all RationalMath.instance
           [PostLocation "ari" (Some mina_lat) (Some mina_lng);
            PostLocation "ari" (Some mina_lat) (Some mina_lng)] stationary)))) <= 1)%nat.
Proof.
  split; [|split; [vm_compute; reflexivity|]].
  - destruct (proj1 (@proximity_alert_cooldown RationalMath.instance)
                "ari" mina_lat mina_lng stationary (advance 2 0 0 stationary) week
                (assignment "ari" "hunter" 0 1 0 None None (Some week_starts)))
      as (w' & new & Hrun & Hinbox & Hsend & _).
    + apply (bool_decide_unpack _). vm_compute. exact I.
    + apply (bool_decide_unpack _). vm_compute. exact I.
    + vm_compute. repeat constructor.
    + vm_compute; reflexivity.
    + vm_compute; reflexivity.
    + reflexivity.
    + exists w'. split; [exact Hrun|].
      rewrite Hinbox, fmap_app, Hsend. vm_compute; reflexivity.
  - apply (proj2 (proj2 (@proximity_alert_cooldown RationalMath.instance))).
    + apply sample_clock_monotone.
    + intros m Hm. vm_compute in Hm. by apply elem_of_nil in Hm.
Defined.

End AlertExamples.

Module Simulation.
Import WorldFacts.

Lemma sim_ret {A} (R : A -> A -> Prop) a1 a2 : R a1 a2 -> simulates R (ret a1) (ret a2).
Proof. intros HR w. simpl. done. Qed.

Lemma sim_throw {A} (R : A -> A -> Prop) e : simulates R (throw e) (throw e).
Proof. intros w. simpl. done. Qed.

Lemma sim_bind {A B} (R : A -> A -> Prop) (S : B -> B -> Prop) m1 m2 k1 k2 :
  simulates R m1 m2 ->
  (forall a1 a2, R a1 a2 -> simulates S (k1 a1) (k2 a2)) ->
  simulates S (bind m1 k1) (bind m2 k2).
Proof.
  intros Hm Hk w. unfold bind. specialize (Hm w).
  destruct (m1 (erase_locations w)) as [a1 w1|e1 w1], (m2 w) as [a2 w2|e2 w2]; try done.
  destruct Hm as [HR ->]. apply (Hk a1 a2 HR).
Qed.

Lemma sim_query {A} (R : A -> A -> Prop) (f : database -> A) :
  (forall d, R (f (erase_database d)) (f d)) -> simulates R (query f) (query f).
Proof. intros Hf w. simpl. split; [apply Hf|done]. Qed.

Lemma sim_run f :
  (forall d, match f (erase_database d), f d with
             | inl d1, inl d2 => d1 = erase_database d2
             | inr e1, inr e2 => e1 = e2
             | _, _ => False
             end) ->
  simulates eq (run f) (run f).
Proof.
  intros Hf w. unfold run. specialize (Hf (db w)). cbn [erase_locations db with_db].
  destruct (f (erase_database (db w))) as [d1|e1], (f (db w)) as [d2|e2]; try done.
  subst d1. done.
Qed.

Lemma sim_Date_now : simulates eq Date_now Date_now.
Proof. intros w. simpl. done. Qed.

Lemma sim_Math_random : simulates eq Math_random Math_random.
Proof. intros w. simpl. done. Qed.

Lemma sim_createId : simulates eq createId createId.
Proof. intros w. simpl. done. Qed.

Lemma sim_for_of {A} (l : list A) (b1 b2 : A -> M unit) :
  (forall x, simulates eq (b1 x) (b2 x)) -> simulates eq (for_of l b1) (for_of l b2).
Proof.
  intros Hb. induction l as [|x l IH]; simpl.
  - by apply sim_ret.
  - eapply sim_bind; [apply Hb|]. intros _ _ _. exact IH.
Qed.

Lemma sim_eq {A} (m : M A) w :
  simulates eq m m -> m (erase_locations w) = outcome_map erase_locations (m w).
Proof.
  intros Hm. specialize (Hm w).
  destruct (m (erase_locations w)) as [a1 w1|e1 w1], (m w) as [a2 w2|e2 w2]; try done;
    destruct Hm as [-> ->]; done.
Qed.

(** Queries and statements do not look at locations. *)

Lemma filter_fmap_compat {A B} (f : A -> B) (P : B -> Prop) (Q : A -> Prop)
    `{!forall x, Decision (P x)} `{!forall x, Decision (Q x)} (l : list A) :
  (forall x, P (f x) <-> Q x) -> filter P (f <$> l) = f <$> filter Q l.
Proof.
  intros HPQ. induction l as [|x l IH]; [done|].
  rewrite fmap_cons. destruct (decide (Q x)) as [HQ|HQ].
  - rewrite !filter_cons_True; [by rewrite fmap_cons, IH|done|by apply HPQ].
  - rewrite !filter_cons_False; [done|done|]. by rewrite HPQ.
Qed.

Lemma erase_user_ids d : user_ids (erase_database d) = user_ids d.
Proof.
  unfold user_ids. simpl. rewrite <- list_fmap_compose.
  apply Forall_fmap_ext_1, Forall_forall. done.
Qed.

Lemma erase_assignment_keys d :
  assignment_key <$> contest_assignments (erase_database d)
  = assignment_key <$> contest_assignments d.
Proof.
  simpl. rewrite <- list_fmap_compose. apply Forall_fmap_ext_1, Forall_forall. done.
Qed.

Lemma erase_select_user_ids flag d :
  select_user_ids_where_bekandid flag (erase_database d)
  = select_user_ids_where_bekandid flag d.
Proof.
  unfold select_user_ids_where_bekandid. simpl.
  rewrite (filter_fmap_compat erase_user _
             (fun u => Users.bekandid_enabled u = flag)) by done.
  rewrite <- list_fmap_compose. apply Forall_fmap_ext_1, Forall_forall. done.
Qed.

Lemma erase_select_assignments c d :
  select_assignments c (erase_database d) = erase_assignment <$> select_assignments c d.
Proof.
  unfold select_assignments. simpl. by apply filter_fmap_compat.
Qed.

Lemma erase_get_assignment c u d :
  get_assignment c u (erase_database d) = erase_assignment <$> get_assignment c u d.
Proof.
  unfold get_assignment. simpl.
  rewrite (filter_fmap_compat erase_assignment _
             (fun a => assignment_key a = (c, u))) by done.
  by destruct (filter _ _).
Qed.

Lemma sim_insert_contest_assignment c p role now :
  simulates eq (run (insert_contest_assignment (new_assignment c p role now)))
               (run (insert_contest_assignment (new_assignment c p role now))).
Proof.
  apply sim_run. intros d. unfold insert_contest_assignment.
  rewrite erase_assignment_keys.
  destruct (decide _); [done|].
  unfold erase_database. simpl. by rewrite fmap_app.
Qed.

Lemma sim_update_contest_assignment c u f :
  (forall a, f (erase_assignment a) = erase_assignment (f a)) ->
  simulates eq (run (update_contest_assignment c u f))
               (run (update_contest_assignment c u f)).
Proof.
  intros Hf. apply sim_run. intros d. unfold update_contest_assignment, erase_database.
  simpl. unfold set_contest_assignments. simpl. f_equal. rewrite <- !list_fmap_compose.
  apply Forall_fmap_ext_1, Forall_forall. intros a _. simpl.
  change (assignment_key (erase_assignment a)) with (assignment_key a).
  destruct (decide _); [by rewrite Hf|done].
Qed.

Lemma sim_delete_contest_assignments c ids :
  simulates eq (run (delete_contest_assignments c ids))
               (run (delete_contest_assignments c ids)).
Proof.
  apply sim_run. intros d. unfold delete_contest_assignments, erase_database. simpl.
  unfold set_contest_assignments. simpl. f_equal. by apply filter_fmap_compat.
Qed.

Lemma sim_insert_contest_week r :
  simulates eq (run (insert_contest_week r)) (run (insert_contest_week r)).
Proof.
  apply sim_run. intros d. unfold insert_contest_week. simpl.
  destruct (decide _); done.
Qed.

Lemma sim_insert_contest_capture r :
  simulates eq (run (insert_contest_capture r)) (run (insert_contest_capture r)).
Proof. apply sim_run. intros d. done. Qed.

Lemma sim_createInboxEntry recipientId senderId postId type message createdAt :
  simulates eq (createInboxEntry recipientId senderId postId type message createdAt)
               (createInboxEntry recipientId senderId postId type message createdAt).
Proof.
  unfold createInboxEntry. eapply (sim_bind eq); [apply sim_createId|].
  intros id ? <-. apply sim_run. intros d. unfold insert_inbox_message.
  rewrite erase_user_ids. change (post_ids (erase_database d)) with (post_ids d).
  destruct (decide _); done.
Qed.

Lemma sim_shuffle_from {A} i : forall copy : list A,
  simulates eq (shuffle_from i copy) (shuffle_from i copy).
Proof.
  induction i as [|i IH]; intros copy; simpl.
  - by apply sim_ret.
  - eapply (sim_bind eq); [apply sim_Math_random|]. intros r ? <-. apply IH.
Qed.

Lemma sim_join_from c now toAssign : forall hc gc,
  simulates eq (join_from c now toAssign hc gc) (join_from c now toAssign hc gc).
Proof.
  induction toAssign as [|p l IH]; intros hc gc; simpl.
  - by apply sim_ret.
  - eapply (sim_bind eq); [apply sim_insert_contest_assignment|]. intros _ _ _.
    destruct (decide _); apply IH.
Qed.

Lemma sim_syncContestAssignments c :
  simulates eq (syncContestAssignments c) (syncContestAssignments c).
Proof.
  unfold syncContestAssignments.
  eapply (sim_bind eq); [apply (sim_query eq), erase_select_user_ids|]. intros participants ? <-.
  eapply (sim_bind eq); [apply (sim_query eq), erase_select_user_ids|]. intros bekandid ? <-.
  eapply (sim_bind eq).
  { destruct (decide _); [by apply sim_ret|apply sim_delete_contest_assignments]. }
  intros _ _ _.
  eapply (sim_bind (fun l1 l2 => l1 = erase_assignment <$> l2)).
  { apply sim_query, erase_select_assignments. }
  intros existing1 existing ->.
  assert (Hids : ContestAssignments.user_id <$> (erase_assignment <$> existing)
                 = ContestAssignments.user_id <$> existing).
  { rewrite <- list_fmap_compose. apply Forall_fmap_ext_1, Forall_forall. done. }
  rewrite Hids.
  destruct (decide (existing = [])) as [->|Hne].
  - simpl. eapply (sim_bind eq); [apply sim_shuffle_from|]. intros shuffled ? <-.
    eapply (sim_bind eq); [apply sim_Date_now|]. intros now ? <-.
    eapply (sim_bind eq); [|intros _ _ _]; apply sim_for_of; intros p;
      apply sim_insert_contest_assignment.
  - rewrite decide_False by (intros E; apply fmap_nil_inv in E; done).
    rewrite !(filter_fmap_compat erase_assignment _
                (fun row => ContestAssignments.role row = _)) by done.
    rewrite !length_fmap.
    eapply (sim_bind eq); [apply sim_Date_now|]. intros now ? <-.
    apply sim_join_from.
Qed.

Lemma sim_ensureActiveContest : simulates eq ensureActiveContest ensureActiveContest.
Proof.
  unfold ensureActiveContest.
  eapply (sim_bind eq); [apply sim_Date_now|]. intros now ? <-.
  eapply (sim_bind eq); [apply (sim_query eq); intros d; reflexivity|]. intros found ? <-.
  eapply (sim_bind eq).
  { destruct found; [by apply sim_ret|].
    eapply (sim_bind eq); [apply sim_createId|]. intros id ? <-.
    eapply (sim_bind eq); [apply sim_Math_random|]. intros r ? <-.
    eapply (sim_bind eq); [apply sim_insert_contest_week|]. intros _ _ _.
    by apply sim_ret. }
  intros contest ? <-.
  eapply (sim_bind eq); [apply sim_syncContestAssignments|]. intros _ _ _.
  by apply sim_ret.
Qed.

Lemma sim_handleContestCapture hunterId ghostId postId challenge :
  simulates eq (handleContestCapture hunterId ghostId postId challenge)
               (handleContestCapture hunterId ghostId postId challenge).
Proof.
  unfold handleContestCapture.
  eapply (sim_bind eq); [apply sim_ensureActiveContest|]. intros contest ? <-.
  destruct (decide _); [apply sim_throw|].
  eapply (sim_bind (fun a1 a2 => a1 = erase_assignment <$> a2)).
  { apply sim_query, erase_get_assignment. }
  intros h1 hunterAssignment ->.
  eapply (sim_bind (fun a1 a2 => a1 = erase_assignment <$> a2)).
  { apply sim_query, erase_get_assignment. }
  intros g1 ghostAssignment ->.
  assert (Hrole : forall role a, is_role role (erase_assignment <$> a) <-> is_role role a).
  { intros role [a|]; done. }
  destruct (decide (¬ is_role "hunter" hunterAssignment)) as [Hh|Hh].
  { rewrite decide_True by (by rewrite Hrole). apply sim_throw. }
  rewrite decide_False by (by rewrite Hrole).
  destruct (decide (¬ is_role "ghost" ghostAssignment)) as [Hg|Hg].
  { rewrite decide_True by (by rewrite Hrole). apply sim_throw. }
  rewrite decide_False by (by rewrite Hrole).
  eapply (sim_bind eq); [apply sim_Date_now|]. intros now ? <-.
  eapply (sim_bind eq); [apply sim_createId|]. intros id ? <-.
  eapply (sim_bind eq); [apply sim_insert_contest_capture|]. intros _ _ _.
  eapply (sim_bind eq); [by apply sim_update_contest_assignment|]. intros _ _ _.
  eapply (sim_bind eq); [by apply sim_update_contest_assignment|]. intros _ _ _.
  eapply (sim_bind eq); [apply sim_createInboxEntry|]. intros _ _ _.
  apply sim_createInboxEntry.
Qed.

End Simulation.

Module CaptureLocations.
Import Simulation.


End CaptureLocations.

Module CaptureExamples.
Import Sample CaptureLocations.

(** Nobody has reported a location, and the capture is recorded. *)
Lemma capture_without_any_location :
  users (db (erase_locations hunting))
    = [user "ari" "Ari Castillo" 0 None None; user "mina" "Mina Patel" 0 None None;
       user "devon" "Devon Blake" 1 None None] /\
  exists w',
    post_api_posts "ari" (capture_request "Capture them eating") (erase_locations hunting)
      = Returned (ok 201) w' /\
    ContestCaptures.ghost_id <$> contest_captures (db w') = ["mina"%string] /\
    ContestAssignments.captures <$> get_assignment "week" "ari" (db w') = Some 1.
Proof.
  split; [vm_compute; reflexivity|].
  eexists. split; [vm_compute; reflexivity|]. split; vm_compute; reflexivity.
Qed.


End CaptureExamples.

Module CaptureSuccess.
Import WorldFacts Hoare CaptureFacts LocationFacts.

(** The success path of a capture. When the claimed challenge is the
    week's, the submitter holds a hunter row and the target a ghost row, the
    capture is recorded whatever the ghost's [survival_flag] is: a capture
    row is appended, the hunter's count grows by one, the ghost's flag
    becomes 0 and the two capture notifications are written; users, posts
    and contest weeks are left as [ensureActiveContest] left them. *)
Theorem capture_recorded_for_any_ghost
    (hunterId ghostId postId challenge : string) (w w1 : world)
    (contest : ContestWeeks.row) (h g : ContestAssignments.row) :
  ensureActiveContest w = Returned contest w1 ->
  ContestWeeks.challenge contest = challenge ->
  get_assignment (ContestWeeks.id contest) hunterId (db w1) = Some h ->
  ContestAssignments.role h = "hunter"%string ->
  get_assignment (ContestWeeks.id contest) ghostId (db w1) = Some g ->
  ContestAssignments.role g = "ghost"%string ->
  hunterId ∈ user_ids (db w1) -> ghostId ∈ user_ids (db w1) ->
  postId ∈ post_ids (db w1) ->
  exists w',
    handleContestCapture hunterId ghostId postId challenge w = Returned tt w' /\
    contest_captures (db w')
    = contest_captures (db w1) ++
      [ {| ContestCaptures.id := uuids w1 (minted w1);
           ContestCaptures.contest_id := ContestWeeks.id contest;
           ContestCaptures.hunter_id := hunterId;
           ContestCaptures.ghost_id := ghostId;
           ContestCaptures.post_id := postId;
           ContestCaptures.challenge := challenge;
           ContestCaptures.created_at := clock w1 (ticks w1) |} ] /\
    get_assignment (ContestWeeks.id contest) hunterId (db w') = Some (add_capture h) /\
    get_assignment (ContestWeeks.id contest) ghostId (db w') = Some (set_captured g) /\
    InboxMessages.type <$> inbox_messages (db w')
    = (InboxMessages.type <$> inbox_messages (db w1))
      ++ ["contest_capture"; "contest_captured"]%string /\
    InboxMessages.recipient_id <$> inbox_messages (db w')
    = (InboxMessages.recipient_id <$> inbox_messages (db w1)) ++ [hunterId; ghostId] /\
    users (db w') = users (db w1) /\ posts (db w') = posts (db w1) /\
    contest_weeks (db w') = contest_weeks (db w1).
Proof.
  intros E Hch Hh Hhr Hg Hgr Hhu Hgu Hp.
  assert (Hne : hunterId <> ghostId).
  { intros ->. rewrite Hh in Hg. injection Hg as ->. rewrite Hhr in Hgr. discriminate. }
  unfold handleContestCapture.
  erewrite bind_Returned by exact E. cbv beta.
  rewrite decide_False by (intros Hn; by apply Hn).
  step. step. rewrite Hh, Hg.
  rewrite decide_False by (intros Hn; by apply Hn).
  rewrite decide_False by (intros Hn; by apply Hn).
  step. step.
  erewrite bind_Returned by (by apply run_inl). cbv beta.
  erewrite bind_Returned by (by apply run_inl). cbv beta.
  erewrite bind_Returned by (by apply run_inl). cbv beta.
  erewrite bind_Returned; last first.
  { apply createInboxEntry_eq. project_db. simpl. done. }
  cbv beta.
  rewrite createInboxEntry_eq by (project_db; simpl; done).
  eexists. split; [reflexivity|].
  project_db. simpl.
  split; [reflexivity|].
  unfold get_assignment in *. project_db. simpl.
  split.
  { rewrite find_after_update_other by done.
    rewrite find_after_update by done. by rewrite Hh. }
  split.
  { rewrite find_after_update by done.
    rewrite find_after_update_other by done. by rewrite Hg. }
  split; [by rewrite <- app_assoc, !fmap_app|].
  split; [by rewrite <- app_assoc, !fmap_app|].
  done.
Qed.

End CaptureSuccess.

Module CaptureSuccessExamples.
Import Sample CaptureSuccess.

(** Ari captures Mina a second time. *)
Lemma capture_recorded_for_captured_ghost :
  ContestAssignments.survival_flag <$> get_assignment "week" "mina" (db captured) = Some 0 /\
  exists w',
    handleContestCapture "ari" "mina" "uuid-5" "Capture them eating"
      (after_post "ari" (capture_request "Capture them eating") captured)
    = Returned tt w' /\
    ContestCaptures.ghost_id <$> contest_captures (db w') = ["mina"; "mina"]%string /\
    ContestAssignments.captures <$> get_assignment "week" "ari" (db w') = Some 2.
Proof.
  split; [vm_compute; reflexivity|].
  destruct (capture_recorded_for_any_ghost "ari" "mina" "uuid-5" "Capture them eating"
              (after_post "ari" (capture_request "Capture them eating") captured)
              (advance 2 0 0 (after_post "ari" (capture_request "Capture them eating") captured))
              week
              (assignment "ari" "hunter" 1 1 0 None None (Some week_starts))
              (assignment "mina" "ghost" 0 0 0 None None (Some week_starts)))
    as (w' & Hrun & Hcap & Hh & _).
  - vm_compute; reflexivity.
  - reflexivity.
  - vm_compute; reflexivity.
  - reflexivity.
  - vm_compute; reflexivity.
  - reflexivity.
  - vm_compute. repeat constructor.
  - vm_compute. repeat constructor.
  - vm_compute. repeat constructor.
  - exists w'. split; [exact Hrun|]. split.
    + rewrite Hcap. vm_compute; reflexivity.
    + exact (f_equal (fmap ContestAssignments.captures) Hh).
Defined.

End CaptureSuccessExamples.

Module JoinFacts.
Import WorldFacts SyncFacts.

Lemma count_role_app role l l' :
  count_role role (l ++ l') = (count_role role l + count_role role l')%nat.
Proof. unfold count_role. by rewrite filter_app, length_app. Qed.

Lemma count_role_new c p role role' now :
  count_role role' [new_assignment c p role now] = if decide (role = role') then 1%nat else 0%nat.
Proof.
  unfold count_role. destruct (decide (role = role')) as [->|Hne].
  - by rewrite filter_cons_True.
  - by rewrite filter_cons_False.
Qed.

Lemma join_from_balance c now toAssign : forall hunterCount ghostCount w,
  NoDup toAssign ->
  (forall p, p ∈ toAssign -> (c, p) ∉ assignment_keys (db w)) ->
  exists added,
    join_from c now toAssign hunterCount ghostCount w
    = Returned tt (with_assignments (contest_assignments (db w) ++ added) w) /\
    ContestAssignments.user_id <$> added = toAssign /\
    head added
    = (fun p => new_assignment c p (minority_role hunterCount ghostCount) now)
        <$> head toAssign /\
    in_contest c added = added /\
    (count_role "hunter" added + count_role "ghost" added = length toAssign)%nat /\
    Z.min (Z.of_nat hunterCount - Z.of_nat ghostCount) 0
    <= Z.of_nat (hunterCount + count_role "hunter" added)
       - Z.of_nat (ghostCount + count_role "ghost" added)
    <= Z.max (Z.of_nat hunterCount - Z.of_nat ghostCount) 1.
Proof.
  induction toAssign as [|p l IH]; intros hc gc w Hnd Hfresh.
  - exists []. simpl. unfold ret. rewrite app_nil_r, with_assignments_id.
    repeat split; try done; unfold count_role; simpl; lia.
  - apply NoDup_cons in Hnd as [Hp Hnd]. simpl.
    fold (minority_role hc gc).
    set (r := new_assignment c p (minority_role hc gc) now).
    assert (Hnext : forall q, q ∈ l ->
      (c, q) ∉ assignment_keys (db (with_assignments (contest_assignments (db w) ++ [r]) w))).
    { intros q Hq. unfold assignment_keys. simpl. rewrite fmap_app.
      intros [Hin|Hin]%elem_of_app.
      - eapply Hfresh; [right; exact Hq|exact Hin].
      - apply list_elem_of_singleton in Hin. injection Hin as ->. done. }
    erewrite bind_Returned; last first.
    { apply run_insert_fresh. apply Hfresh. left. }
    assert (Hin : in_contest c [r] = [r]) by (unfold in_contest; by rewrite filter_cons_True).
    unfold minority_role in *.
    destruct (Nat.leb_spec hc gc) as [Hle|Hgt].
    + rewrite decide_True by done.
      destruct (IH (hc + 1)%nat gc _ Hnd Hnext)
        as (added & -> & Hids & _ & Hc & Hlen & Hbal).
      exists (r :: added).
      split; [simpl; by rewrite <- app_assoc|].
      split; [by rewrite fmap_cons, Hids|].
      split; [done|].
      split. { change (r :: added) with ([r] ++ added). unfold in_contest in *.
               by rewrite filter_app, Hin, Hc. }
      change (r :: added) with ([r] ++ added). rewrite !count_role_app.
      unfold r. rewrite !count_role_new.
      rewrite decide_True by done. rewrite decide_False by done.
      simpl length. split; lia.
    + rewrite decide_False by done.
      destruct (IH hc (gc + 1)%nat _ Hnd Hnext)
        as (added & -> & Hids & _ & Hc & Hlen & Hbal).
      exists (r :: added).
      split; [simpl; by rewrite <- app_assoc|].
      split; [by rewrite fmap_cons, Hids|].
      split; [done|].
      split. { change (r :: added) with ([r] ++ added). unfold in_contest in *.
               by rewrite filter_app, Hin, Hc. }
      change (r :: added) with ([r] ++ added). rewrite !count_role_app.
      unfold r. rewrite !count_role_new.
      rewrite decide_False by done. rewrite decide_True by done.
      simpl length. split; lia.
Qed.

End JoinFacts.

Module JoinTheorems.
Import WorldFacts SyncFacts JoinFacts.


End JoinTheorems.

Module JoinExamples.
Import Sample JoinTheorems.


End JoinExamples.

Module RegistryTheorems.
Import WorldFacts ShuffleFacts SyncFacts SyncInvariant CaptureFacts ScanFacts.

Local Opaque getContestWindow.

Lemma random_challenge r :
  (0 <= r)%Q -> (r < 1)%Q ->
  default ""%string
    (CONTEST_CHALLENGES !!
       Z.to_nat (Math_floor (r * inject_Z (Z.of_nat (length CONTEST_CHALLENGES)))))
  ∈ CONTEST_CHALLENGES.
Proof.
  intros H0 H1.
  pose proof (random_index_range r (Z.of_nat (length CONTEST_CHALLENGES)) H0 H1) as Hi.
  destruct (CONTEST_CHALLENGES !! _) as [s|] eqn:E.
  - simpl. by eapply list_elem_of_lookup_2.
  - apply lookup_ge_None in E. simpl length in *. lia.
Qed.

(** The shuffle always returns, with a permutation of its argument; it
    reads one random number per element but the first and writes nothing. *)
Theorem shuffle_returns_permutation {A} (array : list A) (w : world) :
  exists shuffled w',
    shuffle array w = Returned shuffled w' /\
    shuffled ≡ₚ array /\ length shuffled = length array /\
    db w' = db w /\ draws w' = (length array - 1 + draws w)%nat.
Proof.
  destruct (shuffle_spec array w) as (shuffled & Hrun & Hperm).
  exists shuffled, (advance 0 (length array - 1) 0 w).
  split; [exact Hrun|]. split; [exact Hperm|]. split; [by rewrite Hperm|]. done.
Qed.


End RegistryTheorems.

Module OutsiderTheorems.
Import WorldFacts CaptureFacts.

Section Outsider.
Context `{JsMath}.

(** A location update of a user who holds no assignment in the active week
    does nothing beyond what [ensureActiveContest] did. *)
Theorem location_update_of_outsider (userId : string) (lat lng : Q) (w w1 : world)
    (contest : ContestWeeks.row) :
  ensureActiveContest w = Returned contest w1 ->
  get_assignment (ContestWeeks.id contest) userId (db w1) = None ->
  handleContestLocationUpdate userId lat lng w = Returned tt w1.
Proof.
  intros E Ha. unfold handleContestLocationUpdate.
  erewrite bind_Returned by exact E. cbv beta.
  step. rewrite Ha. reflexivity.
Qed.

End Outsider.
End OutsiderTheorems.

Module RegistryExamples.
Import Sample RegistryTheorems OutsiderTheorems.


(** Devon has opted out: his location updates leave the contest alone. *)
Lemma location_update_of_outsider_witness :
  @handleContestLocationUpdate RationalMath.instance "devon" mina_lat mina_lng stationary
  = Returned tt (advance 2 0 0 stationary).
Proof.
  apply (@location_update_of_outsider RationalMath.instance "devon" mina_lat mina_lng
           stationary (advance 2 0 0 stationary) week).
  - vm_compute; reflexivity.
  - vm_compute; reflexivity.
Defined.

End RegistryExamples.

Module WindowTheorems.
Import JsDate JsDateFacts.

(** The contest windows tile the time line.  The window of an instant
    contains it; every instant of a window has that window; the window of
    the instant at which one window ends is the next one, which starts
    there; and windows come in the order of their instants. *)
Theorem contest_windows_tile_time :
  (forall t, startsAt (getContestWindow t) <= t < endsAt (getContestWindow t)) /\
  (forall t t',
     startsAt (getContestWindow t) <= t' < endsAt (getContestWindow t) ->
     getContestWindow t' = getContestWindow t) /\
  (forall t,
     getContestWindow (endsAt (getContestWindow t))
     = {| startsAt := endsAt (getContestWindow t);
          endsAt := endsAt (getContestWindow t) + CONTEST_DURATION_MS |}) /\
  (forall t t', t <= t' ->
     startsAt (getContestWindow t) <= startsAt (getContestWindow t')).
Proof.
  assert (Hsame : forall s t, contest_start s -> s <= t < s + 7 * msPerDay ->
                              week_start t = s).
  { intros s t Hs Ht. destruct (week_start_spec t) as [Hw Hr].
    apply contest_start_iff in Hs as [k ->].
    apply contest_start_iff in Hw as [k' E]. rewrite E in *.
    unfold msPerDay, msPerHour in *. lia. }
  split; [|split; [|split]].
  - intros t. rewrite getContestWindow_eq. simpl. apply week_start_spec.
  - intros t t'. rewrite !getContestWindow_eq. simpl. intros Ht'.
    destruct (week_start_spec t) as [Hw _].
    by rewrite (Hsame _ t' Hw Ht').
  - intros t. rewrite !getContestWindow_eq. simpl.
    destruct (week_start_spec t) as [Hw _].
    assert (Hnext : contest_start (week_start t + 7 * msPerDay)).
    { apply contest_start_iff in Hw as [k ->]. apply contest_start_iff.
      exists (k + 1). unfold msPerDay, msPerHour. lia. }
    rewrite (Hsame _ _ Hnext) by (unfold msPerDay; lia).
    reflexivity.
  - intros t t' Hle. rewrite !getContestWindow_eq. simpl.
    destruct (week_start_spec t) as [Hw Hr].
    destruct (week_start_spec t') as [Hw' Hr'].
    apply contest_start_iff in Hw as [k E]. apply contest_start_iff in Hw' as [k' E'].
    rewrite E, E' in *. unfold msPerDay, msPerHour in *. lia.
Qed.

(** Monday 2026-11-02 at noon UTC and the Saturday after it belong to the
    week that started on Sunday 2026-11-01 at 20:00 UTC. *)
Lemma contest_windows_tile_time_witness :
  getContestWindow 1794052800000 = getContestWindow 1793620800000.
Proof.
  apply (proj1 (proj2 contest_windows_tile_time) 1793620800000 1794052800000).
  vm_compute. split; [discriminate|reflexivity].
Defined.

End WindowTheorems.

Module CaptureRejections.
Import WorldFacts Hoare CaptureFacts ScanFacts.

(** What [POST /api/posts] answers when the capture it carries is refused:
    the status and the message of the error, in the world where it was
    thrown. *)
Lemma post_api_posts_refused userId body w e w1 code :
  recipientId body <> ""%string -> image body <> ""%string ->
  contestCapture body = true ->
  userId ∈ user_ids (db w) -> recipientId body ∈ user_ids (db w) ->
  handleContestCapture userId (recipientId body) (uuids w (minted w))
    (default ""%string (contestChallenge body)) (after_post userId body w)
  = Thrown e w1 ->
  statusCode e = Some code -> code <> 0 ->
  post_api_posts userId body w = Returned (failed code (error_message e)) w1.
Proof.
  intros Hr Hi Hc Hu Hrec Hthrow Hcode Hnz.
  unfold post_api_posts, try_catch.
  destruct (decide _) as [[?|?]|_]; [done|done|].
  step. step.
  erewrite bind_Returned; last first.
  { apply run_inl. unfold insert_post. apply decide_True. simpl. done. }
  step.
  erewrite bind_Returned; last first.
  { apply createInboxEntry_eq. simpl. repeat split; try done.
    unfold post_ids. simpl. rewrite fmap_app. apply elem_of_app. right. left. }
  rewrite Hc.
  erewrite bind_Thrown by exact Hthrow.
  rewrite Hcode. destruct (Z.eqb_spec code 0); [done|reflexivity].
Qed.

Lemma capture_not_a_hunter hunterId ghostId postId challenge w w1 contest :
  ensureActiveContest w = Returned contest w1 ->
  ContestWeeks.challenge contest = challenge ->
  ~ is_role "hunter" (get_assignment (ContestWeeks.id contest) hunterId (db w1)) ->
  handleContestCapture hunterId ghostId postId challenge w = Thrown not_a_hunter w1.
Proof.
  intros E Hch Hh. unfold handleContestCapture.
  erewrite bind_Returned by exact E. cbv beta.
  rewrite decide_False by (intros Hn; by apply Hn).
  step. step. by rewrite decide_True.
Qed.

Lemma capture_not_a_ghost hunterId ghostId postId challenge w w1 contest :
  ensureActiveContest w = Returned contest w1 ->
  ContestWeeks.challenge contest = challenge ->
  is_role "hunter" (get_assignment (ContestWeeks.id contest) hunterId (db w1)) ->
  ~ is_role "ghost" (get_assignment (ContestWeeks.id contest) ghostId (db w1)) ->
  handleContestCapture hunterId ghostId postId challenge w
  = Thrown not_an_active_ghost w1.
Proof.
  intros E Hch Hh Hg. unfold handleContestCapture.
  erewrite bind_Returned by exact E. cbv beta.
  rewrite decide_False by (intros Hn; by apply Hn).
  step. step.
  rewrite decide_False by (intros Hn; by apply Hn).
  by rewrite decide_True.
Qed.

(** Only hunters capture.  When the claimed challenge is the week's and the
    submitter holds no hunter row in the active week (no row at all, or a
    ghost's), the capture is refused with "Only hunters can submit contest
    captures.", whatever the target is; the handler has written nothing,
    and the route answers 400 with the post and its drop left behind. *)
Theorem capture_by_non_hunter_refused :
  (forall (hunterId ghostId postId challenge : string) (w w1 : world) contest,
     ensureActiveContest w = Returned contest w1 ->
     ContestWeeks.challenge contest = challenge ->
     ~ is_role "hunter" (get_assignment (ContestWeeks.id contest) hunterId (db w1)) ->
     handleContestCapture hunterId ghostId postId challenge w = Thrown not_a_hunter w1 /\
     users (db w1) = users (db w) /\ posts (db w1) = posts (db w) /\
     inbox_messages (db w1) = inbox_messages (db w) /\
     contest_captures (db w1) = contest_captures (db w)) /\
  (forall (userId : string) (body : post_request) (w w1 : world) contest,
     recipientId body <> ""%string -> image body <> ""%string ->
     contestCapture body = true ->
     userId ∈ user_ids (db w) -> recipientId body ∈ user_ids (db w) ->
     ensureActiveContest (after_post userId body w) = Returned contest w1 ->
     ContestWeeks.challenge contest = default ""%string (contestChallenge body) ->
     ~ is_role "hunter" (get_assignment (ContestWeeks.id contest) userId (db w1)) ->
     post_api_posts userId body w
       = Returned (failed 400 "Only hunters can submit contest captures.") w1 /\
     posts (db w1) = posts (db w) ++ [posted_row userId body w] /\
     inbox_messages (db w1) = inbox_messages (db w) ++ [dropped_row userId body w] /\
     contest_captures (db w1) = contest_captures (db w)).
Proof.
  split.
  - intros h g p ch w w1 contest E Hch Hh.
    split; [by eapply capture_not_a_hunter|].
    by eapply ensureActiveContest_frame_Returned.
  - intros userId body w w1 contest Hr Hi Hc Hu Hrec E Hch Hh.
    destruct (ensureActiveContest_frame_Returned _ _ _ E) as (F1 & F2 & F3 & F4).
    split; [|by rewrite F2, F3, F4].
    eapply (post_api_posts_refused userId body w not_a_hunter w1 400); try done.
    by eapply capture_not_a_hunter.
Qed.

(** Only ghosts are captured.  When the challenge is the week's and the
    submitter is a hunter, a target that holds no ghost row in the active
    week (no row, as an opted-out user, or a hunter's row) is refused with
    "Target is not an active ghost."; the handler has written nothing, and
    the route answers 400 with the post and its drop left behind. *)
Theorem capture_of_non_ghost_refused :
  (forall (hunterId ghostId postId challenge : string) (w w1 : world) contest,
     ensureActiveContest w = Returned contest w1 ->
     ContestWeeks.challenge contest = challenge ->
     is_role "hunter" (get_assignment (ContestWeeks.id contest) hunterId (db w1)) ->
     ~ is_role "ghost" (get_assignment (ContestWeeks.id contest) ghostId (db w1)) ->
     handleContestCapture hunterId ghostId postId challenge w
       = Thrown not_an_active_ghost w1 /\
     users (db w1) = users (db w) /\ posts (db w1) = posts (db w) /\
     inbox_messages (db w1) = inbox_messages (db w) /\
     contest_captures (db w1) = contest_captures (db w)) /\
  (forall (userId : string) (body : post_request) (w w1 : world) contest,
     recipientId body <> ""%string -> image body <> ""%string ->
     contestCapture body = true ->
     userId ∈ user_ids (db w) -> recipientId body ∈ user_ids (db w) ->
     ensureActiveContest (after_post userId body w) = Returned contest w1 ->
     ContestWeeks.challenge contest = default ""%string (contestChallenge body) ->
     is_role "hunter" (get_assignment (ContestWeeks.id contest) userId (db w1)) ->
     ~ is_role "ghost"
         (get_assignment (ContestWeeks.id contest) (recipientId body) (db w1)) ->
     post_api_posts userId body w
       = Returned (failed 400 "Target is not an active ghost.") w1 /\
     posts (db w1) = posts (db w) ++ [posted_row userId body w] /\
     inbox_messages (db w1) = inbox_messages (db w) ++ [dropped_row userId body w] /\
     contest_captures (db w1) = contest_captures (db w)).
Proof.
  split.
  - intros h g p ch w w1 contest E Hch Hh Hg.
    split; [by eapply capture_not_a_ghost|].
    by eapply ensureActiveContest_frame_Returned.
  - intros userId body w w1 contest Hr Hi Hc Hu Hrec E Hch Hh Hg.
    destruct (ensureActiveContest_frame_Returned _ _ _ E) as (F1 & F2 & F3 & F4).
    split; [|by rewrite F2, F3, F4].
    eapply (post_api_posts_refused userId body w not_an_active_ghost w1 400); try done.
    by eapply capture_not_a_ghost.
Qed.

Lemma capture_mismatch hunterId ghostId postId challenge w w1 contest :
  ensureActiveContest w = Returned contest w1 ->
  ContestWeeks.challenge contest <> challenge ->
  handleContestCapture hunterId ghostId postId challenge w = Thrown challenge_mismatch w1.
Proof.
  intros E Hne. unfold handleContestCapture.
  erewrite bind_Returned by exact E. cbv beta. by rewrite decide_True.
Qed.


End CaptureRejections.

Module CaptureRejectionExamples.
Import Sample CaptureRejections.

(** Mina, a ghost, tries to capture Ari. *)
Lemma capture_by_non_hunter_witness :
  exists w1,
    handleContestCapture "mina" "ari" "uuid-0" "Capture them eating" hunting
    = Thrown not_a_hunter w1 /\
    contest_captures (db w1) = [].
Proof.
  destruct (proj1 capture_by_non_hunter_refused "mina" "ari" "uuid-0" "Capture them eating"
              hunting (advance 2 0 0 hunting) week)
    as (Hrun & _ & _ & _ & Hcap).
  - vm_compute; reflexivity.
  - reflexivity.
  - vm_compute. discriminate.
  - exists (advance 2 0 0 hunting). split; [exact Hrun|]. rewrite Hcap. reflexivity.
Defined.

(** Ari, a hunter, tries to capture Devon, who has opted out. *)
Lemma capture_of_non_ghost_witness :
  exists w1,
    handleContestCapture "ari" "devon" "uuid-0" "Capture them eating" hunting
    = Thrown not_an_active_ghost w1 /\
    contest_captures (db w1) = [].
Proof.
  destruct (proj1 capture_of_non_ghost_refused "ari" "devon" "uuid-0" "Capture them eating"
              hunting (advance 2 0 0 hunting) week)
    as (Hrun & _ & _ & _ & Hcap).
  - vm_compute; reflexivity.
  - reflexivity.
  - vm_compute. reflexivity.
  - vm_compute. intros [].
  - exists (advance 2 0 0 hunting). split; [exact Hrun|]. rewrite Hcap. reflexivity.
Defined.


End CaptureRejectionExamples.

Module RejoinFacts.
Import WorldFacts SyncFacts SyncInvariant CaptureFacts ScanFacts.

Local Opaque getContestWindow.

Lemma filter_filter_implied {A} (P Q : A -> Prop)
    `{!forall x, Decision (P x)} `{!forall x, Decision (Q x)} (l : list A) :
  (forall x, x ∈ l -> P x -> Q x) -> filter P (filter Q l) = filter P l.
Proof.
  induction l as [|x l IH]; intros HPQ; [done|].
  assert (IH' : filter P (filter Q l) = filter P l).
  { apply IH. intros y Hy. apply HPQ. by right. }
  destruct (decide (Q x)) as [HQ|HQ].
  - rewrite (filter_cons_True Q) by done.
    destruct (decide (P x)).
    + rewrite !filter_cons_True by done. by rewrite IH'.
    + rewrite !filter_cons_False by done. exact IH'.
  - rewrite (filter_cons_False Q) by done.
    rewrite filter_cons_False; [exact IH'|].
    intros HP. apply HQ. apply HPQ; [left|done].
Qed.

(** What a sync does to the row of one user. *)
Lemma sync_rows c w :
  NoDup (user_ids (db w)) ->
  exists w',
    syncContestAssignments c w = Returned tt w' /\
    users (db w') = users (db w) /\ contest_weeks (db w') = contest_weeks (db w) /\
    contest_captures (db w') = contest_captures (db w) /\
    clock w' = clock w /\ ticks w' = S (ticks w) /\
    (forall u, u ∈ select_user_ids_where_bekandid 1 (db w) ->
       get_assignment c u (db w') = None) /\
    (forall u a, u ∈ select_user_ids_where_bekandid 0 (db w) ->
       get_assignment c u (db w) = Some a -> get_assignment c u (db w') = Some a) /\
    (forall u, u ∈ select_user_ids_where_bekandid 0 (db w) ->
       get_assignment c u (db w) = None ->
       exists a, get_assignment c u (db w') = Some a /\
                 ContestAssignments.user_id a = u /\
                 fresh_assignment c (clock w (ticks w)) a).
Proof.
  intros Hu.
  destruct (syncContestAssignments_spec c w Hu) as (added & k & Hrun & Hids & Hfresh & _).
  eexists. split; [exact Hrun|].
  split; [reflexivity|]. split; [reflexivity|]. split; [reflexivity|].
  split; [reflexivity|]. split; [reflexivity|].
  unfold get_assignment. cbn [db with_assignments with_db advance contest_assignments
                              set_contest_assignments].
  assert (Hadded : forall a, a ∈ added ->
            ContestAssignments.contest_id a = c /\
            ContestAssignments.user_id a ∈ select_user_ids_where_bekandid 0 (db w) /\
            ContestAssignments.user_id a
              ∉ (ContestAssignments.user_id <$> in_contest c (retained c (db w)))).
  { intros a Ha. rewrite Forall_forall in Hfresh.
    destruct (Hfresh a Ha) as (role & _ & Eq). split; [by rewrite Eq|].
    assert (ContestAssignments.user_id a ∈ ContestAssignments.user_id <$> added) as Hin
      by (by apply list_elem_of_fmap_2).
    rewrite Hids in Hin. apply list_elem_of_filter in Hin as [? ?]. done. }
  split; [|split].
  - intros u Hout. rewrite filter_app.
    rewrite (filter_none _ (retained c (db w))).
    + rewrite (filter_none _ added); [done|].
      intros a Ha Hk. destruct (Hadded a Ha) as (_ & Hel & _).
      injection Hk as _ <-. by eapply eligible_not_opted_out.
    + intros a [Hkeep _]%list_elem_of_filter Hk. apply Hkeep.
      injection Hk as -> <-. done.
  - intros u a Hel Hget. rewrite filter_app. unfold retained at 1.
    rewrite (filter_filter_implied _ _ (contest_assignments (db w))).
    + destruct (filter _ (contest_assignments (db w))); [done|]. exact Hget.
    + intros x _ Hk [_ Hb]. injection Hk as _ Hx. rewrite Hx in Hb.
      by eapply eligible_not_opted_out.
  - intros u Hel Hget. apply head_None in Hget. rewrite filter_app. unfold retained at 1.
    rewrite (filter_filter_implied _ _ (contest_assignments (db w))).
    2:{ intros x _ Hk [_ Hb]. injection Hk as _ Hx. rewrite Hx in Hb.
        by eapply eligible_not_opted_out. }
    rewrite Hget. simpl.
    assert (u ∈ ContestAssignments.user_id <$> added) as Hin.
    { rewrite Hids. apply list_elem_of_filter. split; [|done].
      intros (a & -> & Ha)%list_elem_of_fmap.
      apply list_elem_of_filter in Ha as [Hc Ha].
      apply list_elem_of_filter in Ha as [_ Ha].
      assert (a ∈ filter (fun a0 => assignment_key a0 = (c, ContestAssignments.user_id a))
                     (contest_assignments (db w))) as Hbad.
      { apply list_elem_of_filter. split; [|done]. unfold assignment_key. by rewrite Hc. }
      rewrite Hget in Hbad. by apply elem_of_nil in Hbad. }
    apply list_elem_of_fmap in Hin as (a & -> & Ha).
    destruct (filter _ added) as [|a' rest] eqn:Ef.
    + assert (a ∈ filter (fun a0 => assignment_key a0 = (c, ContestAssignments.user_id a)) added)
        as Hbad.
      { apply list_elem_of_filter. split; [|done].
        destruct (Hadded a Ha) as (Hc & _). unfold assignment_key. by rewrite Hc. }
      rewrite Ef in Hbad. by apply elem_of_nil in Hbad.
    + assert (a' ∈ filter (fun a0 => assignment_key a0 = (c, ContestAssignments.user_id a)) added)
        as Hin' by (rewrite Ef; left).
      apply list_elem_of_filter in Hin' as [Hk Hin'].
      exists a'. split; [done|]. split; [by injection Hk|].
      rewrite Forall_forall in Hfresh. by apply Hfresh.
Qed.

(** [ensureActiveContest] when the week is on record. *)
Lemma ensureActiveContest_found w contest :
  get_contest_week (startsAt (getContestWindow (clock w (ticks w)))) (db w) = Some contest ->
  ensureActiveContest w
  = (syncContestAssignments (ContestWeeks.id contest) ;;; ret contest) (advance 1 0 0 w).
Proof.
  intros Hfound. unfold ensureActiveContest.
  step. step. cbn [db advance]. rewrite Hfound. reflexivity.
Qed.

Lemma ensureActiveContest_in_week w contest n :
  NoDup (user_ids (db w)) ->
  in_week contest (S (S n)) w ->
  exists w',
    ensureActiveContest w = Returned contest w' /\
    users (db w') = users (db w) /\
    contest_captures (db w') = contest_captures (db w) /\
    in_week contest n w' /\
    (forall u, u ∈ select_user_ids_where_bekandid 1 (db w) ->
       get_assignment (ContestWeeks.id contest) u (db w') = None) /\
    (forall u a, u ∈ select_user_ids_where_bekandid 0 (db w) ->
       get_assignment (ContestWeeks.id contest) u (db w) = Some a ->
       get_assignment (ContestWeeks.id contest) u (db w') = Some a) /\
    (forall u, u ∈ select_user_ids_where_bekandid 0 (db w) ->
       get_assignment (ContestWeeks.id contest) u (db w) = None ->
       exists a, get_assignment (ContestWeeks.id contest) u (db w') = Some a /\
                 ContestAssignments.user_id a = u /\
                 fresh_assignment (ContestWeeks.id contest) (clock w (S (ticks w))) a).
Proof.
  intros Hu Hweek.
  rewrite (ensureActiveContest_found w contest) by (apply (Hweek 0%nat); lia).
  destruct (sync_rows (ContestWeeks.id contest) (advance 1 0 0 w) Hu)
    as (w' & Hrun & Husers & Hweeks & Hcap & Hclock & Hticks & Hout & Hkept & Hnew).
  exists w'. split; [by erewrite bind_Returned by exact Hrun|].
  split; [exact Husers|]. split; [exact Hcap|].
  split; [|split; [exact Hout|split; [exact Hkept|exact Hnew]]].
  intros k Hk. unfold get_contest_week. rewrite Hweeks, Hclock, Hticks.
  cbn [db advance clock ticks].
  replace (k + S (1 + ticks w))%nat with (S (S k) + ticks w)%nat by lia.
  apply (Hweek (S (S k))). lia.
Qed.

Lemma in_week_users contest n l w :
  in_week contest n w -> in_week contest n (with_db (set_users l (db w)) w).
Proof. intros Hweek k Hk. exact (Hweek k Hk). Qed.

Lemma update_user_ids userId f d :
  (forall u, Users.id (f u) = Users.id u) ->
  Users.id <$> ((fun u => if decide (Users.id u = userId) then f u else u) <$> users d)
  = user_ids d.
Proof.
  intros Hf. unfold user_ids. rewrite <- list_fmap_compose.
  apply list_fmap_ext. intros i u _. simpl. destruct (decide _); [apply Hf|done].
Qed.

Lemma select_after_toggle userId flag d :
  userId ∈ user_ids d ->
  userId ∈ Users.id <$>
    filter (fun u => Users.bekandid_enabled u = flag)
      ((fun u => if decide (Users.id u = userId) then set_bekandid_enabled flag u else u)
         <$> users d).
Proof.
  intros (u & -> & Hu)%list_elem_of_fmap.
  apply list_elem_of_fmap. exists (set_bekandid_enabled flag u). split; [done|].
  apply list_elem_of_filter. split; [done|].
  apply list_elem_of_fmap. exists u. split; [|done]. by rewrite decide_True.
Qed.

(** The route, while the week lasts. *)
Lemma bekandid_in_week userId enabled w contest n :
  NoDup (user_ids (db w)) -> userId ∈ user_ids (db w) ->
  in_week contest (4 + n) w ->
  exists w',
    post_api_users_me_bekandid userId enabled w = Returned (ok 200) w' /\
    NoDup (user_ids (db w')) /\ userId ∈ user_ids (db w') /\
    contest_captures (db w') = contest_captures (db w) /\
    in_week contest n w' /\
    if enabled then get_assignment (ContestWeeks.id contest) userId (db w') = None
    else
      match get_assignment (ContestWeeks.id contest) userId (db w) with
      | Some a => get_assignment (ContestWeeks.id contest) userId (db w') = Some a
      | None =>
          exists a, get_assignment (ContestWeeks.id contest) userId (db w') = Some a /\
                    ContestAssignments.user_id a = userId /\
                    fresh_assignment (ContestWeeks.id contest) (clock w (S (ticks w))) a
      end.
Proof.
  intros Hu Hmem Hweek.
  set (flag := if enabled then 1 else 0).
  set (wa := with_db (set_users
               ((fun u => if decide (Users.id u = userId)
                          then set_bekandid_enabled flag u else u) <$> users (db w))
               (db w)) w).
  assert (Hua : user_ids (db wa) = user_ids (db w)) by (by apply update_user_ids).
  assert (Hsel : userId ∈ select_user_ids_where_bekandid flag (db wa))
    by (by apply select_after_toggle).
  destruct (ensureActiveContest_in_week wa contest (2 + n))
    as (wb & Erun & Husers & Hcap & Hweekb & Hout & Hkept & Hnew).
  { by rewrite Hua. }
  { by apply in_week_users. }
  assert (Hub : user_ids (db wb) = user_ids (db w)) by (unfold user_ids in *; by rewrite Husers).
  destruct (ensureActiveContest_in_week wb contest n)
    as (wc & Erun2 & Husers2 & Hcap2 & Hweekc & Hout2 & Hkept2 & _).
  { by rewrite Hub. }
  { exact Hweekb. }
  assert (Hselb : forall f, select_user_ids_where_bekandid f (db wb)
                            = select_user_ids_where_bekandid f (db wa)).
  { intros f. unfold select_user_ids_where_bekandid. by rewrite Husers. }
  exists wc. split.
  { unfold post_api_users_me_bekandid, try_catch.
    erewrite bind_Returned by (by apply run_inl). cbv beta.
    fold flag. fold wa.
    erewrite bind_Returned by exact Erun. cbv beta.
    unfold buildState.
    erewrite bind_Returned; last first.
    { erewrite bind_Returned by exact Erun2. reflexivity. }
    reflexivity. }
  assert (Huc : user_ids (db wc) = user_ids (db w)) by (unfold user_ids in *; by rewrite Husers2).
  split; [by rewrite Huc|]. split; [by rewrite Huc|].
  split; [by rewrite Hcap2, Hcap|]. split; [exact Hweekc|].
  destruct enabled.
  - apply Hout2. rewrite Hselb. exact Hsel.
  - change (get_assignment (ContestWeeks.id contest) userId (db w))
      with (get_assignment (ContestWeeks.id contest) userId (db wa)).
    destruct (get_assignment (ContestWeeks.id contest) userId (db wa)) as [a|] eqn:Ea.
    + apply Hkept2; [by rewrite Hselb|]. by apply Hkept.
    + destruct (Hnew userId Hsel Ea) as (a & Hget & Hid & Hfresh).
      exists a. split; [|done]. apply Hkept2; [by rewrite Hselb|exact Hget].
Qed.

End RejoinFacts.

Module RejoinTheorems.
Import RejoinFacts.


End RejoinTheorems.

Module RejoinExamples.
Import Sample RejoinTheorems.


End RejoinExamples.

Module ScanTheorems.
Import WorldFacts Hoare CaptureFacts LocationFacts HunterFacts ScanFacts AlertTheorems.

Local Opaque getContestWindow.

Lemma same_key_same_row {A K} (f : A -> K) (l : list A) x y :
  NoDup (f <$> l) -> x ∈ l -> y ∈ l -> f x = f y -> x = y.
Proof.
  intros Hnd Hx Hy Hf.
  apply list_elem_of_lookup in Hx as [i Hi]. apply list_elem_of_lookup in Hy as [j Hj].
  assert (i = j) as ->.
  { eapply NoDup_lookup; [exact Hnd| |].
    - rewrite list_lookup_fmap, Hi. reflexivity.
    - rewrite list_lookup_fmap, Hj. simpl. by rewrite Hf. }
  congruence.
Qed.

Lemma surviving_ghost_rows contestId d g :
  g ∈ select_surviving_ghosts contestId d ->
  exists ca u,
    ca ∈ contest_assignments d /\
    assignment_key ca = (contestId, GhostScan.user_id g) /\
    ContestAssignments.role ca = "ghost"%string /\
    ContestAssignments.survival_flag ca = 1 /\
    u ∈ users d /\ Users.id u = GhostScan.user_id g /\
    Users.location_lat u = GhostScan.location_lat g /\
    Users.location_lng u = GhostScan.location_lng g.
Proof.
  unfold select_surviving_ghosts.
  intros (ca & Hg & Hca)%list_elem_of_bind.
  apply list_elem_of_bind in Hg as (u & Hg & Hu).
  apply list_elem_of_singleton in Hg as ->. simpl.
  apply list_elem_of_filter in Hu as [Hid Hu].
  apply list_elem_of_filter in Hca as [(Hc & Hr & Hs) Hca].
  exists ca, u. unfold assignment_key. rewrite Hc. repeat split; try done.
Qed.

Section Scan.
Context `{JsMath}.

Lemma alert_due_located userId lat lng now d g :
  alert_due userId lat lng now d g ->
  GhostScan.location_lat g <> None /\ GhostScan.location_lng g <> None.
Proof.
  intros [Hnear _]. unfold distanceKm in Hnear.
  destruct (GhostScan.location_lat g), (GhostScan.location_lng g); done.
Qed.

(** Whom a hunter is alerted about.  Every alert that a hunter's location
    update writes is addressed to the hunter and names a player other than
    himself who holds a ghost row with [survival_flag = 1] in the active
    week and whose user row has a latitude and a longitude: a captured
    ghost, another hunter and a ghost who has never reported a position
    are never announced. *)
Theorem alerts_name_located_surviving_ghosts
    (userId : string) (lat lng : Q) (w w1 : world)
    (contest : ContestWeeks.row) (a : ContestAssignments.row) :
  NoDup (user_ids (db w)) -> NoDup (assignment_keys (db w)) ->
  userId ∈ user_ids (db w) ->
  ensureActiveContest w = Returned contest w1 ->
  get_assignment (ContestWeeks.id contest) userId (db w1) = Some a ->
  ContestAssignments.role a = "hunter"%string ->
  exists w' new,
    handleContestLocationUpdate userId lat lng w = Returned tt w' /\
    inbox_messages (db w') = inbox_messages (db w1) ++ new /\
    Forall (fun m =>
      InboxMessages.recipient_id m = userId /\
      InboxMessages.type m = "contest_alert"%string /\
      InboxMessages.sender_id m <> userId /\
      exists ca u,
        ca ∈ contest_assignments (db w1) /\
        assignment_key ca = (ContestWeeks.id contest, InboxMessages.sender_id m) /\
        ContestAssignments.role ca = "ghost"%string /\
        ContestAssignments.survival_flag ca = 1 /\
        u ∈ users (db w1) /\ Users.id u = InboxMessages.sender_id m /\
        Users.location_lat u <> None /\ Users.location_lng u <> None) new.
Proof.
  intros Hu Hk Hmem E Ha Hrole.
  destruct (hunter_update_spec userId lat lng w contest w1 a Hu Hk Hmem E Ha Hrole)
    as (w' & new & Hrun & Hinbox & Hsend & Hall).
  destruct (ensureActiveContest_keys w contest w1 E Hu Hk) as [Hu1 Hk1].
  exists w', new. split; [exact Hrun|]. split; [exact Hinbox|].
  apply Forall_forall. intros m Hm.
  rewrite Forall_forall in Hall. destruct (Hall m Hm) as (Hrec & Hty & _).
  assert (InboxMessages.sender_id m ∈ InboxMessages.sender_id <$> new) as Hin
    by (by apply list_elem_of_fmap_2).
  rewrite Hsend in Hin. apply list_elem_of_fmap in Hin as (g & Hg & Hdue).
  apply list_elem_of_filter in Hdue as [Hdue Hscan].
  destruct (surviving_ghost_rows _ _ _ Hscan)
    as (ca & u & Hca & Hkey & Hr & Hs & Hmemu & Hid & Hlat & Hlng).
  destruct (alert_due_located _ _ _ _ _ _ Hdue) as [Hlat' Hlng'].
  split; [exact Hrec|]. split; [exact Hty|]. split.
  - intros Hself. rewrite Hg in Hself.
    unfold get_assignment in Ha. apply head_Some_elem_of in Ha.
    apply list_elem_of_filter in Ha as [Hka Hina].
    assert (ca = a) as ->.
    { eapply (same_key_same_row assignment_key); [exact Hk1|exact Hca|exact Hina|].
      by rewrite Hkey, Hka, Hself. }
    rewrite Hrole in Hr. discriminate.
  - exists ca, u. rewrite Hg. repeat split; try done; congruence.
Qed.

End Scan.
End ScanTheorems.

Module ScanExamples.
Import Sample ScanTheorems.

(** Ari reports Mina's position: the one alert he gets is about Mina. *)
Lemma alerts_name_located_surviving_ghosts_witness :
  exists w',
    @handleContestLocationUpdate RationalMath.instance "ari" mina_lat mina_lng stationary
      = Returned tt w' /\
    Forall (fun m => InboxMessages.sender_id m <> "ari"%string) (inbox_messages (db w')).
Proof.
  destruct (@alerts_name_located_surviving_ghosts RationalMath.instance
              "ari" mina_lat mina_lng stationary (advance 2 0 0 stationary) week
              (assignment "ari" "hunter" 0 1 0 None None (Some week_starts)))
    as (w' & new & Hrun & Hinbox & Hall).
  - apply (bool_decide_unpack _). vm_compute. exact I.
  - apply (bool_decide_unpack _). vm_compute. exact I.
  - vm_compute. repeat constructor.
  - vm_compute; reflexivity.
  - vm_compute; reflexivity.
  - reflexivity.
  - exists w'. split; [exact Hrun|]. rewrite Hinbox. simpl.
    eapply Forall_impl; [exact Hall|]. intros m (_ & _ & Hne & _). exact Hne.
Defined.

End ScanExamples.

Module CreepFacts.
Import WorldFacts SyncFacts SyncInvariant CaptureFacts LocationFacts ScanFacts RejoinFacts.

Local Opaque getContestWindow.

Lemma in_week_frame contest n k w w' :
  contest_weeks (db w') = contest_weeks (db w) -> clock w' = clock w ->
  ticks w' = (k + ticks w)%nat ->
  in_week contest (k + n) w -> in_week contest n w'.
Proof.
  intros Hweeks Hclock Hticks Hweek i Hi. unfold get_contest_week.
  rewrite Hweeks, Hclock, Hticks.
  replace (i + (k + ticks w))%nat with ((k + i) + ticks w)%nat by lia.
  apply (Hweek (k + i)%nat). lia.
Qed.

Lemma select_after_location userId lat lng now flag d :
  Users.id <$>
    filter (fun u => Users.bekandid_enabled u = flag)
      ((fun u => if decide (Users.id u = userId) then set_user_location lat lng now u else u)
         <$> users d)
  = select_user_ids_where_bekandid flag d.
Proof.
  unfold select_user_ids_where_bekandid.
  induction (users d) as [|u l IH]; [done|].
  rewrite fmap_cons.
  assert (Hflag : Users.bekandid_enabled
            (if decide (Users.id u = userId) then set_user_location lat lng now u else u)
          = Users.bekandid_enabled u) by (by destruct (decide _)).
  assert (Hid : Users.id
            (if decide (Users.id u = userId) then set_user_location lat lng now u else u)
          = Users.id u) by (by destruct (decide _)).
  destruct (decide (Users.bekandid_enabled u = flag)) as [Hf|Hf].
  - rewrite !filter_cons_True by congruence. rewrite !fmap_cons, IH, Hid. done.
  - rewrite !filter_cons_False by congruence. exact IH.
Qed.

Section Creep.
Context `{JsMath}.

(** One report of a ghost that stays within the camping distance of the
    position recorded before, while the week lasts. *)
Lemma small_step userId lat lng w contest n a plat plng tm :
  NoDup (user_ids (db w)) ->
  userId ∈ select_user_ids_where_bekandid 0 (db w) ->
  in_week contest (6 + n) w ->
  get_assignment (ContestWeeks.id contest) userId (db w) = Some a ->
  ContestAssignments.role a = "ghost"%string ->
  ContestAssignments.last_location_lat a = Some plat ->
  ContestAssignments.last_location_lng a = Some plng ->
  ContestAssignments.last_move_at a = Some tm ->
  js_gt (distanceKm (Some plat) (Some plng) (Some lat) (Some lng))
        CONTEST_CAMPING_DISTANCE_KM = false ->
  exists w' a',
    post_api_users_me_location userId (Some lat) (Some lng) w = Returned (ok 200) w' /\
    NoDup (user_ids (db w')) /\
    userId ∈ select_user_ids_where_bekandid 0 (db w') /\
    in_week contest n w' /\
    get_assignment (ContestWeeks.id contest) userId (db w') = Some a' /\
    ContestAssignments.role a' = "ghost"%string /\
    ContestAssignments.last_location_lat a' = Some lat /\
    ContestAssignments.last_location_lng a' = Some lng /\
    ContestAssignments.last_move_at a' = Some tm /\
    (ContestAssignments.camping_violation a = 1 ->
     ContestAssignments.camping_violation a' = 1) /\
    (clock w (3 + ticks w)%nat - (if tm =? 0 then clock w (3 + ticks w)%nat else tm)
       > CONTEST_CAMPING_THRESHOLD_MS ->
     ContestAssignments.camping_violation a' = 1).
Proof.
  intros Hu Hel Hweek Hget Hrole Hplat Hplng Htm Hnear.
  set (now0 := clock w (ticks w)).
  set (wa := with_db (set_users
               ((fun u => if decide (Users.id u = userId)
                          then set_user_location lat lng now0 u else u) <$> users (db w))
               (db w)) (advance 1 0 0 w)).
  assert (Hua : user_ids (db wa) = user_ids (db w)) by (by apply update_user_ids).
  assert (Hsela : forall f, select_user_ids_where_bekandid f (db wa)
                            = select_user_ids_where_bekandid f (db w))
    by (intros f; apply select_after_location).
  assert (Hweeka : in_week contest (5 + n) wa).
  { apply (in_week_frame contest (5 + n) 1 w); try done. }
  destruct (ensureActiveContest_in_week wa contest (3 + n))
    as (wb & Erun & Husers & _ & Hweekb & _ & Hkept & _).
  { by rewrite Hua. }
  { exact Hweeka. }
  assert (Hgetb : get_assignment (ContestWeeks.id contest) userId (db wb) = Some a).
  { apply Hkept; [by rewrite Hsela|exact Hget]. }
  assert (Hub : user_ids (db wb) = user_ids (db w))
    by (unfold user_ids in *; by rewrite Husers).
  assert (Hselb : forall f, select_user_ids_where_bekandid f (db wb)
                            = select_user_ids_where_bekandid f (db w)).
  { intros f. rewrite <- Hsela. unfold select_user_ids_where_bekandid. by rewrite Husers. }
  assert (Hmem : userId ∈ user_ids (db w)).
  { unfold select_user_ids_where_bekandid in Hel.
    apply list_elem_of_fmap in Hel as (u & -> & Hu').
    apply list_elem_of_filter in Hu' as [_ Hu']. by apply list_elem_of_fmap_2. }
  set (now := clock wb (ticks wb)).
  assert (Hnow : now = clock w (3 + ticks w)%nat).
  { unfold now.
    destruct (syncContestAssignments_spec (ContestWeeks.id contest) (advance 1 0 0 wa))
      as (added & k & Hsync & _); [change (NoDup (user_ids (db wa))); by rewrite Hua|].
    rewrite (ensureActiveContest_found wa contest) in Erun by (apply (Hweeka 0%nat); lia).
    erewrite bind_Returned in Erun by exact Hsync.
    injection Erun as <-. reflexivity. }
  (* the handler, from [wb] on *)
  assert (Hhandle : exists wc a',
    handleContestLocationUpdate userId lat lng wa = Returned tt wc /\
    users (db wc) = users (db wb) /\ contest_weeks (db wc) = contest_weeks (db wb) /\
    clock wc = clock wb /\ ticks wc = (1 + ticks wb)%nat /\
    get_assignment (ContestWeeks.id contest) userId (db wc) = Some a' /\
    a' = (if now - or_now (ContestAssignments.last_move_at a) now
                >? CONTEST_CAMPING_THRESHOLD_MS
          then set_camping (set_location lat lng now a)
          else set_location lat lng now a)).
  { unfold handleContestLocationUpdate.
    erewrite bind_Returned by exact Erun. cbv beta.
    step. rewrite Hgetb. step. fold now.
    erewrite bind_Returned by (by apply run_inl). cbv beta.
    rewrite decide_True by exact Hrole.
    rewrite Hplat, Hplng, Hnear.
    destruct (_ >? _).
    - erewrite bind_Returned by (by apply run_inl). cbv beta.
      rewrite createInboxEntry_eq; last first.
      { split; [|split; [|done]]; change (userId ∈ user_ids (db wb)); by rewrite Hub. }
      eexists _, _. split; [reflexivity|]. project_db.
      split; [reflexivity|]. split; [reflexivity|]. split; [reflexivity|].
      split; [reflexivity|]. split; [|reflexivity].
      unfold get_assignment in *. project_db.
      rewrite !find_after_update by done. by rewrite Hgetb.
    - eexists _, _. split; [reflexivity|]. project_db.
      split; [reflexivity|]. split; [reflexivity|]. split; [reflexivity|].
      split; [reflexivity|]. split; [|reflexivity].
      unfold get_assignment in *. project_db.
      rewrite !find_after_update by done. by rewrite Hgetb. }
  destruct Hhandle as (wc & a' & Ehandle & Husersc & Hweeksc & Hclockc & Hticksc & Hgetc & Ha').
  assert (Huc : user_ids (db wc) = user_ids (db w))
    by (unfold user_ids in *; by rewrite Husersc).
  assert (Hselc : forall f, select_user_ids_where_bekandid f (db wc)
                            = select_user_ids_where_bekandid f (db w)).
  { intros f. rewrite <- Hselb. unfold select_user_ids_where_bekandid. by rewrite Husersc. }
  assert (Hweekc : in_week contest (2 + n) wc).
  { apply (in_week_frame contest (2 + n) 1 wb); try done. }
  destruct (ensureActiveContest_in_week wc contest n)
    as (wd & Erun2 & Husersd & _ & Hweekd & _ & Hkept2 & _).
  { by rewrite Huc. }
  { exact Hweekc. }
  exists wd, a'. split.
  { unfold post_api_users_me_location, try_catch.
    erewrite bind_Returned by apply Date_now_eq. cbv beta.
    erewrite bind_Returned by (by apply run_inl). cbv beta.
    fold now0. fold wa.
    erewrite bind_Returned by exact Ehandle. cbv beta.
    unfold buildState.
    erewrite bind_Returned; last first.
    { erewrite bind_Returned by exact Erun2. reflexivity. }
    reflexivity. }
  assert (Hud : user_ids (db wd) = user_ids (db w))
    by (unfold user_ids in *; by rewrite Husersd).
  split; [by rewrite Hud|]. split.
  { unfold select_user_ids_where_bekandid. rewrite Husersd.
    fold (select_user_ids_where_bekandid 0 (db wc)). by rewrite Hselc. }
  split; [exact Hweekd|]. split.
  { apply Hkept2; [by rewrite Hselc|exact Hgetc]. }
  rewrite Ha', Htm, <- Hnow. clear Ha'. unfold or_now. cbn beta iota.
  set (previousMove := if tm =? 0 then now else tm).
  destruct (Z.gtb_spec (now - previousMove) CONTEST_CAMPING_THRESHOLD_MS) as [Hlate|Hearly];
    cbn; rewrite ?Htm; cbn.
  - repeat split; done.
  - repeat split; done.
Qed.

End Creep.
End CreepFacts.

Module CreepTheorems.
Import CreepFacts.

Section Creep.
Context `{JsMath}.


End Creep.
End CreepTheorems.

Module CreepExamples.
Import Sample CreepTheorems.


End CreepExamples.

Module StorageFacts.
Import WorldFacts Hoare.

Section Stable.
Context (I : world -> Prop) (HI : storage_stable I).

Lemma storage_Date_now : preserves I Date_now.
Proof. intros w Hw. apply (storage_advance I HI 1 0 0 w Hw). Qed.

Lemma storage_Math_random : preserves I Math_random.
Proof. intros w Hw. apply (storage_advance I HI 0 1 0 w Hw). Qed.

Lemma storage_createId : preserves I createId.
Proof. intros w Hw. apply (storage_advance I HI 0 0 1 w Hw). Qed.

Lemma storage_insert_contest_assignment r :
  preserves I (run (insert_contest_assignment r)).
Proof.
  apply preserves_run. intros w d Hw. unfold insert_contest_assignment.
  destruct (decide _) as [|Hfresh]; [done|]. intros [= <-].
  by apply (storage_insert_assignment I HI).
Qed.

Lemma storage_update_contest_assignment c u f :
  (forall a, assignment_key (f a) = assignment_key a) ->
  preserves I (run (update_contest_assignment c u f)).
Proof.
  intros Hf. apply preserves_run. intros w d Hw [= <-].
  apply (storage_update_assignment I HI
           (fun a => if decide (assignment_key a = (c, u)) then f a else a) w Hw).
  intros a. destruct (decide _); [apply Hf|done].
Qed.

Lemma storage_delete_contest_assignments c ids :
  preserves I (run (delete_contest_assignments c ids)).
Proof.
  apply preserves_run. intros w d Hw [= <-].
  by apply (storage_delete_assignments I HI).
Qed.

Lemma storage_insert_contest_week r : preserves I (run (insert_contest_week r)).
Proof.
  apply preserves_run. intros w d Hw. unfold insert_contest_week.
  destruct (decide _) as [|Hfresh]; [done|]. intros [= <-].
  by apply (storage_insert_week I HI).
Qed.

Lemma storage_insert_contest_capture r : preserves I (run (insert_contest_capture r)).
Proof.
  apply preserves_run. intros w d Hw [= <-]. by apply (storage_insert_capture I HI).
Qed.

Lemma storage_insert_post r : preserves I (run (insert_post r)).
Proof.
  apply preserves_run. intros w d Hw. unfold insert_post.
  destruct (decide _); [|done]. intros [= <-]. by apply (storage_posts I HI).
Qed.

Lemma storage_update_user userId f :
  (forall u, Users.id (f u) = Users.id u) ->
  preserves I (run (update_user userId f)).
Proof.
  intros Hf. apply preserves_run. intros w d Hw [= <-].
  apply (storage_update_user I HI
           (fun u => if decide (Users.id u = userId) then f u else u) w Hw).
  intros u. destruct (decide _); [apply Hf|done].
Qed.

Lemma storage_createInboxEntry recipientId senderId postId type message createdAt :
  preserves I (createInboxEntry recipientId senderId postId type message createdAt).
Proof.
  unfold createInboxEntry. apply preserves_bind; [apply storage_createId|].
  intros id. apply preserves_run. intros w d Hw. unfold insert_inbox_message.
  destruct (decide _); [|done]. intros [= <-]. by apply (storage_inbox I HI).
Qed.

Lemma storage_shuffle_from {A} i : forall copy : list A, preserves I (shuffle_from i copy).
Proof.
  induction i as [|i IH]; intros copy; simpl.
  - apply preserves_ret.
  - apply preserves_bind; [apply storage_Math_random|]. intros r. apply IH.
Qed.

Lemma storage_join_from c now toAssign : forall hc gc,
  preserves I (join_from c now toAssign hc gc).
Proof.
  induction toAssign as [|p l IH]; intros hc gc; simpl.
  - apply preserves_ret.
  - apply preserves_bind; [apply storage_insert_contest_assignment|]. intros _.
    destruct (decide _); apply IH.
Qed.

Lemma storage_syncContestAssignments c : preserves I (syncContestAssignments c).
Proof.
  unfold syncContestAssignments.
  apply preserves_bind; [apply preserves_query|]. intros participants.
  apply preserves_bind; [apply preserves_query|]. intros bekandid.
  apply preserves_bind.
  { apply preserves_decide; [apply preserves_ret|apply storage_delete_contest_assignments]. }
  intros _. apply preserves_bind; [apply preserves_query|]. intros existing.
  apply preserves_decide.
  - apply preserves_bind; [apply storage_shuffle_from|]. intros shuffled.
    apply preserves_bind; [apply storage_Date_now|]. intros now.
    apply preserves_bind.
    + apply preserves_for_of. intros p. apply storage_insert_contest_assignment.
    + intros _. apply preserves_for_of. intros p. apply storage_insert_contest_assignment.
  - apply preserves_bind; [apply storage_Date_now|]. intros now.
    apply storage_join_from.
Qed.

Lemma storage_ensureActiveContest : preserves I ensureActiveContest.
Proof.
  unfold ensureActiveContest.
  apply preserves_bind; [apply storage_Date_now|]. intros now.
  apply preserves_bind; [apply preserves_query|]. intros found.
  apply preserves_bind.
  { destruct found; [apply preserves_ret|].
    apply preserves_bind; [apply storage_createId|]. intros id.
    apply preserves_bind; [apply storage_Math_random|]. intros r.
    apply preserves_bind; [apply storage_insert_contest_week|]. intros _.
    apply preserves_ret. }
  intros contest.
  apply preserves_bind; [apply storage_syncContestAssignments|]. intros _.
  apply preserves_ret.
Qed.

Lemma storage_buildState : preserves I buildState.
Proof.
  unfold buildState. apply preserves_bind; [apply storage_ensureActiveContest|].
  intros _. apply preserves_ret.
Qed.

Lemma storage_handleContestCapture hunterId ghostId postId challenge :
  preserves I (handleContestCapture hunterId ghostId postId challenge).
Proof.
  unfold handleContestCapture.
  apply preserves_bind; [apply storage_ensureActiveContest|]. intros contest.
  apply preserves_decide; [apply preserves_throw|].
  apply preserves_bind; [apply preserves_query|]. intros hunterAssignment.
  apply preserves_bind; [apply preserves_query|]. intros ghostAssignment.
  apply preserves_decide; [apply preserves_throw|].
  apply preserves_decide; [apply preserves_throw|].
  apply preserves_bind; [apply storage_Date_now|]. intros now.
  apply preserves_bind; [apply storage_createId|]. intros id.
  apply preserves_bind; [apply storage_insert_contest_capture|]. intros _.
  apply preserves_bind; [by apply storage_update_contest_assignment|]. intros _.
  apply preserves_bind; [by apply storage_update_contest_assignment|]. intros _.
  apply preserves_bind; [apply storage_createInboxEntry|]. intros _.
  apply storage_createInboxEntry.
Qed.

Lemma storage_post_api_posts userId body : preserves I (post_api_posts userId body).
Proof.
  unfold post_api_posts. apply preserves_try_catch.
  - apply preserves_decide; [apply preserves_ret|].
    apply preserves_bind; [apply storage_Date_now|]. intros now.
    apply preserves_bind; [apply storage_createId|]. intros postId.
    apply preserves_bind; [apply storage_insert_post|]. intros _.
    apply preserves_bind; [apply preserves_query|]. intros recipientRow.
    apply preserves_bind; [apply storage_createInboxEntry|]. intros _.
    apply preserves_bind.
    { apply preserves_if; [apply storage_handleContestCapture|apply preserves_ret]. }
    intros _. apply preserves_bind; [apply storage_buildState|]. intros _.
    apply preserves_ret.
  - intros e. destruct (statusCode e) as [code|]; [|apply preserves_ret].
    destruct (code =? 0); apply preserves_ret.
Qed.

Lemma storage_post_api_users_me_bekandid userId enabled :
  preserves I (post_api_users_me_bekandid userId enabled).
Proof.
  unfold post_api_users_me_bekandid. apply preserves_try_catch.
  - apply preserves_bind; [by apply storage_update_user|]. intros _.
    apply preserves_bind; [apply storage_ensureActiveContest|]. intros _.
    apply preserves_bind; [apply storage_buildState|]. intros _.
    apply preserves_ret.
  - intros e. apply preserves_ret.
Qed.

Lemma storage_get_api_state : preserves I get_api_state.
Proof.
  unfold get_api_state. apply preserves_try_catch.
  - apply preserves_bind; [apply storage_buildState|]. intros _. apply preserves_ret.
  - intros e. apply preserves_ret.
Qed.

Section Math.
Context `{JsMath}.

Lemma storage_alert_if_near userId lat lng now ghost :
  preserves I (alert_if_near userId lat lng now ghost).
Proof.
  unfold alert_if_near. apply preserves_if; [|apply preserves_ret].
  apply preserves_bind; [apply preserves_query|]. intros recentAlert.
  apply preserves_if; [apply storage_createInboxEntry|apply preserves_ret].
Qed.

Lemma storage_handleContestLocationUpdate userId lat lng :
  preserves I (handleContestLocationUpdate userId lat lng).
Proof.
  unfold handleContestLocationUpdate.
  apply preserves_bind; [apply storage_ensureActiveContest|]. intros contest.
  apply preserves_bind; [apply preserves_query|].
  intros [assignment|]; [|apply preserves_ret].
  apply preserves_bind; [apply storage_Date_now|]. intros now.
  apply preserves_bind; [by apply storage_update_contest_assignment|]. intros _.
  apply preserves_decide.
  - apply preserves_if; [by apply storage_update_contest_assignment|].
    apply preserves_if; [|apply preserves_ret].
    apply preserves_bind; [by apply storage_update_contest_assignment|]. intros _.
    apply storage_createInboxEntry.
  - apply preserves_decide; [apply preserves_ret|].
    apply preserves_bind; [apply preserves_query|]. intros ghosts.
    apply preserves_for_of. intros ghost. apply storage_alert_if_near.
Qed.

Lemma storage_post_api_users_me_location userId lat lng :
  preserves I (post_api_users_me_location userId lat lng).
Proof.
  unfold post_api_users_me_location. apply preserves_try_catch.
  - destruct lat as [lat|]; [|apply preserves_ret].
    destruct lng as [lng|]; [|apply preserves_ret].
    apply preserves_bind; [apply storage_Date_now|]. intros now.
    apply preserves_bind; [by apply storage_update_user|]. intros _.
    apply preserves_bind; [apply storage_handleContestLocationUpdate|]. intros _.
    apply preserves_bind; [apply storage_buildState|]. intros _.
    apply preserves_ret.
  - intros e. apply preserves_ret.
Qed.

Lemma storage_serve r : preserves I (serve r).
Proof.
  destruct r; simpl.
  - apply storage_post_api_posts.
  - apply storage_post_api_users_me_location.
  - apply storage_post_api_users_me_bekandid.
  - apply storage_get_api_state.
Qed.

Lemma storage_serve_all rs : forall w, I w -> I (serve_all rs w).
Proof.
  induction rs as [|r rs IH]; intros w Hw; [exact Hw|].
  simpl. apply IH. by apply storage_serve.
Qed.

End Math.
End Stable.

Lemma consistent_growth_stable w0 :
  storage_stable (fun w => consistent w /\ grown_from w0 w).
Proof.
  split.
  - intros t r u w Hw. exact Hw.
  - intros l w Hw. exact Hw.
  - intros l w Hw. exact Hw.
  - intros r w [(Hu & Hk & Hs) Hg] Hfresh. split; [|exact Hg].
    split; [exact Hu|]. split; [|exact Hs].
    unfold assignment_keys. simpl. rewrite fmap_app. apply NoDup_app.
    split; [exact Hk|]. split; [|apply NoDup_singleton].
    intros k Hin Hk'. apply list_elem_of_singleton in Hk' as ->. by apply Hfresh.
  - intros f w [(Hu & Hk & Hs) Hg] Hf. split; [|exact Hg].
    split; [exact Hu|]. split; [|exact Hs].
    unfold assignment_keys in *. simpl. rewrite <- list_fmap_compose.
    erewrite list_fmap_ext; [exact Hk|]. intros i a _. apply Hf.
  - intros P HP w [(Hu & Hk & Hs) Hg]. split; [|exact Hg].
    split; [exact Hu|]. split; [|exact Hs].
    unfold assignment_keys in *. simpl.
    eapply sublist_NoDup; [exact Hk|]. apply fmap_sublist, sublist_filter.
  - intros r w [(Hu & Hk & Hs) (Hg1 & Hg2 & Hg3)] Hfresh. split.
    + split; [exact Hu|]. split; [exact Hk|]. simpl. rewrite fmap_app. apply NoDup_app.
      split; [exact Hs|]. split; [|apply NoDup_singleton].
      intros k Hin Hk'. apply list_elem_of_singleton in Hk' as ->. by apply Hfresh.
    + split; [exact Hg1|]. split; [|exact Hg3]. simpl. by apply prefix_app_r.
  - intros r w [Hc (Hg1 & Hg2 & Hg3)]. split; [exact Hc|].
    split; [exact Hg1|]. split; [exact Hg2|]. simpl. by apply prefix_app_r.
  - intros f w [(Hu & Hk & Hs) (Hg1 & Hg2 & Hg3)] Hf.
    assert (Hids : user_ids (db (with_db (set_users (f <$> users (db w)) (db w)) w))
                   = user_ids (db w)).
    { unfold user_ids. simpl. rewrite <- list_fmap_compose.
      apply list_fmap_ext. intros i u _. apply Hf. }
    split.
    + split; [by rewrite Hids|]. split; [exact Hk|exact Hs].
    + split; [by rewrite Hids|]. split; [exact Hg2|exact Hg3].
Qed.

End StorageFacts.

Module StorageTheorems.
Import StorageFacts.

Section Requests.
Context `{JsMath}.

(** The requests keep the storage consistent.  From a database with one row
    per user id, per (contest, user) and per start of week, every sequence
    of requests leads to such a database again; no user appears or
    disappears, and the contest weeks and the captures on record are never
    removed nor changed: newer ones are appended. *)
Theorem requests_keep_the_storage_consistent (rs : list request) (w : world) :
  consistent w ->
  consistent (serve_all rs w) /\
  user_ids (db (serve_all rs w)) = user_ids (db w) /\
  contest_weeks (db w) `prefix_of` contest_weeks (db (serve_all rs w)) /\
  contest_captures (db w) `prefix_of` contest_captures (db (serve_all rs w)).
Proof.
  intros Hc.
  destruct (storage_serve_all _ (consistent_growth_stable w) rs w) as [Hc' Hg].
  { split; [exact Hc|]. split; [done|]. split; done. }
  split; [exact Hc'|exact Hg].
Qed.

End Requests.
End StorageTheorems.

Module StorageExamples.
Import Sample StorageTheorems.

(** Mina opts out, Ari reports a position and the state is read: the
    capture of Mina is still on record. *)
Lemma requests_keep_the_storage_consistent_witness :
  contest_captures (db captured)
    `prefix_of`
  contest_captures (db (@serve_all RationalMath.instance
    [PostBekandid "mina" true; PostLocation "ari" (Some mina_lat) (Some mina_lng); GetState]
    captured)).
Proof.
  apply (@requests_keep_the_storage_consistent RationalMath.instance
           [PostBekandid "mina" true; PostLocation "ari" (Some mina_lat) (Some mina_lng);
            GetState] captured).
  repeat split; apply (bool_decide_unpack _); vm_compute; exact I.
Defined.

End StorageExamples.

Module PostFacts.
Import WorldFacts Hoare CaptureFacts SyncInvariant ScanFacts.

Lemma get_user_of_row d u :
  NoDup (user_ids d) -> u ∈ users d -> get_user (Users.id u) d = Some u.
Proof.
  intros Hnd Hu. unfold get_user.
  destruct (filter _ (users d)) as [|u' rest] eqn:Ef.
  - assert (u ∈ filter (fun u0 => Users.id u0 = Users.id u) (users d)) as Hin
      by (by apply list_elem_of_filter).
    rewrite Ef in Hin. by apply elem_of_nil in Hin.
  - assert (u' ∈ filter (fun u0 => Users.id u0 = Users.id u) (users d)) as Hin
      by (rewrite Ef; left).
    apply list_elem_of_filter in Hin as [Hid Hin]. simpl. f_equal.
    by eapply user_of_id.
Qed.

End PostFacts.

Module PostTheorems.
Import WorldFacts Hoare CaptureFacts ScanFacts PostFacts.


End PostTheorems.

Module PostExamples.
Import Sample PostTheorems.


End PostExamples.

Module ReportFacts.
Import WorldFacts Hoare CaptureFacts LocationFacts ScanFacts AlertTheorems RejoinFacts.

Local Opaque getContestWindow.

Lemma directory_is_stable x : directory_stable (fun w => directory (db w) = x).
Proof. split; [split|]; intros; assumption. Qed.

Section Stable.
Context (I : world -> Prop) (HI : directory_stable I).
Context `{JsMath}.

Lemma directory_createInboxEntry recipientId senderId postId type message createdAt :
  preserves I (createInboxEntry recipientId senderId postId type message createdAt).
Proof.
  unfold createInboxEntry.
  apply preserves_bind; [apply preserves_createId, HI|].
  intros id. apply preserves_run. intros w d Hw. unfold insert_inbox_message.
  destruct (decide _); [|done]. intros [= <-]. by apply (directory_inbox I HI).
Qed.

Lemma directory_alert_if_near userId lat lng now ghost :
  preserves I (alert_if_near userId lat lng now ghost).
Proof.
  unfold alert_if_near. apply preserves_if; [|apply preserves_ret].
  apply preserves_bind; [apply preserves_query|]. intros recentAlert.
  apply preserves_if; [apply directory_createInboxEntry|apply preserves_ret].
Qed.

Lemma directory_handleContestLocationUpdate userId lat lng :
  preserves I (handleContestLocationUpdate userId lat lng).
Proof.
  pose proof (directory_engine I HI) as HE.
  unfold handleContestLocationUpdate.
  apply preserves_bind; [by apply preserves_ensureActiveContest|]. intros contest.
  apply preserves_bind; [apply preserves_query|].
  intros [assignment|]; [|apply preserves_ret].
  apply preserves_bind; [by apply preserves_Date_now|]. intros now.
  apply preserves_bind; [by apply preserves_update_contest_assignment|]. intros _.
  apply preserves_decide.
  - apply preserves_if; [by apply preserves_update_contest_assignment|].
    apply preserves_if; [|apply preserves_ret].
    apply preserves_bind; [by apply preserves_update_contest_assignment|]. intros _.
    apply directory_createInboxEntry.
  - apply preserves_decide; [apply preserves_ret|].
    apply preserves_bind; [apply preserves_query|]. intros ghosts.
    apply preserves_for_of. intros ghost. apply directory_alert_if_near.
Qed.

End Stable.

Section Total.
Context `{JsMath}.

(** The handler returns, whatever the role of the user. *)
Lemma handleContestLocationUpdate_total userId lat lng w :
  NoDup (user_ids (db w)) -> NoDup (assignment_keys (db w)) ->
  userId ∈ user_ids (db w) ->
  exists w',
    handleContestLocationUpdate userId lat lng w = Returned tt w' /\
    directory (db w') = directory (db w).
Proof.
  intros Hu Hk Hmem.
  assert (Hframe : directory (db (final_world (handleContestLocationUpdate userId lat lng w)))
                   = directory (db w)).
  { by apply (directory_handleContestLocationUpdate _ (directory_is_stable (directory (db w)))). }
  assert (Hret : exists w', handleContestLocationUpdate userId lat lng w = Returned tt w').
  { destruct (ensureActiveContest_total w Hu) as (contest & w1 & E & Husers & _).
    assert (Hmem1 : userId ∈ user_ids (db w1)) by (unfold user_ids; by rewrite Husers).
    destruct (get_assignment (ContestWeeks.id contest) userId (db w1)) as [a|] eqn:Ha.
    - destruct (decide (ContestAssignments.role a = "ghost"%string)) as [Hg|Hg].
      + destruct (ghost_update_spec userId lat lng w contest w1 a E Ha Hg (or_intror Hmem1))
          as (w' & Hrun & _).
        by exists w'.
      + destruct (decide (ContestAssignments.role a = "hunter"%string)) as [Hh|Hh].
        * destruct (hunter_update_spec userId lat lng w contest w1 a Hu Hk Hmem E Ha Hh)
            as (w' & new & Hrun & _).
          by exists w'.
        * unfold handleContestLocationUpdate.
          erewrite bind_Returned by exact E. cbv beta.
          step. rewrite Ha. step.
          erewrite bind_Returned by (by apply run_inl). cbv beta.
          rewrite decide_False by exact Hg. rewrite decide_True by exact Hh.
          eexists. reflexivity.
    - unfold handleContestLocationUpdate.
      erewrite bind_Returned by exact E. cbv beta.
      step. rewrite Ha. eexists. reflexivity. }
  destruct Hret as [w' Hrun]. exists w'. split; [exact Hrun|].
  by rewrite Hrun in Hframe.
Qed.

End Total.
End ReportFacts.

Module ReportTheorems.
Import WorldFacts Hoare CaptureFacts ScanFacts RejoinFacts ReportFacts.

Section Report.
Context `{JsMath}.


End Report.
End ReportTheorems.

Module ReportExamples.
Import Sample ReportTheorems.


End ReportExamples.

Module InboxTheorems.
Import WorldFacts Hoare CaptureFacts ScanFacts.

Lemma marked_twice ids userId l : marked ids userId (marked ids userId l) = marked ids userId l.
Proof.
  unfold marked. rewrite <- list_fmap_compose. apply list_fmap_ext.
  intros i m _. simpl.
  destruct (decide (InboxMessages.id m ∈ ids ∧ InboxMessages.recipient_id m = userId))
    as [Hm|Hm]; simpl; destruct (decide _); done.
Qed.


End InboxTheorems.

Module InboxExamples.
Import Sample InboxTheorems.


End InboxExamples.

Module SiteFacts.
Import WorldFacts Hoare CaptureFacts SyncInvariant ScanFacts.

Lemma await_Resolved {A B} (m : Async A) (k : A -> Async B) s a s' :
  m s = Resolved a s' -> await m k s = k a s'.
Proof. unfold await. by intros ->. Qed.

Lemma await_Rejected {A B} (m : Async A) (k : A -> Async B) s e s' :
  m s = Rejected e s' -> await m k s = Rejected e s'.
Proof. unfold await. by intros ->. Qed.

Lemma lift_Returned {A} (m : M A) s a w :
  m (engine s) = Returned a w -> lift m s = Resolved a (with_engine w s).
Proof. unfold lift. by intros ->. Qed.

Lemma lift_Thrown {A} (m : M A) s e w :
  m (engine s) = Thrown e w -> lift m s = Rejected e (with_engine w s).
Proof. unfold lift. by intros ->. Qed.

Lemma execute_inl f s s' : f s = inl s' -> execute f s = Resolved tt s'.
Proof. unfold execute. by intros ->. Qed.

Lemma execute_inr f s e : f s = inr e -> execute f s = Rejected e s.
Proof. unfold execute. by intros ->. Qed.

(** The snapshot that ends every route: the engine looks after the contest
    and touches nothing else. *)
Lemma lift_buildState s :
  NoDup (user_ids (db (engine s))) ->
  exists w,
    lift buildState s = Resolved tt (with_engine w s) /\
    users (db w) = users (db (engine s)) /\ posts (db w) = posts (db (engine s)) /\
    inbox_messages (db w) = inbox_messages (db (engine s)) /\
    contest_captures (db w) = contest_captures (db (engine s)).
Proof.
  intros Hnd.
  destruct (ensureActiveContest_total (engine s) Hnd) as (contest & w & E & _).
  exists w. split; [|by eapply ensureActiveContest_frame_Returned].
  apply lift_Returned. unfold buildState. by erewrite bind_Returned by exact E.
Qed.

Lemma get_follow_None u t s :
  get_follow u t s = None ->
  ((u, t) ∉ ((fun r => (Follows.follower_id r, Follows.following_id r)) <$> follows s)) /\
  (filter (fun r => ¬ (Follows.follower_id r = u ∧ Follows.following_id r = t)) (follows s)
   = follows s).
Proof.
  unfold get_follow. intros Hnone%head_None. split.
  - intros (r & Hk & Hr)%list_elem_of_fmap. injection Hk as -> ->.
    assert (r ∈ filter (fun r0 => Follows.follower_id r0 = Follows.follower_id r
                                  ∧ Follows.following_id r0 = Follows.following_id r)
                  (follows s)) as Hin by (by apply list_elem_of_filter).
    rewrite Hnone in Hin. by apply elem_of_nil in Hin.
  - apply SyncFacts.filter_all. intros r Hr Hk.
    assert (r ∈ filter (fun r0 => Follows.follower_id r0 = u ∧ Follows.following_id r0 = t)
                  (follows s)) as Hin by (by apply list_elem_of_filter).
    rewrite Hnone in Hin. by apply elem_of_nil in Hin.
Qed.

Lemma get_like_None p u s :
  get_like p u s = None ->
  ((p, u) ∉ ((fun r => (Likes.post_id r, Likes.user_id r)) <$> likes s)) /\
  (filter (fun r => ¬ (Likes.post_id r = p ∧ Likes.user_id r = u)) (likes s) = likes s).
Proof.
  unfold get_like. intros Hnone%head_None. split.
  - intros (r & Hk & Hr)%list_elem_of_fmap. injection Hk as -> ->.
    assert (r ∈ filter (fun r0 => Likes.post_id r0 = Likes.post_id r
                                  ∧ Likes.user_id r0 = Likes.user_id r)
                  (likes s)) as Hin by (by apply list_elem_of_filter).
    rewrite Hnone in Hin. by apply elem_of_nil in Hin.
  - apply SyncFacts.filter_all. intros r Hr Hk.
    assert (r ∈ filter (fun r0 => Likes.post_id r0 = p ∧ Likes.user_id r0 = u)
                  (likes s)) as Hin by (by apply list_elem_of_filter).
    rewrite Hnone in Hin. by apply elem_of_nil in Hin.
Qed.

End SiteFacts.

Module FollowTheorems.
Import WorldFacts CaptureFacts SiteFacts.

Lemma follow_starts currentId targetId s :
  currentId <> targetId -> NoDup (user_ids (db (engine s))) ->
  get_follow currentId targetId s = None ->
  currentId ∈ user_ids (db (engine s)) -> targetId ∈ user_ids (db (engine s)) ->
  exists s',
    post_api_follows_toggle currentId targetId s = Resolved (ok 200) s' /\
    follows s'
    = follows s ++ [ {| Follows.follower_id := currentId;
                        Follows.following_id := targetId;
                        Follows.created_at := clock (engine s) (ticks (engine s)) |} ] /\
    inbox_messages (db (engine s'))
    = inbox_messages (db (engine s)) ++ [follow_notice currentId targetId s] /\
    likes s' = likes s /\ comments s' = comments s /\
    users (db (engine s')) = users (db (engine s)) /\
    posts (db (engine s')) = posts (db (engine s)).
Proof.
  intros Hne Hnd Hnone Hu Ht.
  destruct (get_follow_None _ _ _ Hnone) as [Hfresh _].
  set (r := {| Follows.follower_id := currentId; Follows.following_id := targetId;
               Follows.created_at := clock (engine s) (ticks (engine s)) |}).
  set (s1 := set_follows (follows s ++ [r]) (with_engine (advance 1 0 0 (engine s)) s)).
  set (w2 := with_db (set_inbox_messages
                        (inbox_messages (db (engine s)) ++ [follow_notice currentId targetId s])
                        (db (engine s)))
               (advance 1 0 1 (engine s))).
  destruct (lift_buildState (with_engine w2 s1)) as (w3 & Hbuild & F1 & F2 & F3 & F4).
  { exact Hnd. }
  exists (with_engine w3 s1). split; [|simpl; by rewrite F1, F2, F3].
  unfold post_api_follows_toggle, catching. rewrite decide_False by exact Hne.
  erewrite await_Resolved by reflexivity. rewrite Hnone.
  erewrite await_Resolved; last first.
  { erewrite await_Resolved by (apply lift_Returned, Date_now_eq).
    erewrite await_Resolved; last first.
    { apply execute_inl. unfold insert_follow.
      rewrite decide_False by exact Hfresh.
      rewrite decide_True by (simpl; done). reflexivity. }
    erewrite await_Resolved by (apply lift_Returned, createId_eq).
    apply lift_Returned. apply run_inl. unfold insert_inbox_message.
    rewrite decide_True by (simpl; done). reflexivity. }
  erewrite await_Resolved by exact Hbuild.
  reflexivity.
Qed.

Lemma follow_ends currentId targetId s :
  currentId <> targetId -> NoDup (user_ids (db (engine s))) ->
  get_follow currentId targetId s <> None ->
  exists s',
    post_api_follows_toggle currentId targetId s = Resolved (ok 200) s' /\
    follows s'
    = filter (fun r => ¬ (Follows.follower_id r = currentId
                          ∧ Follows.following_id r = targetId)) (follows s) /\
    get_follow currentId targetId s' = None /\
    inbox_messages (db (engine s')) = inbox_messages (db (engine s)) /\
    likes s' = likes s /\ comments s' = comments s /\
    users (db (engine s')) = users (db (engine s)).
Proof.
  intros Hne Hnd Hsome.
  destruct (get_follow currentId targetId s) as [existing|] eqn:Ex; [|done].
  set (s1 := set_follows
               (filter (fun r => ¬ (Follows.follower_id r = currentId
                                    ∧ Follows.following_id r = targetId)) (follows s)) s).
  destruct (lift_buildState s1) as (w3 & Hbuild & F1 & F2 & F3 & F4).
  { exact Hnd. }
  exists (with_engine w3 s1). split; [|split; [reflexivity|split; [|simpl; by rewrite F1, F3]]].
  - unfold post_api_follows_toggle, catching. rewrite decide_False by exact Hne.
    erewrite await_Resolved by reflexivity. rewrite Ex.
    erewrite await_Resolved by reflexivity.
    erewrite await_Resolved by exact Hbuild.
    reflexivity.
  - unfold get_follow. simpl. rewrite SyncInvariant.filter_none; [done|].
    intros r' [Hkeep _]%list_elem_of_filter Hk. by apply Hkeep.
Qed.

Lemma follow_round_trip (currentId targetId : string) (s : site) :
  currentId <> targetId -> NoDup (user_ids (db (engine s))) ->
  get_follow currentId targetId s = None ->
  currentId ∈ user_ids (db (engine s)) -> targetId ∈ user_ids (db (engine s)) ->
  exists s1 s2,
    post_api_follows_toggle currentId targetId s = Resolved (ok 200) s1 /\
    post_api_follows_toggle currentId targetId s1 = Resolved (ok 200) s2 /\
    follows s2 = follows s /\
    inbox_messages (db (engine s2))
    = inbox_messages (db (engine s)) ++ [follow_notice currentId targetId s].
Proof.
  intros Hne Hnd Hnone Hu Ht.
  destruct (follow_starts currentId targetId s Hne Hnd Hnone Hu Ht)
    as (s1 & Hrun1 & Hfollows1 & Hinbox1 & _ & _ & Husers1 & _).
  destruct (follow_ends currentId targetId s1) as (s2 & Hrun2 & Hfollows2 & _ & Hinbox2 & _).
  { exact Hne. }
  { unfold user_ids. by rewrite Husers1. }
  { unfold get_follow. rewrite Hfollows1, filter_app.
    rewrite filter_cons_True by done. by destruct (filter _ (follows s)). }
  exists s1, s2. split; [exact Hrun1|]. split; [exact Hrun2|]. split.
  - rewrite Hfollows2, Hfollows1, filter_app.
    rewrite (proj2 (get_follow_None _ _ _ Hnone)).
    rewrite filter_cons_False; [by rewrite app_nil_r|]. simpl. intros Hk. by apply Hk.
  - by rewrite Hinbox2, Hinbox1.
Qed.


End FollowTheorems.

Module LikeTheorems.
Import WorldFacts CaptureFacts SiteFacts.

Lemma like_set userId postId s :
  NoDup (user_ids (db (engine s))) ->
  get_like postId userId s = None ->
  postId ∈ post_ids (db (engine s)) -> userId ∈ user_ids (db (engine s)) ->
  exists s',
    post_api_posts_like userId postId s = Resolved (ok 200) s' /\
    likes s'
    = likes s ++ [ {| Likes.post_id := postId; Likes.user_id := userId;
                      Likes.created_at := clock (engine s) (ticks (engine s)) |} ] /\
    follows s' = follows s /\ comments s' = comments s /\
    users (db (engine s')) = users (db (engine s)) /\
    posts (db (engine s')) = posts (db (engine s)) /\
    inbox_messages (db (engine s')) = inbox_messages (db (engine s)).
Proof.
  intros Hnd Hnone Hp Hu.
  destruct (get_like_None _ _ _ Hnone) as [Hfresh _].
  set (r := {| Likes.post_id := postId; Likes.user_id := userId;
               Likes.created_at := clock (engine s) (ticks (engine s)) |}).
  set (s1 := set_likes (likes s ++ [r]) (with_engine (advance 1 0 0 (engine s)) s)).
  destruct (lift_buildState s1) as (w3 & Hbuild & F1 & F2 & F3 & F4).
  { exact Hnd. }
  exists (with_engine w3 s1). split; [|simpl; by rewrite F1, F2, F3].
  unfold post_api_posts_like, catching.
  erewrite await_Resolved by reflexivity. rewrite Hnone.
  erewrite await_Resolved; last first.
  { erewrite await_Resolved by (apply lift_Returned, Date_now_eq).
    apply execute_inl. unfold insert_like.
    rewrite decide_False by exact Hfresh.
    rewrite decide_True by (simpl; done). reflexivity. }
  erewrite await_Resolved by exact Hbuild.
  reflexivity.
Qed.

Lemma like_unset userId postId s :
  NoDup (user_ids (db (engine s))) ->
  get_like postId userId s <> None ->
  exists s',
    post_api_posts_like userId postId s = Resolved (ok 200) s' /\
    likes s'
    = filter (fun r => ¬ (Likes.post_id r = postId ∧ Likes.user_id r = userId)) (likes s) /\
    get_like postId userId s' = None /\
    follows s' = follows s /\ comments s' = comments s /\
    users (db (engine s')) = users (db (engine s)) /\
    posts (db (engine s')) = posts (db (engine s)).
Proof.
  intros Hnd Hsome.
  destruct (get_like postId userId s) as [existing|] eqn:Ex; [|done].
  set (s1 := set_likes
               (filter (fun r => ¬ (Likes.post_id r = postId ∧ Likes.user_id r = userId))
                       (likes s)) s).
  destruct (lift_buildState s1) as (w3 & Hbuild & F1 & F2 & F3 & F4).
  { exact Hnd. }
  exists (with_engine w3 s1).
  split; [|split; [reflexivity|split; [|simpl; by rewrite F1, F2]]].
  - unfold post_api_posts_like, catching.
    erewrite await_Resolved by reflexivity. rewrite Ex.
    erewrite await_Resolved by reflexivity.
    erewrite await_Resolved by exact Hbuild.
    reflexivity.
  - unfold get_like. simpl. rewrite SyncInvariant.filter_none; [done|].
    intros r' [Hkeep _]%list_elem_of_filter Hk. by apply Hkeep.
Qed.


End LikeTheorems.

Module CommentTheorems.
Import WorldFacts CaptureFacts SiteFacts.

Section Comments.
Context `{JsString}.


End Comments.
End CommentTheorems.

Module SiteExamples.
Import Sample FollowTheorems LikeTheorems CommentTheorems.




End SiteExamples.

Module TimeAgoTheorems.

(** What [timeAgo] prints.  With [d] the age in milliseconds: the whole
    seconds below a minute (a negative number when the time stamp lies in
    the future), the whole minutes below an hour, hours below a day, days
    below a week, weeks below 35 days, months of 30 days from 35 days up to
    360 days, and years of 365 days from 360 days on.  Hence an age of 360
    to 364 days is printed as "0y ago". *)
Theorem timeAgo_units (now timestamp : Z) :
  let d := now - timestamp in
  (d < 60000 -> timeAgo now timestamp = pretty (d / 1000) +:+ "s ago") /\
  (60000 <= d < 3600000 -> timeAgo now timestamp = pretty (d / 60000) +:+ "m ago") /\
  (3600000 <= d < 86400000 -> timeAgo now timestamp = pretty (d / 3600000) +:+ "h ago") /\
  (86400000 <= d < 7 * 86400000 ->
   timeAgo now timestamp = pretty (d / 86400000) +:+ "d ago") /\
  (7 * 86400000 <= d < 35 * 86400000 ->
   timeAgo now timestamp = pretty (d / (7 * 86400000)) +:+ "w ago") /\
  (35 * 86400000 <= d < 360 * 86400000 ->
   timeAgo now timestamp = pretty (d / (30 * 86400000)) +:+ "mo ago") /\
  (360 * 86400000 <= d ->
   timeAgo now timestamp = pretty (d / (365 * 86400000)) +:+ "y ago") /\
  (360 * 86400000 <= d < 365 * 86400000 -> timeAgo now timestamp = "0y ago"%string) /\
  (d < 0 -> exists n : positive, timeAgo now timestamp = "-" +:+ pretty n +:+ "s ago").
Proof.
  intros d. unfold timeAgo. fold d.
  assert (Hm : d / 1000 / 60 = d / 60000) by (rewrite Z.div_div by lia; reflexivity).
  assert (Hh : d / 60000 / 60 = d / 3600000) by (rewrite Z.div_div by lia; reflexivity).
  assert (Hd : d / 3600000 / 24 = d / 86400000) by (rewrite Z.div_div by lia; reflexivity).
  assert (Hw : d / 86400000 / 7 = d / (7 * 86400000))
    by (rewrite Z.div_div by lia; reflexivity).
  assert (Hmo : d / 86400000 / 30 = d / (30 * 86400000))
    by (rewrite Z.div_div by lia; reflexivity).
  assert (Hy : d / 86400000 / 365 = d / (365 * 86400000))
    by (rewrite Z.div_div by lia; reflexivity).
  rewrite Hm, Hh, Hd, Hw, Hmo, Hy.
  assert (Hcases :
    (d < 60000 -> (d / 1000 <? 60) = true) /\
    (60000 <= d -> (d / 1000 <? 60) = false) /\
    (d < 3600000 -> (d / 60000 <? 60) = true) /\
    (3600000 <= d -> (d / 60000 <? 60) = false) /\
    (d < 86400000 -> (d / 3600000 <? 24) = true) /\
    (86400000 <= d -> (d / 3600000 <? 24) = false) /\
    (d < 7 * 86400000 -> (d / 86400000 <? 7) = true) /\
    (7 * 86400000 <= d -> (d / 86400000 <? 7) = false) /\
    (d < 35 * 86400000 -> (d / (7 * 86400000) <? 5) = true) /\
    (35 * 86400000 <= d -> (d / (7 * 86400000) <? 5) = false) /\
    (d < 360 * 86400000 -> (d / (30 * 86400000) <? 12) = true) /\
    (360 * 86400000 <= d -> (d / (30 * 86400000) <? 12) = false)).
  { repeat split; intros;
      first [ apply Z.ltb_lt, Z.div_lt_upper_bound; lia
            | apply Z.ltb_ge, Z.div_le_lower_bound; lia ]. }
  destruct Hcases as (S1 & S0 & M1 & M0 & H1 & H0 & D1 & D0 & W1 & W0 & O1 & O0).
  split; [intros; by rewrite S1 by lia|].
  split; [intros; by rewrite S0, M1 by lia|].
  split; [intros; by rewrite S0, M0, H1 by lia|].
  split; [intros; by rewrite S0, M0, H0, D1 by lia|].
  split; [intros; by rewrite S0, M0, H0, D0, W1 by lia|].
  split; [intros; by rewrite S0, M0, H0, D0, W0, O1 by lia|].
  split; [intros; by rewrite S0, M0, H0, D0, W0, O0 by lia|].
  split.
  - intros. rewrite S0, M0, H0, D0, W0, O0 by lia.
    replace (d / (365 * 86400000)) with 0 by (symmetry; apply Z.div_small; lia).
    reflexivity.
  - intros Hneg. rewrite S1 by lia.
    destruct (d / 1000) as [|n|n] eqn:E.
    + exfalso. assert (d / 1000 < 0) by (apply Z.div_lt_upper_bound; lia). lia.
    + exfalso. assert (d / 1000 < 0) by (apply Z.div_lt_upper_bound; lia). lia.
    + exists n. reflexivity.
Qed.

(** A post that is 362 days old. *)
Lemma timeAgo_units_witness :
  timeAgo 1793615415000 (1793615415000 - 362 * 86400000) = "0y ago"%string.
Proof.
  apply (timeAgo_units 1793615415000 (1793615415000 - 362 * 86400000)).
  lia.
Defined.

End TimeAgoTheorems.

Module CaptureOutcomes.
Import WorldFacts Hoare CaptureFacts LocationFacts ScanFacts CaptureRejections.

Lemma capture_accepted hunterId ghostId postId challenge w w1 contest h g :
  ensureActiveContest w = Returned contest w1 ->
  ContestWeeks.challenge contest = challenge ->
  get_assignment (ContestWeeks.id contest) hunterId (db w1) = Some h ->
  ContestAssignments.role h = "hunter"%string ->
  get_assignment (ContestWeeks.id contest) ghostId (db w1) = Some g ->
  ContestAssignments.role g = "ghost"%string ->
  hunterId ∈ user_ids (db w1) -> ghostId ∈ user_ids (db w1) ->
  postId ∈ post_ids (db w1) ->
  exists w' c,
    handleContestCapture hunterId ghostId postId challenge w = Returned tt w' /\
    contest_captures (db w') = contest_captures (db w1) ++ [c] /\
    ContestCaptures.hunter_id c = hunterId /\ ContestCaptures.ghost_id c = ghostId /\
    ContestCaptures.post_id c = postId /\
    InboxMessages.type <$> inbox_messages (db w')
    = (InboxMessages.type <$> inbox_messages (db w1))
      ++ ["contest_capture"; "contest_captured"]%string /\
    users (db w') = users (db w1) /\ posts (db w') = posts (db w1).
Proof.
  intros E Hch Hh Hhr Hg Hgr Hhu Hgu Hp.
  unfold handleContestCapture.
  erewrite bind_Returned by exact E. cbv beta.
  rewrite decide_False by (intros Hn; by apply Hn).
  step. step. rewrite Hh, Hg.
  rewrite decide_False by (intros Hn; by apply Hn).
  rewrite decide_False by (intros Hn; by apply Hn).
  step. step.
  erewrite bind_Returned by (by apply run_inl). cbv beta.
  erewrite bind_Returned by (by apply run_inl). cbv beta.
  erewrite bind_Returned by (by apply run_inl). cbv beta.
  erewrite bind_Returned; last first.
  { apply createInboxEntry_eq. project_db. simpl. done. }
  cbv beta.
  rewrite createInboxEntry_eq by (project_db; simpl; done).
  eexists _, _. split; [reflexivity|].
  project_db. simpl.
  split; [reflexivity|]. split; [reflexivity|]. split; [reflexivity|].
  split; [reflexivity|].
  split; [by rewrite <- app_assoc, !fmap_app|]. done.
Qed.


End CaptureOutcomes.

Module CaptureOutcomeExamples.
Import Sample CaptureOutcomes.


End CaptureOutcomeExamples.

Module SyncFrame.
Import WorldFacts SyncFacts SyncInvariant RejoinFacts.


End SyncFrame.

Module SyncFrameExamples.
Import SyncFrame.


End SyncFrameExamples.

Module ClientTheorems.
Import WorldFacts ShuffleFacts CaptureFacts.

Section Client.
Context `{JsMath}.


End Client.
End ClientTheorems.

Module ClientExamples.
Import Sample ClientTheorems.


End ClientExamples.
